(** * Resource-management reports: aggregation engine, API access layer and
      date-range resolver of [script.js], embedded and verified.

    The JavaScript sources are embedded shallowly:
    - loosely typed field values (ids, effort values) are [jsval]s, with the
      language's truthiness, [ToString] and [parseInt];
    - JavaScript numbers that the program derives (hours) are IEEE 754
      doubles, with the arithmetic of the machine: the sums round as the
      program's sums do;
    - [Map] objects are insertion-ordered association lists;
    - [Array.prototype.sort] is a stable sort driven by the comparator;
    - the access layer runs in a small state-and-exception monad over the
      service state, a logical clock and a script of network outcomes. *)

From Corelib Require Import PrimFloat.
From Corelib Require SpecFloat FloatOps FloatAxioms.
From Stdlib Require Import String Ascii ZArith List Lia Bool.
From Stdlib Require Import Permutation Sorted DecimalString OrderedTypeEx.
From Stdlib Require DecimalZ.
Import ListNotations.

Local Open Scope string_scope.
Local Open Scope Z_scope.

Set Implicit Arguments.
Set Warnings "-inexact-float".

(* ================================================================== *)
(** * JavaScript values                                                 *)
(* ================================================================== *)

(** The values a JSON record field can hold, plus [undefined] for a missing
    field.  Numbers occurring in records are safe integers, at most
    2^53 - 1 in absolute value: these are the integers a double holds
    exactly together with their neighbours, they print in plain decimal and
    [parseInt] reads them back as they are. *)
Inductive jsval : Type :=
| JUndefined
| JNull
| JBool (b : bool)
| JInt (z : Z)
| JStr (s : string).

Definition jsval_eq_dec (a b : jsval) : {a = b} + {a <> b}.
Proof.
  decide equality; [apply bool_dec | apply Z.eq_dec | apply string_dec].
Defined.

Definition optZ_eq_dec (a b : option Z) : {a = b} + {a <> b}.
Proof. decide equality; apply Z.eq_dec. Defined.

(** ToBoolean *)
Definition truthy (v : jsval) : bool :=
  match v with
  | JUndefined | JNull => false
  | JBool b => b
  | JInt z => negb (z =? 0)
  | JStr s => negb (s =? "")%string
  end.

Definition Z_to_string (z : Z) : string := NilZero.string_of_int (Z.to_int z).

(** ToString, as used by template literals and by [parseInt]. *)
Definition ToString (v : jsval) : string :=
  match v with
  | JUndefined => "undefined"
  | JNull => "null"
  | JBool true => "true"
  | JBool false => "false"
  | JInt z => Z_to_string z
  | JStr s => s
  end.

(** Strings are held in UTF-8.  White space and line terminators of one
    byte: TAB, LF, VT, FF, CR, SP. *)
Definition is_space (c : ascii) : bool :=
  let n := Z.of_N (N_of_ascii c) in
  ((9 <=? n) && (n <=? 13)) || (n =? 32).

(** The third byte of the white space and line terminators that begin with
    the bytes E2 80: U+2000 to U+200A, U+2028, U+2029, U+202F. *)
Definition is_space_E2_80 (c : ascii) : bool :=
  let n := Z.of_N (N_of_ascii c) in
  ((128 <=? n) && (n <=? 138)) || (n =? 168) || (n =? 169) || (n =? 175).

(** [String.prototype.trimStart]: the white space and line terminators at
    the head are dropped, those of several bytes too: U+00A0, U+1680,
    U+2000 to U+200A, U+2028, U+2029, U+202F, U+205F, U+3000, U+FEFF. *)
Fixpoint trimStart (s : string) : string :=
  match s with
  | EmptyString => EmptyString
  | String c r =>
      if is_space c then trimStart r
      else
        match c, r with
        | "194"%char, String "160" r' => trimStart r'
        | "225"%char, String "154" (String "128" r') => trimStart r'
        | "226"%char, String "128" (String c3 r') =>
            if is_space_E2_80 c3 then trimStart r' else s
        | "226"%char, String "129" (String "159" r') => trimStart r'
        | "227"%char, String "128" (String "128" r') => trimStart r'
        | "239"%char, String "187" (String "191" r') => trimStart r'
        | _, _ => s
        end
  end.

(** [String.prototype.trimEnd]: what is white space to its end is
    dropped. *)
Fixpoint trimEnd (s : string) : string :=
  match s with
  | EmptyString => EmptyString
  | String c r =>
      match trimStart s with
      | EmptyString => EmptyString
      | _ => String c (trimEnd r)
      end
  end.

(** String.prototype.trim *)
Definition trim (s : string) : string := trimEnd (trimStart s).

(** Value of a character as a digit in the given radix. *)
Definition digit_val (radix : Z) (c : ascii) : option Z :=
  let n := Z.of_N (N_of_ascii c) in
  let d := if (48 <=? n) && (n <=? 57) then Some (n - 48)
           else if (97 <=? n) && (n <=? 122) then Some (n - 87)
           else if (65 <=? n) && (n <=? 90) then Some (n - 55)
           else None in
  match d with
  | Some v => if v <? radix then Some v else None
  | None => None
  end.

(** The longest prefix of digits, read in the radix; [None] when it is
    empty. *)
Fixpoint parse_digits (radix : Z) (acc : option Z) (s : string) : option Z :=
  match s with
  | EmptyString => acc
  | String c r =>
      match digit_val radix c with
      | Some d =>
          parse_digits radix
            (Some (match acc with Some a => a * radix + d | None => d end)) r
      | None => acc
      end
  end.

(** [parseInt(v)] without a radix argument: [None] is [NaN], [Some z] the
    integer that the digits spell.  The program holds the double nearest to
    it ([parseInt_number] below), which is the integer itself as long as it
    is a safe integer. *)
Definition parseInt (v : jsval) : option Z :=
  let s := trimStart (ToString v) in
  let '(neg, s1) :=
    match s with
    | String "-" r => (true, r)
    | String "+" r => (false, r)
    | _ => (false, s)
    end in
  let '(radix, s2) :=
    match s1 with
    | String "0" (String "x" r) => (16, r)
    | String "0" (String "X" r) => (16, r)
    | _ => (10, s1)
    end in
  match parse_digits radix None s2 with
  | Some n => Some (if neg then - n else n)
  | None => None
  end.

(** [`${n}`] for the result of [parseInt]. *)
Definition int_to_string (n : option Z) : string :=
  match n with
  | Some z => Z_to_string z
  | None => "NaN"
  end.

(** [x || d] for a field that holds a string when present. *)
Definition str_or (x : option string) (d : string) : string :=
  match x with
  | Some s => if (s =? "")%string then d else s
  | None => d
  end.

(** [String.prototype.includes] *)
Fixpoint includes (s sub : string) : bool :=
  prefix sub s ||
  match s with
  | EmptyString => false
  | String _ r => includes r sub
  end.

(* ================================================================== *)
(** * Derived numbers                                                   *)
(* ================================================================== *)

(** A number the program computes is a double (IEEE 754 binary64) under
    the arithmetic of the machine: results are rounded to the nearest
    double, ties to even; there are two zeros, two infinities and [NaN]. *)
Definition number : Type := float.

Definition NaN : number := nan.
Definition num_zero : number := 0%float.

(** [a + b] *)
Definition num_add (a b : number) : number := (a + b)%float.

(** The Number value of an integer: the double nearest to it, an infinity
    when it lies beyond the largest double. *)
Definition num_of_Z (z : Z) : number :=
  FloatOps.SF2Prim (SpecFloat.binary_normalize FloatOps.prec FloatOps.emax z 0 false).

(** [a / d] for an integer literal [d] *)
Definition num_div (a : number) (d : Z) : number := (a / num_of_Z d)%float.

(** Whether the text [parseInt] reads begins, behind its white space, with
    a minus sign. *)
Definition minus_sign (v : jsval) : bool :=
  match trimStart (ToString v) with
  | String "-" _ => true
  | _ => false
  end.

(** The Number that [parseInt(v)] returns: [NaN] when no digit is read, the
    double nearest to the integer read, and minus zero for a zero written
    behind a minus sign. *)
Definition parseInt_number (v : jsval) : number :=
  match parseInt v with
  | Some z => if (z =? 0) && minus_sign v then (- 0)%float else num_of_Z z
  | None => NaN
  end.

(** [isNaN] *)
Definition isNaN (n : option Z) : bool :=
  match n with
  | Some _ => false
  | None => true
  end.

(** Sum of a list of numbers, from the left, starting at [0]. *)
Definition sum_hours (l : list number) : number :=
  fold_left num_add l num_zero.

(* ================================================================== *)
(** * [Map]: insertion-ordered association lists                        *)
(* ================================================================== *)

Section OrderedMap.
Variables K V : Type.
Variable eq_dec : forall a b : K, {a = b} + {a <> b}.

Definition omap := list (K * V).

Fixpoint map_get (k : K) (m : omap) : option V :=
  match m with
  | [] => None
  | (k', v) :: r => if eq_dec k k' then Some v else map_get k r
  end.

Definition map_has (k : K) (m : omap) : bool :=
  match map_get k m with
  | Some _ => true
  | None => false
  end.

(** [m.set(k, v)]: an existing key keeps its position, a new key goes
    last. *)
Fixpoint map_set (k : K) (v : V) (m : omap) : omap :=
  match m with
  | [] => [(k, v)]
  | (k', v') :: r =>
      if eq_dec k k' then (k, v) :: r else (k', v') :: map_set k v r
  end.

Definition map_keys (m : omap) : list K := map fst m.
Definition map_values (m : omap) : list V := map snd m.
End OrderedMap.

Arguments map_get {K V} eq_dec k m.
Arguments map_has {K V} eq_dec k m.
Arguments map_set {K V} eq_dec k v m.
Arguments map_keys {K V} m.
Arguments map_values {K V} m.

(* ================================================================== *)
(** * [Array.prototype.sort]                                            *)
(* ================================================================== *)

Section Sort.
Variable A : Type.
(** The comparator: negative, zero or positive. *)
Variable cmp : A -> A -> Z.

(** [x] is placed before the first element it does not have to follow. *)
Fixpoint sort_insert (x : A) (l : list A) : list A :=
  match l with
  | [] => [x]
  | y :: r => if 0 <? cmp x y then y :: sort_insert x r else x :: y :: r
  end.

(** A stable sort: elements the comparator does not separate keep their
    order. *)
Definition js_sort (l : list A) : list A := fold_right sort_insert [] l.
End Sort.

(* ================================================================== *)
(** * Data model                                                        *)
(* ================================================================== *)

(** A task as returned by [tasks.task.list]. [task_group_name] is
    [task.group.name] when [task.group] is present. *)
Record task : Type := {
  task_id : jsval;
  task_title : option string;
  task_groupId : jsval;
  task_group_name : option string;
  task_parentId : jsval;
  task_responsibleId : jsval;
  task_timeEstimate : jsval;
  task_timeSpentInLogs : jsval
}.

Record user : Type := {
  user_ID : jsval;
  user_NAME : option string;
  user_LAST_NAME : option string
}.

Record project : Type := {
  project_ID : jsval;
  project_NAME : string
}.

(** A row of the plan-vs-fact report. *)
Record row : Type := {
  projectName : string;
  userName : string;
  taskTitle : string;
  actualHours : number;
  plannedHours : number;
  isSummary : bool
}.

(** [userMap]: users keyed by [parseInt(user.ID)]. *)
Definition build_userMap (users : list user) : omap (option Z) user :=
  fold_left (fun m u => map_set optZ_eq_dec (parseInt (user_ID u)) u m) users [].

(** The display name of a looked-up user. *)
Definition display_name (u : option user) : string :=
  match u with
  | Some u => trim (str_or (user_NAME u) "" ++ " " ++ str_or (user_LAST_NAME u) "")
  | None => "Не назначен"
  end.

Definition untitled : string := "Без названия".
Definition summary_label : string := "Сумма по всем задачам".
Definition project_total_label : string := "ИТОГО ПО ПРОЕКТУ".

(** [`Проект ${projectId}`] *)
Definition synth_project_name (projectId : jsval) : string :=
  "Проект " ++ ToString projectId.

(* ================================================================== *)
(** * PlanVsFact: [processPlanFactData]                                 *)
(* ================================================================== *)

(** Per-task accumulator inside a user group. *)
Record taskData : Type := {
  td_title : string;
  td_actualHours : number;
  td_plannedHours : number
}.

(** Value of [userTaskMap] for one [`${projectId}-${userId}`] key. *)
Record userData : Type := {
  ud_projectName : string;
  ud_userName : string;
  ud_tasks : omap jsval taskData;
  ud_totalActual : number;
  ud_totalPlanned : number
}.

(** [v ? parseInt(v) : 0], then [/ 3600]: the hours of the plan-vs-fact
    algorithm. *)
Definition planFact_hours (v : jsval) : number :=
  let seconds := if truthy v then parseInt_number v else num_zero in
  num_div seconds 3600.

(** The guard at the head of the grouping loop: the task is kept when it
    does not hit [if (!task.groupId || !task.responsibleId) return]. *)
Definition kept (t : task) : bool :=
  negb (negb (truthy (task_groupId t)) || negb (truthy (task_responsibleId t))).

Definition group_key (t : task) : string :=
  ToString (task_groupId t) ++ "-" ++ int_to_string (parseInt (task_responsibleId t)).

Section PlanFact.
(** [String.prototype.localeCompare] of the host. *)
Variable localeCompare : string -> string -> Z.

Variable userMap : omap (option Z) user.
Variable projectMap : omap (option Z) project.

Definition group_userName (t : task) : string :=
  display_name (map_get optZ_eq_dec (parseInt (task_responsibleId t)) userMap).

Definition group_projectName (t : task) : string :=
  match map_get optZ_eq_dec (parseInt (task_groupId t)) projectMap with
  | Some p => project_NAME p
  | None => synth_project_name (task_groupId t)
  end.

(** The part of the loop body below the guard. *)
Definition account_task (userTaskMap : omap string userData) (t : task)
  : omap string userData :=
  let projectId := task_groupId t in
  let taskId := task_id t in
  let userName := group_userName t in
  let projectName := group_projectName t in
  let key := group_key t in
  let userTaskMap1 :=
    if map_has string_dec key userTaskMap then userTaskMap
    else map_set string_dec key
           {| ud_projectName := projectName; ud_userName := userName;
              ud_tasks := []; ud_totalActual := num_zero;
              ud_totalPlanned := num_zero |} userTaskMap in
  match map_get string_dec key userTaskMap1 with
  | None => userTaskMap1
  | Some userData0 =>
      let tasks1 :=
        if map_has jsval_eq_dec taskId (ud_tasks userData0) then ud_tasks userData0
        else map_set jsval_eq_dec taskId
               {| td_title := str_or (task_title t) untitled;
                  td_actualHours := num_zero; td_plannedHours := num_zero |}
               (ud_tasks userData0) in
      match map_get jsval_eq_dec taskId tasks1 with
      | None => userTaskMap1
      | Some taskData0 =>
          let actualHours := planFact_hours (task_timeSpentInLogs t) in
          let plannedHours := planFact_hours (task_timeEstimate t) in
          let taskData1 :=
            {| td_title := td_title taskData0;
               td_actualHours := num_add (td_actualHours taskData0) actualHours;
               td_plannedHours := num_add (td_plannedHours taskData0) plannedHours |} in
          map_set string_dec key
            {| ud_projectName := ud_projectName userData0;
               ud_userName := ud_userName userData0;
               ud_tasks := map_set jsval_eq_dec taskId taskData1 tasks1;
               ud_totalActual := num_add (ud_totalActual userData0) actualHours;
               ud_totalPlanned := num_add (ud_totalPlanned userData0) plannedHours |}
            userTaskMap1
      end
  end.

(** One iteration of [tasks.forEach]. *)
Definition group_step (userTaskMap : omap string userData) (t : task)
  : omap string userData :=
  if negb (truthy (task_groupId t)) || negb (truthy (task_responsibleId t))
  then userTaskMap
  else account_task userTaskMap t.

Definition build_userTaskMap (tasks : list task) : omap string userData :=
  fold_left group_step tasks [].

Definition detail_row (ud : userData) (td : taskData) : row :=
  {| projectName := ud_projectName ud; userName := ud_userName ud;
     taskTitle := td_title td; actualHours := td_actualHours td;
     plannedHours := td_plannedHours td; isSummary := false |}.

Definition summary_row (ud : userData) : row :=
  {| projectName := ud_projectName ud; userName := ud_userName ud;
     taskTitle := summary_label; actualHours := ud_totalActual ud;
     plannedHours := ud_totalPlanned ud; isSummary := true |}.

Definition detail_rows (ud : userData) : list row :=
  map (detail_row ud) (map_values (ud_tasks ud)).

(** The rows pushed for one entry of [userTaskMap]. *)
Definition emit_group (ud : userData) : list row :=
  (detail_rows ud ++ [summary_row ud])%list.

Definition emit_rows (userTaskMap : omap string userData) : list row :=
  flat_map emit_group (map_values userTaskMap).

(** The comparator handed to [result.sort]. *)
Definition planFact_compare (a b : row) : Z :=
  if negb (projectName a =? projectName b)%string
  then localeCompare (projectName a) (projectName b)
  else if negb (userName a =? userName b)%string
  then localeCompare (userName a) (userName b)
  else if isSummary a && negb (isSummary b) then 1
  else if negb (isSummary a) && isSummary b then -1
  else localeCompare (taskTitle a) (taskTitle b).

Definition planFact_rows (tasks : list task) : list row :=
  js_sort planFact_compare (emit_rows (build_userTaskMap tasks)).
End PlanFact.

(** [processPlanFactData(tasks, users, projectMap)] *)
Definition processPlanFactData (localeCompare : string -> string -> Z)
  (tasks : list task) (users : list user) (projectMap : omap (option Z) project)
  : list row :=
  planFact_rows localeCompare (build_userMap users) projectMap tasks.

(* ================================================================== *)
(** * ProjectResourceTree: [processProjectResources]                    *)
(* ================================================================== *)

(** An entry of [taskMap]: the task, augmented.  The node objects are
    shared between [taskMap], [hierarchy] and the [children] arrays; a
    reference to a node is its key in [taskMap]. *)
Record node : Type := {
  n_task : task;
  n_children : list jsval;
  n_actualHours : number;
  n_plannedHours : number;
  n_level : Z
}.

(** A row of the resource report.  The fields a row object does not carry
    read as [JUndefined], [None] or [false]. *)
Record resourceRow : Type := {
  rr_projectId : jsval;
  rr_projectName : string;
  rr_taskId : jsval;
  rr_taskTitle : string;
  rr_subtaskTitle : option string;
  rr_userId : jsval;
  rr_userName : string;
  rr_actualHours : number;
  rr_plannedHours : number;
  rr_level : Z;
  rr_isProjectTotal : bool
}.

(** [(v && !isNaN(parseInt(v))) ? parseInt(v) / 3600 : 0] *)
Definition resource_hours (v : jsval) : number :=
  if truthy v && negb (isNaN (parseInt v))
  then num_div (parseInt_number v) 3600
  else num_zero.

(** State of the first loop: [taskMap], [projectTotalActual],
    [projectTotalPlanned]. *)
Definition register_task (st : omap jsval node * number * number) (t : task)
  : omap jsval node * number * number :=
  let '(taskMap, projectTotalActual, projectTotalPlanned) := st in
  let actualHours := resource_hours (task_timeSpentInLogs t) in
  let plannedHours := resource_hours (task_timeEstimate t) in
  (map_set jsval_eq_dec (task_id t)
     {| n_task := t; n_children := []; n_actualHours := actualHours;
        n_plannedHours := plannedHours; n_level := 0 |} taskMap,
   num_add projectTotalActual actualHours,
   num_add projectTotalPlanned plannedHours).

(** One iteration of [for (const task of taskMap.values())], on the node
    with key [k]: the store of nodes and the [hierarchy] array. *)
Definition link_step (st : omap jsval node * list jsval) (k : jsval)
  : omap jsval node * list jsval :=
  let '(taskMap, hierarchy) := st in
  match map_get jsval_eq_dec k taskMap with
  | None => st
  | Some task0 =>
      let parentId := task_parentId (n_task task0) in
      if negb (truthy parentId) || negb (map_has jsval_eq_dec parentId taskMap)
      then (taskMap, (hierarchy ++ [k])%list)
      else
        match map_get jsval_eq_dec parentId taskMap with
        | None => st
        | Some parent =>
            let taskMap1 :=
              map_set jsval_eq_dec parentId
                {| n_task := n_task parent;
                   n_children := (n_children parent ++ [k])%list;
                   n_actualHours := n_actualHours parent;
                   n_plannedHours := n_plannedHours parent;
                   n_level := n_level parent |} taskMap in
            match map_get jsval_eq_dec k taskMap1 with
            | None => (taskMap1, hierarchy)
            | Some task1 =>
                (map_set jsval_eq_dec k
                   {| n_task := n_task task1;
                      n_children := n_children task1;
                      n_actualHours := n_actualHours task1;
                      n_plannedHours := n_plannedHours task1;
                      n_level := n_level parent + 1 |} taskMap1,
                 hierarchy)
            end
        end
  end.

Section Flatten.
Variable userMap : omap (option Z) user.
Variable taskMap : omap jsval node.
Variable detailLevel : Z.

Definition resource_row (task0 : node) (level : Z) : resourceRow :=
  let t := n_task task0 in
  {| rr_projectId := task_groupId t;
     rr_projectName := str_or (task_group_name t) (synth_project_name (task_groupId t));
     rr_taskId := task_id t;
     rr_taskTitle := str_or (task_title t) untitled;
     rr_subtaskTitle := Some (if 0 <? level then "Уровень " ++ Z_to_string level else "");
     rr_userId := task_responsibleId t;
     rr_userName := display_name (map_get optZ_eq_dec (parseInt (task_responsibleId t)) userMap);
     rr_actualHours := n_actualHours task0;
     rr_plannedHours := n_plannedHours task0;
     rr_level := level;
     rr_isProjectTotal := false |}.

(** [flattenHierarchy(tasks, level)].  Each nested call is made at
    [level + 1] under the test [level < detailLevel], so that
    [detailLevel - level] bounds the depth: [fuel] counts the calls that may
    still nest. *)
Fixpoint flattenHierarchy (fuel : nat) (tasks : list jsval) (level : Z)
  : list resourceRow :=
  match fuel with
  | O => []
  | S fuel' =>
      flat_map
        (fun k =>
           match map_get jsval_eq_dec k taskMap with
           | None => []
           | Some task0 =>
               ((if level <=? detailLevel then [resource_row task0 level] else [])
                ++
                (if (0 <? Z.of_nat (length (n_children task0))) && (level <? detailLevel)
                 then flattenHierarchy fuel' (n_children task0) (level + 1)
                 else []))%list
           end) tasks
  end.

(** Fuel that covers every nesting from [level] on. *)
Definition flatten_fuel (level : Z) : nat := S (Z.to_nat (detailLevel - level)).
End Flatten.

Definition total_row (p : project) (projectTotalActual projectTotalPlanned : number)
  : resourceRow :=
  {| rr_projectId := JUndefined;
     rr_projectName := project_NAME p;
     rr_taskId := JUndefined;
     rr_taskTitle := project_total_label;
     rr_subtaskTitle := None;
     rr_userId := JUndefined;
     rr_userName := "";
     rr_actualHours := projectTotalActual;
     rr_plannedHours := projectTotalPlanned;
     rr_level := 999;
     rr_isProjectTotal := true |}.

(** The comparator of the final [taskList.sort]. *)
Definition total_last_compare (a b : resourceRow) : Z :=
  if rr_isProjectTotal a && negb (rr_isProjectTotal b) then 1
  else if negb (rr_isProjectTotal a) && rr_isProjectTotal b then -1
  else 0.

Definition build_taskMap (tasks : list task) : omap jsval node * number * number :=
  fold_left register_task tasks ([], num_zero, num_zero).

Definition build_hierarchy (taskMap : omap jsval node) : omap jsval node * list jsval :=
  fold_left link_step (map_keys taskMap) (taskMap, []).

(** [processProjectResources(tasks, users, project, detailLevel)] *)
Definition processProjectResources (tasks : list task) (users : list user)
  (p : project) (detailLevel : Z) : list resourceRow :=
  let userMap := build_userMap users in
  let '(taskMap0, projectTotalActual, projectTotalPlanned) := build_taskMap tasks in
  let '(taskMap, hierarchy) := build_hierarchy taskMap0 in
  let taskList :=
    flattenHierarchy userMap taskMap detailLevel (flatten_fuel detailLevel 0) hierarchy 0 in
  js_sort total_last_compare
    (taskList ++ [total_row p projectTotalActual projectTotalPlanned])%list.

(* ================================================================== *)
(** * ApiAccessLayer: [callMethod]                                      *)
(* ================================================================== *)

(** The value of a key of a parameter object. *)
Inductive pval : Type :=
| PScalar (v : jsval)
| PObject (fields : list (string * jsval))
| PArray (items : list jsval).

(** A parameter object: its own keys, in insertion order. *)
Definition params : Type := omap string pval.

Definition pval_truthy (v : pval) : bool :=
  match v with
  | PScalar v => truthy v
  | PObject _ | PArray _ => true
  end.

(** An [Error] object, identified by its message. *)
Record error : Type := { message : string }.

Definition quota_marker : string := "QUERY_LIMIT_EXCEEDED".

(** [v !== undefined && v !== null && v !== ''] *)
Definition present (v : jsval) : bool :=
  match v with
  | JUndefined | JNull => false
  | JStr s => negb (s =? "")%string
  | _ => true
  end.

Fixpoint indexed (A : Type) (i : Z) (l : list A) : list (Z * A) :=
  match l with
  | [] => []
  | x :: r => (i, x) :: indexed (i + 1) r
  end.

(** The entries appended to [urlParams] for one key of [params]; calling
    [forEach] on a [select] that is not an array throws. *)
Definition encode_param (key : string) (v : pval) : error + list (string * string) :=
  match v with
  | PScalar JUndefined | PScalar JNull => inr []
  | PScalar v => if present v then inr [(key, ToString v)] else inr []
  | PObject fields =>
      if (key =? "filter")%string then
        inr (flat_map (fun '(filterKey, fv) =>
                         if present fv
                         then [("filter[" ++ filterKey ++ "]", ToString fv)]
                         else []) fields)
      else if (key =? "select")%string then
        inl {| message := "params[key].forEach is not a function" |}
      else inr []
  | PArray items =>
      if (key =? "filter")%string then
        inr (flat_map (fun '(i, fv) =>
                         if present fv
                         then [("filter[" ++ Z_to_string i ++ "]", ToString fv)]
                         else []) (indexed 0 items))
      else if (key =? "select")%string then
        inr (map (fun '(i, field) => ("select[" ++ Z_to_string i ++ "]", ToString field))
               (indexed 0 items))
      else inr []
  end.

(** The [for (const key in params)] loop. *)
Fixpoint encode_params (p : params) : error + list (string * string) :=
  match p with
  | [] => inr []
  | (key, v) :: r =>
      match encode_param key v with
      | inl e => inl e
      | inr here =>
          match encode_params r with
          | inl e => inl e
          | inr rest => inr (here ++ rest)%list
          end
      end
  end.

Definition baseUrl : string := "https://intogroup.bitrix24.ru/rest/18/ucbradji55w3rn5h".

(** A request: the URL before the query string, and the entries of
    [urlParams] (percent-encoding is left to the transport). *)
Record request : Type := {
  rq_endpoint : string;
  rq_query : list (string * string)
}.

(** What a caller can observe of a run. *)
Inductive event : Type :=
| EvDelay (ms : Z)
| EvFetch (rq : request).

(** How an asynchronous call ends: it returns, it throws, or it never
    settles. *)
Inductive outcome (A : Type) : Type :=
| Return (a : A)
| Throw (e : error)
| Pending.

Arguments Return {A} a.
Arguments Throw {A} e.
Arguments Pending {A}.

(** Computations over a state [W] that may throw or hang. *)
Definition Async (W A : Type) : Type := W -> outcome A * W.

Definition ret {W A : Type} (a : A) : Async W A := fun w => (Return a, w).

Definition bind {W A B : Type} (m : Async W A) (k : A -> Async W B) : Async W B :=
  fun w =>
    match m w with
    | (Return a, w') => k a w'
    | (Throw e, w') => (Throw e, w')
    | (Pending, w') => (Pending, w')
    end.

Notation "x <- m ;; k" := (bind m (fun x => k))
  (at level 61, m at next level, right associativity).

Section CallMethod.
(** Result payloads. *)
Variable R : Type.
(** [JSON.stringify] on parameter objects. *)
Variable JSON_stringify : params -> string.

(** The parsed body of a response: its [error] and [error_description]
    fields, and [data.result || data]. *)
Record apiData : Type := {
  d_error : jsval;
  d_error_description : jsval;
  d_result : R
}.

Inductive bodyOutcome : Type :=
| BodyInvalid (msg : string)
| BodyData (data : apiData).

(** How one [fetch] goes: it rejects, or it resolves to a response. *)
Inductive fetchOutcome : Type :=
| FetchRejected (msg : string)
| FetchResponse (ok : bool) (status : Z) (body : bodyOutcome).

(** One round trip of the network: the time it takes and how it ends. *)
Record netStep : Type := {
  ns_elapsed : Z;
  ns_outcome : fetchOutcome
}.

Record cacheEntry : Type := { ce_data : R; ce_timestamp : Z }.

(** The fields of an [IntoGroupBitrixService] instance. *)
Record service : Type := {
  rl_lastCall : Z;
  rl_delay : Z;
  cache : omap string cacheEntry
}.

Definition new_service : service :=
  {| rl_lastCall := 0; rl_delay := 1000; cache := [] |}.

(** The instance, the clock ([Date.now()]) and the events so far. *)
Record world : Type := {
  svc : service;
  clock : Z;
  trace : list event
}.

(** [await this.delay(ms)] *)
Definition delay (ms : Z) (w : world) : world :=
  {| svc := svc w; clock := clock w + ms; trace := (trace w ++ [EvDelay ms])%list |}.

(** What the statements between [fetch] and [return result] make of a
    network outcome: the thrown error or the parsed data. *)
Definition check_response (o : fetchOutcome) : error + apiData :=
  match o with
  | FetchRejected msg => inl {| message := msg |}
  | FetchResponse ok status body =>
      if negb ok then inl {| message := "HTTP error! status: " ++ Z_to_string status |}
      else
        match body with
        | BodyInvalid msg => inl {| message := msg |}
        | BodyData data =>
            if truthy (d_error data)
            then inl {| message :=
                          ToString (if truthy (d_error_description data)
                                    then d_error_description data
                                    else d_error data) |}
            else inr data
        end
  end.

Definition cache_key (method : string) (p : params) : string :=
  method ++ "-" ++ JSON_stringify p.

(** The cached payload the call returns at once: an entry younger than
    five minutes. *)
Definition cache_lookup (cacheKey : string) (w : world) : option R :=
  match map_get string_dec cacheKey (cache (svc w)) with
  | Some cached =>
      if clock w - ce_timestamp cached <? 300000 then Some (ce_data cached) else None
  | None => None
  end.

(** The wait for the rest of the minimum interval since the last call. *)
Definition await_rate_limit (w : world) : world :=
  let timeSinceLastCall := clock w - rl_lastCall (svc w) in
  if timeSinceLastCall <? rl_delay (svc w)
  then delay (rl_delay (svc w) - timeSinceLastCall) w
  else w.

Definition request_of (method : string) (query : list (string * string)) : request :=
  {| rq_endpoint := baseUrl ++ "/" ++ method; rq_query := query |}.

(** [fetch(url)] is issued. *)
Definition log_fetch (rq : request) (w : world) : world :=
  {| svc := svc w; clock := clock w; trace := (trace w ++ [EvFetch rq])%list |}.

(** The round trip takes its time. *)
Definition elapse (ms : Z) (w : world) : world :=
  {| svc := svc w; clock := clock w + ms; trace := trace w |}.

(** The success path: the call time is recorded and the payload cached
    under the time read when the call began. *)
Definition record_success (cacheKey : string) (now : Z) (result : R) (w : world)
  : world :=
  {| svc := {| rl_lastCall := clock w;
               rl_delay := rl_delay (svc w);
               cache := map_set string_dec cacheKey
                          {| ce_data := result; ce_timestamp := now |}
                          (cache (svc w)) |};
     clock := clock w;
     trace := trace w |}.

(** [callMethod(method, params)] against the remaining round trips of the
    network.  A retry follows a failed round trip, so the recursion is on
    the round trips; when none is left the request never settles. *)
Fixpoint callMethod_run (net : list netStep) (method : string) (p : params)
  (w : world) : outcome R * (list netStep * world) :=
  let cacheKey := cache_key method p in
  let now := clock w in
  match cache_lookup cacheKey w with
  | Some data => (Return data, (net, w))
  | None =>
      let w1 := await_rate_limit w in
      match encode_params p with
      | inl e =>
          (* thrown before any request; no message of [encode_params]
             carries the quota marker *)
          (Throw e, (net, w1))
      | inr query =>
          let w2 := log_fetch (request_of method query) w1 in
          match net with
          | [] => (Pending, ([], w2))
          | step :: net' =>
              let w3 := elapse (ns_elapsed step) w2 in
              match check_response (ns_outcome step) with
              | inl e =>
                  if includes (message e) quota_marker
                  then callMethod_run net' method p (delay 2000 w3)
                  else (Throw e, (net', w3))
              | inr data =>
                  let result := d_result data in
                  (Return result, (net', record_success cacheKey now result w3))
              end
          end
      end
  end.

Definition callMethod (method : string) (p : params)
  : Async (list netStep * world) R :=
  fun '(net, w) => callMethod_run net method p w.
End CallMethod.

(* ================================================================== *)
(** * DomainQueries: [getTasks]                                         *)
(* ================================================================== *)

Definition selectFields : list string :=
  ["ID"; "TITLE"; "GROUP_ID"; "PARENT_ID"; "RESPONSIBLE_ID";
   "TIME_ESTIMATE"; "CREATED_DATE"; "TIME_SPENT_IN_LOGS";
   "STATUS"; "CLOSED_DATE"; "DEADLINE"].

Definition limit : Z := 50.

(** [params.key || d] *)
Definition param_or (p : params) (key : string) (d : pval) : pval :=
  match map_get string_dec key p with
  | Some v => if pval_truthy v then v else d
  | None => d
  end.

(** [{...params, start: start, filter: params.filter || {},
      select: params.select || selectFields, order: { ID: 'ASC' }}] *)
Definition page_params (p : params) (start : Z) : params :=
  map_set string_dec "order" (PObject [("ID", JStr "ASC")])
    (map_set string_dec "select" (param_or p "select" (PArray (map JStr selectFields)))
       (map_set string_dec "filter" (param_or p "filter" (PObject []))
          (map_set string_dec "start" (PScalar (JInt start)) p))).

Section GetTasks.
Variables W R : Type.
Variable callMethod : string -> params -> Async W R.
(** [result && result.tasks]: the task array of a page, when the result
    carries one. *)
Variable result_tasks : R -> option (list task).

(** The [do { ... } while (true)] loop; [fuel] bounds the iterations still
    allowed, and a loop out of fuel has not finished. *)
Fixpoint getTasks_loop (fuel : nat) (p : params) (allTasks : list task) (start : Z)
  : Async W (list task) :=
  match fuel with
  | O => fun w => (Pending, w)
  | S fuel' =>
      result <- callMethod "tasks.task.list" (page_params p start) ;;
      match result_tasks result with
      | Some tasks =>
          let allTasks' := (allTasks ++ tasks)%list in
          if Z.of_nat (length tasks) <? limit then ret allTasks'
          else
            let start' := start + limit in
            if start' >=? 1000 then ret allTasks'
            else getTasks_loop fuel' p allTasks' start'
      | None => ret allTasks
      end
  end.

(** [getTasks(params)]: [start] grows by 50 at each turn and the loop is
    left once it reaches 1000, so that 20 turns are all there can be. *)
Definition getTasks (p : params) : Async W (list task) :=
  getTasks_loop 20 p [] 0.
End GetTasks.

(* ================================================================== *)
(** * DateRangeResolver: [getDateRange]                                 *)
(* ================================================================== *)

Definition msPerDay : Z := 86400000.
Definition msPerMinute : Z := 60000.

(** Day number (days since 1970-01-01) of a date of the proleptic Gregorian
    calendar, month in 1..12. *)
Definition days_from_civil (y m d : Z) : Z :=
  let y' := if m <=? 2 then y - 1 else y in
  let era := y' / 400 in
  let yoe := y' - era * 400 in
  let doy := (153 * (if 2 <? m then m - 3 else m + 9) + 2) / 5 + d - 1 in
  let doe := yoe * 365 + yoe / 4 - yoe / 100 + doy in
  era * 146097 + doe - 719468.

(** Year, month (1..12) and day of the month of a day number. *)
Definition civil_from_days (z : Z) : Z * Z * Z :=
  let z' := z + 719468 in
  let era := z' / 146097 in
  let doe := z' - era * 146097 in
  let yoe := (doe - doe / 1460 + doe / 36524 - doe / 146096) / 365 in
  let doy := doe - (365 * yoe + yoe / 4 - yoe / 100) in
  let mp := (5 * doy + 2) / 153 in
  let d := doy - (153 * mp + 2) / 5 + 1 in
  let m := if mp <? 10 then mp + 3 else mp - 9 in
  ((yoe + era * 400) + (if m <=? 2 then 1 else 0), m, d).

(** MakeDay: month counted from 0 and carried into the year, day of the
    month counted from the first. *)
Definition MakeDay (year month date : Z) : Z :=
  days_from_civil (year + month / 12) (month mod 12 + 1) 1 + date - 1.

(** A number padded with zeros on the left. *)
Definition pad (width : nat) (z : Z) : string :=
  let s := Z_to_string z in
  (fix zeros (n : nat) : string :=
     match n with O => s | S n' => "0" ++ zeros n' end)
    (width - String.length s)%nat.

(** The date part of the ISO 8601 form: four digits for the years 0 to
    9999, a sign and six digits otherwise. *)
Definition iso_date (y m d : Z) : string :=
  let year := if (0 <=? y) && (y <=? 9999) then pad 4 y
              else if y <? 0 then "-" ++ pad 6 (- y) else "+" ++ pad 6 y in
  year ++ "-" ++ pad 2 m ++ "-" ++ pad 2 d.

(** The time zone of the host: the offset of its local time from UTC, in
    milliseconds, east positive.  The offset changes with the date where
    daylight saving time is kept, so that it is given for an instant
    ([LocalTZA(t, true)], [t] in UTC) and for a time on the local clock
    ([LocalTZA(t, false)], [t] in local time). *)
Record host : Type := {
  offset_at : Z -> Z;
  offset_of_local : Z -> Z
}.

(** The host that keeps one offset, of [tz] minutes, at all times.  An
    integer where a host is expected stands for that host. *)
Definition fixed_offset (tz : Z) : host :=
  {| offset_at := fun _ => tz * msPerMinute;
     offset_of_local := fun _ => tz * msPerMinute |}.

Coercion fixed_offset : Z >-> host.

Section Dates.
Variable tz : host.
(** [Date.parse]: [None] is an invalid date. *)
Variable Date_parse : string -> option Z.

Definition LocalTime (t : Z) : Z := t + offset_at tz t.
Definition UTC (t : Z) : Z := t - offset_of_local tz t.

Definition getFullYear (t : Z) : Z := fst (fst (civil_from_days (LocalTime t / msPerDay))).
Definition getMonth (t : Z) : Z := snd (fst (civil_from_days (LocalTime t / msPerDay))) - 1.
Definition getDate (t : Z) : Z := snd (civil_from_days (LocalTime t / msPerDay)).

(** [new Date(year, month, date)]: local midnight; a year in 0..99 counts
    from 1900. *)
Definition new_Date (year month date : Z) : Z :=
  let yr := if (0 <=? year) && (year <=? 99) then 1900 + year else year in
  UTC (MakeDay yr month date * msPerDay).

(** [d.setDate(date)]: the day of the month is replaced, the local time of
    day kept. *)
Definition setDate (t : Z) (date : Z) : Z :=
  UTC (MakeDay (getFullYear t) (getMonth t) date * msPerDay + LocalTime t mod msPerDay).

(** [date.toISOString().split('T')[0]] *)
Definition formatDate (t : Z) : string :=
  let '(y, m, d) := civil_from_days (t / msPerDay) in iso_date y m d.

(** [bound ? new Date(bound) : new Date(now)] *)
Definition custom_bound (now : Z) (bound : option string) : option Z :=
  match bound with
  | Some s => if (s =? "")%string then Some now else Date_parse s
  | None => Some now
  end.

(** [getDateRange(period, customFrom, customTo)] at the instant [now];
    formatting an invalid date throws. *)
Definition getDateRange (now : Z) (period : option string)
  (customFrom customTo : option string) : error + (string * string) :=
  let period := match period with Some s => s | None => "month" end in
  let bounds : option Z * option Z :=
    if (period =? "week")%string then
      (Some (setDate now (getDate now - 7)), Some now)
    else if (period =? "month")%string then
      (Some (new_Date (getFullYear now) (getMonth now) 1),
       Some (new_Date (getFullYear now) (getMonth now + 1) 0))
    else if (period =? "quarter")%string then
      let quarter := getMonth now / 3 in
      (Some (new_Date (getFullYear now) (quarter * 3) 1),
       Some (new_Date (getFullYear now) ((quarter + 1) * 3) 0))
    else if (period =? "year")%string then
      (Some (new_Date (getFullYear now) 0 1), Some (new_Date (getFullYear now) 11 31))
    else if (period =? "custom")%string then
      (custom_bound now customFrom, custom_bound now customTo)
    else
      (Some (setDate now (getDate now - 30)), Some now) in
  match bounds with
  | (Some from, Some to) => inr (formatDate from, formatDate to)
  | _ => inl {| message := "Invalid time value" |}
  end.
End Dates.

(* ================================================================== *)
(** * PlanVsFact, earlier snapshot of the source                        *)
(* ================================================================== *)

(** The second copy of the source groups by project first, then by user, and
    names a project after [task.group.name]; the guard, the hours and the
    sort are the same. *)
Module Earlier.

Record userEntry : Type := {
  ue_name : string;
  ue_tasks : omap jsval taskData;
  ue_totalActual : number;
  ue_totalPlanned : number
}.

Record projectEntry : Type := {
  pe_name : string;
  pe_users : omap (option Z) userEntry
}.

Section PlanFact.
Variable localeCompare : string -> string -> Z.
Variable userMap : omap (option Z) user.

Definition account_task (projectMap : omap jsval projectEntry) (t : task)
  : omap jsval projectEntry :=
  let projectId := task_groupId t in
  let userId := parseInt (task_responsibleId t) in
  let taskId := task_id t in
  let taskTitle := str_or (task_title t) untitled in
  let userName := display_name (map_get optZ_eq_dec userId userMap) in
  let projectName := str_or (task_group_name t) (synth_project_name projectId) in
  let projectMap1 :=
    if map_has jsval_eq_dec projectId projectMap then projectMap
    else map_set jsval_eq_dec projectId
           {| pe_name := projectName; pe_users := [] |} projectMap in
  match map_get jsval_eq_dec projectId projectMap1 with
  | None => projectMap1
  | Some project0 =>
      let users1 :=
        if map_has optZ_eq_dec userId (pe_users project0) then pe_users project0
        else map_set optZ_eq_dec userId
               {| ue_name := userName; ue_tasks := [];
                  ue_totalActual := num_zero; ue_totalPlanned := num_zero |}
               (pe_users project0) in
      match map_get optZ_eq_dec userId users1 with
      | None => projectMap1
      | Some userTasks =>
          let tasks1 :=
            if map_has jsval_eq_dec taskId (ue_tasks userTasks) then ue_tasks userTasks
            else map_set jsval_eq_dec taskId
                   {| td_title := taskTitle; td_actualHours := num_zero;
                      td_plannedHours := num_zero |} (ue_tasks userTasks) in
          match map_get jsval_eq_dec taskId tasks1 with
          | None => projectMap1
          | Some taskData0 =>
              let actualHours := planFact_hours (task_timeSpentInLogs t) in
              let plannedHours := planFact_hours (task_timeEstimate t) in
              let taskData1 :=
                {| td_title := td_title taskData0;
                   td_actualHours := num_add (td_actualHours taskData0) actualHours;
                   td_plannedHours := num_add (td_plannedHours taskData0) plannedHours |} in
              let userTasks1 :=
                {| ue_name := ue_name userTasks;
                   ue_tasks := map_set jsval_eq_dec taskId taskData1 tasks1;
                   ue_totalActual := num_add (ue_totalActual userTasks) actualHours;
                   ue_totalPlanned := num_add (ue_totalPlanned userTasks) plannedHours |} in
              map_set jsval_eq_dec projectId
                {| pe_name := pe_name project0;
                   pe_users := map_set optZ_eq_dec userId userTasks1 users1 |}
                projectMap1
          end
      end
  end.

Definition group_step (projectMap : omap jsval projectEntry) (t : task)
  : omap jsval projectEntry :=
  if negb (truthy (task_groupId t)) || negb (truthy (task_responsibleId t))
  then projectMap
  else account_task projectMap t.

Definition emit_user (pe : projectEntry) (ue : userEntry) : list row :=
  (map (fun td =>
          {| projectName := pe_name pe; userName := ue_name ue;
             taskTitle := td_title td; actualHours := td_actualHours td;
             plannedHours := td_plannedHours td; isSummary := false |})
     (map_values (ue_tasks ue))
   ++ [{| projectName := pe_name pe; userName := ue_name ue;
          taskTitle := summary_label; actualHours := ue_totalActual ue;
          plannedHours := ue_totalPlanned ue; isSummary := true |}])%list.

Definition emit_rows (projectMap : omap jsval projectEntry) : list row :=
  flat_map (fun pe => flat_map (emit_user pe) (map_values (pe_users pe)))
    (map_values projectMap).

Definition planFact_rows (tasks : list task) : list row :=
  js_sort (planFact_compare localeCompare) (emit_rows (fold_left group_step tasks [])).
End PlanFact.

(** [processPlanFactData(tasks, users, dateRange)]; [dateRange] is not
    used. *)
Definition processPlanFactData (localeCompare : string -> string -> Z)
  (tasks : list task) (users : list user) (dateRange : string * string)
  : list row :=
  planFact_rows localeCompare (build_userMap users) tasks.

End Earlier.

Local Open Scope list_scope.

(* ================================================================== *)
(** * Facts about the sort                                              *)
(* ================================================================== *)

Section SortFacts.
Variable A : Type.
Variable cmp : A -> A -> Z.

Lemma sort_insert_perm (x : A) (l : list A) :
  Permutation (sort_insert cmp x l) (x :: l).
Proof.
  induction l as [|y r IH]; simpl; [reflexivity|].
  destruct (0 <? cmp x y); [|reflexivity].
  rewrite IH. apply perm_swap.
Qed.

Lemma js_sort_perm (l : list A) : Permutation (js_sort cmp l) l.
Proof.
  induction l as [|x l IH]; simpl; [reflexivity|].
  rewrite sort_insert_perm. now constructor.
Qed.

(** A list the comparator already accepts pairwise from left to right is
    returned as it is. *)
Lemma js_sort_in_order (l : list A) :
  ForallOrdPairs (fun a b => cmp a b <= 0) l -> js_sort cmp l = l.
Proof.
  induction 1 as [|x l Hx _ IH]; simpl; [reflexivity|].
  rewrite IH. destruct l as [|y r]; simpl; [reflexivity|].
  inversion Hx as [|? ? Hxy _]; subst.
  destruct (Z.ltb_spec 0 (cmp x y)); [lia | reflexivity].
Qed.
End SortFacts.

(* ================================================================== *)
(** * ProjectResourceTree: proofs                                       *)
(* ================================================================== *)

Definition total_actual (tasks : list task) : number :=
  sum_hours (map (fun t => resource_hours (task_timeSpentInLogs t)) tasks).

Definition total_planned (tasks : list task) : number :=
  sum_hours (map (fun t => resource_hours (task_timeEstimate t)) tasks).

(** The rows [flattenHierarchy(hierarchy, 0)] returns, before the total row
    is pushed. *)
Definition resource_task_rows (tasks : list task) (users : list user)
  (detailLevel : Z) : list resourceRow :=
  let st := build_hierarchy (fst (fst (build_taskMap tasks))) in
  flattenHierarchy (build_userMap users) (fst st) detailLevel
    (flatten_fuel detailLevel 0) (snd st) 0.

Lemma register_task_totals (tasks : list task) :
  forall m a p,
    snd (fst (fold_left register_task tasks (m, a, p))) =
      fold_left num_add (map (fun t => resource_hours (task_timeSpentInLogs t)) tasks) a
    /\ snd (fold_left register_task tasks (m, a, p)) =
      fold_left num_add (map (fun t => resource_hours (task_timeEstimate t)) tasks) p.
Proof.
  induction tasks as [|t tasks IH]; intros m a p; simpl; [split; reflexivity|].
  apply IH.
Qed.

Lemma build_taskMap_totals (tasks : list task) :
  snd (fst (build_taskMap tasks)) = total_actual tasks
  /\ snd (build_taskMap tasks) = total_planned tasks.
Proof. apply register_task_totals. Qed.

Section FlattenFacts.
Variable userMap : omap (option Z) user.
Variable taskMap : omap jsval node.
Variable detailLevel : Z.

Let flatten := flattenHierarchy userMap taskMap detailLevel.

Lemma flatten_rows (fuel : nat) :
  forall tasks level r,
    In r (flatten fuel tasks level) ->
    rr_isProjectTotal r = false /\ level <= rr_level r <= detailLevel.
Proof.
  subst flatten.
  induction fuel as [|fuel IH]; simpl; intros tasks level r H; [contradiction|].
  apply in_flat_map in H as (k & _ & Hr).
  destruct (map_get jsval_eq_dec k taskMap) as [nd|]; [|contradiction].
  apply in_app_or in Hr as [Hr|Hr].
  - destruct (Z.leb_spec level detailLevel); [|contradiction].
    destruct Hr as [<-|[]]. simpl. split; [reflexivity | lia].
  - destruct (Z.ltb_spec level detailLevel);
      [|rewrite andb_false_r in Hr; contradiction].
    destruct (0 <? _); [|contradiction].
    apply IH in Hr. destruct Hr as [Hr1 Hr2]. split; [assumption | lia].
Qed.

(** The fuel never runs out: any amount above [detailLevel - level] gives
    the same rows. *)
Lemma flatten_fuel_irrelevant (f1 : nat) :
  forall f2 tasks level,
    (Z.to_nat (detailLevel - level) < f1)%nat ->
    (Z.to_nat (detailLevel - level) < f2)%nat ->
    flatten f1 tasks level = flatten f2 tasks level.
Proof.
  subst flatten.
  induction f1 as [|f1 IH]; intros f2 tasks level H1 H2; [lia|].
  destruct f2 as [|f2]; [lia|]. simpl.
  apply flat_map_ext. intros k.
  destruct (map_get jsval_eq_dec k taskMap) as [nd|]; [|reflexivity].
  f_equal.
  destruct (0 <? Z.of_nat (length (n_children nd))); simpl; [|reflexivity].
  destruct (Z.ltb_spec level detailLevel); [|reflexivity].
  apply IH; lia.
Qed.

(** Beyond the bound nothing is emitted. *)
Lemma flatten_beyond (fuel : nat) (tasks : list jsval) (level : Z) :
  detailLevel < level -> flatten fuel tasks level = [].
Proof.
  subst flatten. intros H. destruct fuel as [|fuel]; simpl; [reflexivity|].
  induction tasks as [|k tasks IH]; simpl; [reflexivity|].
  rewrite IH. destruct (map_get jsval_eq_dec k taskMap) as [nd|]; [|reflexivity].
  destruct (Z.leb_spec level detailLevel); [lia|].
  destruct (Z.ltb_spec level detailLevel); [lia|].
  now rewrite andb_false_r.
Qed.

(** At the bound every listed node is emitted and no child is visited. *)
Lemma flatten_at_bound (fuel : nat) (tasks : list jsval) :
  flatten (S fuel) tasks detailLevel =
  flat_map (fun k => match map_get jsval_eq_dec k taskMap with
                     | Some nd => [resource_row userMap nd detailLevel]
                     | None => []
                     end) tasks.
Proof.
  subst flatten. simpl. apply flat_map_ext. intros k.
  destruct (map_get jsval_eq_dec k taskMap) as [nd|]; [|reflexivity].
  rewrite Z.leb_refl, Z.ltb_irrefl, andb_false_r. now rewrite app_nil_r.
Qed.

(** Below the bound a listed node is emitted, followed by the rows of its
    children one level down. *)
Lemma flatten_below_bound (fuel : nat) (tasks : list jsval) (level : Z) :
  level < detailLevel ->
  flatten (S fuel) tasks level =
  flat_map (fun k => match map_get jsval_eq_dec k taskMap with
                     | Some nd => resource_row userMap nd level
                                  :: flatten fuel (n_children nd) (level + 1)
                     | None => []
                     end) tasks.
Proof.
  subst flatten. intros H. simpl. apply flat_map_ext. intros k.
  destruct (map_get jsval_eq_dec k taskMap) as [nd|]; [|reflexivity].
  destruct (Z.leb_spec level detailLevel); [|lia].
  destruct (Z.ltb_spec level detailLevel); [|lia].
  rewrite andb_true_r. simpl. f_equal.
  destruct (Z.ltb_spec 0 (Z.of_nat (length (n_children nd)))); [reflexivity|].
  destruct (n_children nd); simpl in *; [|lia].
  destruct fuel; reflexivity.
Qed.
End FlattenFacts.

Lemma resource_task_rows_not_total (tasks : list task) (users : list user) (d : Z) :
  Forall (fun r => rr_isProjectTotal r = false) (resource_task_rows tasks users d).
Proof.
  apply Forall_forall. intros r H.
  unfold resource_task_rows in H. now apply flatten_rows in H.
Qed.

Lemma total_last_in_order (rows : list resourceRow) (t : resourceRow) :
  Forall (fun r => rr_isProjectTotal r = false) rows ->
  rr_isProjectTotal t = true ->
  ForallOrdPairs (fun a b => total_last_compare a b <= 0) (rows ++ [t]).
Proof.
  intros Hrows Ht. induction Hrows as [|x l Hx _ IH]; simpl.
  - constructor; constructor.
  - constructor; [|exact IH].
    apply Forall_forall. intros y _. unfold total_last_compare.
    rewrite Hx. simpl. destruct (rr_isProjectTotal y); lia.
Qed.

(** The report is the traversal's rows followed by the total row: the final
    sort finds the total row already last and moves nothing. *)
Lemma processProjectResources_shape (tasks : list task) (users : list user)
  (p : project) (d : Z) :
  processProjectResources tasks users p d =
  resource_task_rows tasks users d
    ++ [total_row p (total_actual tasks) (total_planned tasks)].
Proof.
  pose proof (resource_task_rows_not_total tasks users d) as H.
  destruct (build_taskMap_totals tasks) as [Ha Hp].
  unfold processProjectResources, resource_task_rows in *.
  destruct (build_taskMap tasks) as [[tm a] pl]. simpl in *. subst a pl.
  destruct (build_hierarchy tm) as [tm' h]. simpl in *.
  apply js_sort_in_order. apply total_last_in_order; [exact H | reflexivity].
Qed.

Lemma filter_total_rows (rows : list resourceRow) (t : resourceRow) :
  Forall (fun r => rr_isProjectTotal r = false) rows ->
  rr_isProjectTotal t = true ->
  filter rr_isProjectTotal (rows ++ [t]) = [t].
Proof.
  intros Hrows Ht. induction Hrows as [|x l Hx _ IH]; simpl.
  - now rewrite Ht.
  - now rewrite Hx.
Qed.

(** C2. The project-total row of [processProjectResources] carries the sums
    of the derived actual and planned hours over all input tasks (the hours
    added one by one, from 0, in the order of the input), whatever the
    detail level; the report is the traversal's non-total rows followed by
    that row, so that two detail levels give the same total row and differ
    in non-total rows only. *)
Theorem project_total_row_sums_all_tasks :
  forall (tasks : list task) (users : list user) (p : project) (detailLevel : Z),
    let total :=
      total_row p
        (sum_hours (map (fun t => resource_hours (task_timeSpentInLogs t)) tasks))
        (sum_hours (map (fun t => resource_hours (task_timeEstimate t)) tasks)) in
    filter rr_isProjectTotal (processProjectResources tasks users p detailLevel) = [total]
    /\ rr_isProjectTotal total = true
    /\ rr_actualHours total
       = fold_left num_add (map (fun t => resource_hours (task_timeSpentInLogs t)) tasks)
           0%float
    /\ rr_plannedHours total
       = fold_left num_add (map (fun t => resource_hours (task_timeEstimate t)) tasks)
           0%float
    /\ (forall detailLevel' : Z,
          filter rr_isProjectTotal (processProjectResources tasks users p detailLevel')
          = filter rr_isProjectTotal (processProjectResources tasks users p detailLevel))
    /\ (forall detailLevel' : Z,
          exists rows rows' : list resourceRow,
            processProjectResources tasks users p detailLevel = rows ++ [total]
            /\ processProjectResources tasks users p detailLevel' = rows' ++ [total]
            /\ Forall (fun r => rr_isProjectTotal r = false) rows
            /\ Forall (fun r => rr_isProjectTotal r = false) rows').
Proof.
  intros tasks users p d total.
  assert (Hf : forall d', filter rr_isProjectTotal
                            (processProjectResources tasks users p d') = [total]).
  { intros d'. rewrite processProjectResources_shape.
    apply filter_total_rows; [apply resource_task_rows_not_total | reflexivity]. }
  split; [apply Hf|]. split; [reflexivity|]. split; [reflexivity|].
  split; [reflexivity|]. split.
  - intros d'. now rewrite !Hf.
  - intros d'.
    exists (resource_task_rows tasks users d), (resource_task_rows tasks users d').
    rewrite !processProjectResources_shape.
    repeat split; apply resource_task_rows_not_total.
Qed.

(** C3. No non-total row of [processProjectResources] has a level above
    [detailLevel] (nor below 0).  In the traversal, a call at a level above
    [detailLevel] emits nothing; at [detailLevel] each listed node is emitted
    and no child is visited; below it each listed node is emitted, followed
    by the rows of its children one level down; and the nesting allowance of
    the embedding is never used up. *)
Theorem emitted_levels_bounded_by_detailLevel :
  forall (tasks : list task) (users : list user) (p : project) (detailLevel : Z),
    Forall (fun r => rr_isProjectTotal r = false -> 0 <= rr_level r <= detailLevel)
      (processProjectResources tasks users p detailLevel)
    /\ (forall (userMap : omap (option Z) user) (taskMap : omap jsval node)
               (fuel : nat) (nodes : list jsval) (level : Z),
          (detailLevel < level ->
           flattenHierarchy userMap taskMap detailLevel fuel nodes level = [])
          /\ flattenHierarchy userMap taskMap detailLevel (S fuel) nodes detailLevel
             = flat_map (fun k => match map_get jsval_eq_dec k taskMap with
                                  | Some nd => [resource_row userMap nd detailLevel]
                                  | None => []
                                  end) nodes
          /\ (level < detailLevel ->
              flattenHierarchy userMap taskMap detailLevel (S fuel) nodes level
              = flat_map (fun k => match map_get jsval_eq_dec k taskMap with
                                   | Some nd =>
                                       resource_row userMap nd level
                                       :: flattenHierarchy userMap taskMap detailLevel fuel
                                            (n_children nd) (level + 1)
                                   | None => []
                                   end) nodes)
          /\ (forall extra : nat,
                flattenHierarchy userMap taskMap detailLevel
                  (flatten_fuel detailLevel level + extra) nodes level
                = flattenHierarchy userMap taskMap detailLevel
                    (flatten_fuel detailLevel level) nodes level)).
Proof.
  intros tasks users p d. split.
  - rewrite processProjectResources_shape. apply Forall_app. split.
    + apply Forall_forall. intros r H _.
      unfold resource_task_rows in H. apply flatten_rows in H. lia.
    + constructor; [|constructor]. simpl. discriminate.
  - intros userMap taskMap fuel nodes level. repeat split.
    + apply flatten_beyond.
    + apply flatten_at_bound.
    + apply flatten_below_bound.
    + intros extra. apply flatten_fuel_irrelevant; unfold flatten_fuel; lia.
Qed.

(** C10. [processProjectResources] never returns an empty list: its last
    element is its only row with [isProjectTotal], which has level 999, the
    project-total label as task title and the project's name; for an empty
    task list the report is that row alone, with zero hours. *)
Theorem project_resources_end_with_total_row :
  forall (tasks : list task) (users : list user) (p : project) (detailLevel : Z),
    let out := processProjectResources tasks users p detailLevel in
    (exists (rows : list resourceRow) (total : resourceRow),
        out = rows ++ [total]
        /\ Forall (fun r => rr_isProjectTotal r = false) rows
        /\ rr_isProjectTotal total = true
        /\ rr_level total = 999
        /\ rr_taskTitle total = project_total_label
        /\ rr_projectName total = project_NAME p)
    /\ out <> []
    /\ (exists total : resourceRow,
          processProjectResources [] users p detailLevel = [total]
          /\ rr_isProjectTotal total = true
          /\ rr_level total = 999
          /\ rr_taskTitle total = "ИТОГО ПО ПРОЕКТУ"%string
          /\ rr_projectName total = project_NAME p
          /\ rr_actualHours total = 0%float
          /\ rr_plannedHours total = 0%float).
Proof.
  intros tasks users p d out. subst out. split; [|split].
  - exists (resource_task_rows tasks users d),
      (total_row p (total_actual tasks) (total_planned tasks)).
    rewrite processProjectResources_shape.
    repeat split. apply resource_task_rows_not_total.
  - rewrite processProjectResources_shape.
    intros H. apply app_eq_nil in H as [_ H]. discriminate.
  - exists (total_row p 0%float 0%float). repeat split.
Qed.

(* ================================================================== *)
(** * Facts about numbers and maps                                      *)
(* ================================================================== *)


Section MapFacts.
Variables K V : Type.
Variable eq_dec : forall a b : K, {a = b} + {a <> b}.

Lemma map_get_set_eq (k : K) (v : V) (m : omap K V) :
  map_get eq_dec k (map_set eq_dec k v m) = Some v.
Proof.
  induction m as [|[k' v'] r IH]; simpl.
  - destruct (eq_dec k k); congruence.
  - destruct (eq_dec k k') as [E|E]; simpl.
    + destruct (eq_dec k k); congruence.
    + destruct (eq_dec k k'); congruence.
Qed.

Lemma map_get_set_neq (k k' : K) (v : V) (m : omap K V) :
  k <> k' -> map_get eq_dec k' (map_set eq_dec k v m) = map_get eq_dec k' m.
Proof.
  intros Hne. induction m as [|[k0 v0] r IH]; simpl.
  - destruct (eq_dec k' k); congruence.
  - destruct (eq_dec k k0) as [E|E]; simpl.
    + subst k0. destruct (eq_dec k' k); congruence.
    + destruct (eq_dec k' k0); congruence.
Qed.

Lemma map_get_None_keys (k : K) (m : omap K V) :
  map_get eq_dec k m = None <-> ~ In k (map_keys m).
Proof.
  induction m as [|[k' v'] r IH]; simpl; [tauto|].
  destruct (eq_dec k k') as [E|E].
  - split; [discriminate | intros H; exfalso; apply H; left; congruence].
  - rewrite IH. split; [intros H [H'|H']; [congruence | tauto] | tauto].
Qed.

Lemma map_has_keys (k : K) (m : omap K V) :
  map_has eq_dec k m = true <-> In k (map_keys m).
Proof.
  unfold map_has. pose proof (map_get_None_keys k m) as H.
  destruct (map_get eq_dec k m).
  - split; [intros _ | reflexivity].
    destruct (in_dec eq_dec k (map_keys m)) as [Hi|Hi]; [exact Hi|].
    apply H in Hi. discriminate.
  - split; [discriminate|]. intros Hi. exfalso. now apply H.
Qed.

(** Setting a new key appends the entry. *)
Lemma map_set_new (k : K) (v : V) (m : omap K V) :
  map_get eq_dec k m = None -> map_set eq_dec k v m = m ++ [(k, v)].
Proof.
  induction m as [|[k' v'] r IH]; simpl; [reflexivity|].
  destruct (eq_dec k k'); [discriminate|]. intros H. now rewrite IH.
Qed.

(** Setting an existing key keeps the keys. *)
Lemma map_keys_set_old (k : K) (v : V) (m : omap K V) :
  map_get eq_dec k m <> None -> map_keys (map_set eq_dec k v m) = map_keys m.
Proof.
  induction m as [|[k' v'] r IH]; simpl; [congruence|].
  destruct (eq_dec k k'); simpl; [congruence|].
  intros H. now rewrite IH.
Qed.

Lemma map_set_nonempty (k : K) (v : V) (m : omap K V) :
  map_set eq_dec k v m <> [].
Proof.
  destruct m as [|[k' v'] r]; simpl; [discriminate|].
  destruct (eq_dec k k'); discriminate.
Qed.

Lemma map_get_In (k : K) (v : V) (m : omap K V) :
  NoDup (map_keys m) -> In (k, v) m -> map_get eq_dec k m = Some v.
Proof.
  induction m as [|[k' v'] r IH]; simpl; [contradiction|].
  intros Hnd [H|H].
  - inversion H; subst. destruct (eq_dec k k); congruence.
  - inversion Hnd as [|? ? Hni Hnd']; subst.
    destruct (eq_dec k k') as [E|E]; [|now apply IH].
    subst k'. exfalso. apply Hni. now apply (in_map fst) in H.
Qed.

Lemma map_get_Some_In (k : K) (v : V) (m : omap K V) :
  map_get eq_dec k m = Some v -> In (k, v) m.
Proof.
  induction m as [|[k' v'] r IH]; simpl; [discriminate|].
  destruct (eq_dec k k'); [intros H; left; congruence | intros H; right; auto].
Qed.

End MapFacts.

Section UpsertFacts.
Variables K V : Type.
Variable eq_dec : forall a b : K, {a = b} + {a <> b}.

(** [if (!m.has(k)) m.set(k, d)], then [m.get(k)]. *)
Lemma upsert_get (k : K) (d : V) (m : omap K V) :
  exists v,
    map_get eq_dec k (if map_has eq_dec k m then m else map_set eq_dec k d m) = Some v
    /\ (map_get eq_dec k m = Some v \/ (map_get eq_dec k m = None /\ v = d)).
Proof.
  unfold map_has. destruct (map_get eq_dec k m) as [v|] eqn:E.
  - exists v. rewrite E. auto.
  - exists d. rewrite map_get_set_eq. auto.
Qed.

Lemma upsert_get_other (k k' : K) (d : V) (m : omap K V) :
  k <> k' ->
  map_get eq_dec k' (if map_has eq_dec k m then m else map_set eq_dec k d m)
  = map_get eq_dec k' m.
Proof.
  intros H. destruct (map_has eq_dec k m); [reflexivity|].
  now apply map_get_set_neq.
Qed.

Lemma upsert_keys (k : K) (d : V) (m : omap K V) :
  map_keys (if map_has eq_dec k m then m else map_set eq_dec k d m)
  = if map_has eq_dec k m then map_keys m else map_keys m ++ [k].
Proof.
  unfold map_has. destruct (map_get eq_dec k m) eqn:E; [reflexivity|].
  rewrite map_set_new by exact E. unfold map_keys. now rewrite map_app.
Qed.
End UpsertFacts.

(* ================================================================== *)
(** * Further facts about values and maps                               *)
(* ================================================================== *)

Definition jsval_eqb (a b : jsval) : bool :=
  if jsval_eq_dec a b then true else false.

Lemma jsval_eqb_refl (a : jsval) : jsval_eqb a a = true.
Proof. unfold jsval_eqb. now destruct (jsval_eq_dec a a). Qed.


Lemma map_set_NoDup (K V : Type) (eq_dec : forall a b : K, {a = b} + {a <> b})
  (k : K) (v : V) (m : omap K V) :
  NoDup (map_keys m) -> NoDup (map_keys (map_set eq_dec k v m)).
Proof.
  intros H. destruct (map_get eq_dec k m) eqn:E.
  - rewrite map_keys_set_old by congruence. exact H.
  - rewrite map_set_new by exact E. unfold map_keys. rewrite map_app. simpl.
    apply NoDup_app; [exact H | repeat constructor; intros [] |].
    intros x Hx [<-|[]]. now apply map_get_None_keys in E.
Qed.

Lemma map_get_key_of (K V : Type) (eq_dec : forall a b : K, {a = b} + {a <> b})
  (k : K) (m : omap K V) :
  In k (map_keys m) -> exists v, map_get eq_dec k m = Some v.
Proof.
  intros H. destruct (map_get eq_dec k m) as [v|] eqn:E; [now exists v|].
  now apply map_get_None_keys in E.
Qed.

(** [[...new Set(ids)]]: the first occurrence of each value, in order. *)
Fixpoint distinct (l : list jsval) : list jsval :=
  match l with
  | [] => []
  | x :: r => x :: filter (fun y => negb (jsval_eqb y x)) (distinct r)
  end.

Lemma distinct_In (l : list jsval) (x : jsval) : In x (distinct l) <-> In x l.
Proof.
  induction l as [|y l IH]; cbn [distinct In]; [tauto|].
  rewrite filter_In, IH. unfold jsval_eqb.
  destruct (jsval_eq_dec x y) as [E|E]; cbn [negb].
  - split; [intros [H|[H _]]; auto | intros _; left; congruence].
  - split; [intros [H|[H _]]; auto | intros [H|H]; [left; exact H | right; now split]].
Qed.

Lemma NoDup_filter' (A : Type) (f : A -> bool) (l : list A) :
  NoDup l -> NoDup (filter f l).
Proof.
  induction 1 as [|x l Hx _ IH]; cbn [filter]; [constructor|].
  destruct (f x); [|exact IH]. constructor; [|exact IH].
  intros H. apply filter_In in H. now destruct H.
Qed.

Lemma distinct_NoDup (l : list jsval) : NoDup (distinct l).
Proof.
  induction l as [|y l IH]; cbn [distinct]; constructor.
  - intros H. apply filter_In in H as [_ H]. now rewrite jsval_eqb_refl in H.
  - now apply NoDup_filter'.
Qed.

(* ================================================================== *)
(** * PlanVsFact: proofs                                                *)
(* ================================================================== *)

(** A group is never without a task entry. *)
Definition group_ok (ud : userData) : Prop := ud_tasks ud <> [].

Definition groups_ok (m : omap string userData) : Prop :=
  forall k ud, map_get string_dec k m = Some ud -> group_ok ud.

Section PlanFactFacts.
Variable userMap : omap (option Z) user.
Variable projectMap : omap (option Z) project.

Let account := account_task userMap projectMap.
Let step := group_step userMap projectMap.

Lemma account_task_other (m : omap string userData) (t : task) (k : string) :
  k <> group_key t -> map_get string_dec k (account m t) = map_get string_dec k m.
Proof.
  intros Hk. subst account. unfold account_task.
  set (d := {| ud_projectName := _ |}).
  destruct (upsert_get string_dec (group_key t) d m) as (ud0 & Hget & _).
  rewrite Hget.
  set (dt := {| td_title := _ |}).
  destruct (upsert_get jsval_eq_dec (task_id t) dt (ud_tasks ud0)) as (td0 & Hgt & _).
  rewrite Hgt.
  rewrite map_get_set_neq by congruence.
  apply upsert_get_other. congruence.
Qed.

Lemma account_task_keys (m : omap string userData) (t : task) :
  map_keys (account m t)
  = if map_has string_dec (group_key t) m then map_keys m
    else map_keys m ++ [group_key t].
Proof.
  subst account. unfold account_task.
  set (d := {| ud_projectName := _ |}).
  destruct (upsert_get string_dec (group_key t) d m) as (ud0 & Hget & _).
  rewrite Hget.
  set (dt := {| td_title := _ |}).
  destruct (upsert_get jsval_eq_dec (task_id t) dt (ud_tasks ud0)) as (td0 & Hgt & _).
  rewrite Hgt.
  rewrite map_keys_set_old by congruence.
  apply upsert_keys.
Qed.

Lemma account_task_key (m : omap string userData) (t : task) :
  groups_ok m ->
  exists ud,
    map_get string_dec (group_key t) (account m t) = Some ud
    /\ group_ok ud
    /\ map_has jsval_eq_dec (task_id t) (ud_tasks ud) = true.
Proof.
  intros Hm. subst account. unfold account_task.
  set (d := {| ud_projectName := _ |}).
  destruct (upsert_get string_dec (group_key t) d m) as (ud0 & Hget & Hud0).
  rewrite Hget.
  set (dt := {| td_title := _ |}).
  destruct (upsert_get jsval_eq_dec (task_id t) dt (ud_tasks ud0)) as (td0 & Hgt & Htd0).
  rewrite Hgt.
  eexists. split; [apply map_get_set_eq|].
  split.
  - apply map_set_nonempty.
  - cbn [ud_tasks]. unfold map_has. now rewrite map_get_set_eq.
Qed.
End PlanFactFacts.

Section PlanFactGroups.
Variable userMap : omap (option Z) user.
Variable projectMap : omap (option Z) project.

Let account := account_task userMap projectMap.
Let step := group_step userMap projectMap.
Let build := build_userTaskMap userMap projectMap.

Lemma group_step_kept (m : omap string userData) (t : task) :
  step m t = if kept t then account m t else m.
Proof.
  subst step account. unfold group_step, kept.
  now destruct (negb (truthy (task_groupId t)) || negb (truthy (task_responsibleId t))).
Qed.

Lemma build_snoc (tasks : list task) (t : task) :
  build (tasks ++ [t]) = step (build tasks) t.
Proof. subst build step. unfold build_userTaskMap. now rewrite fold_left_app. Qed.

(** Task entries of a group are never removed. *)
Lemma account_task_grows (m : omap string userData) (t : task)
  (ud0 ud : userData) :
  map_get string_dec (group_key t) m = Some ud0 ->
  map_get string_dec (group_key t) (account m t) = Some ud ->
  incl (map_keys (ud_tasks ud0)) (map_keys (ud_tasks ud)).
Proof.
  subst account. unfold account_task.
  set (d := {| ud_projectName := _ |}). intros H0.
  unfold map_has at 1. rewrite H0. rewrite H0.
  set (dt := {| td_title := _ |}).
  destruct (upsert_get jsval_eq_dec (task_id t) dt (ud_tasks ud0)) as (td0 & Hgt & _).
  rewrite Hgt. rewrite map_get_set_eq. intros H. inversion H; subst ud; clear H.
  cbn [ud_tasks]. rewrite map_keys_set_old by congruence.
  rewrite upsert_keys. destruct (map_has jsval_eq_dec (task_id t) (ud_tasks ud0)).
  - apply incl_refl.
  - apply incl_appl, incl_refl.
Qed.

(** What holds of [userTaskMap] after the grouping loop. *)
Lemma build_userTaskMap_invariant (tasks : list task) :
  groups_ok (build tasks)
  /\ NoDup (map_keys (build tasks))
  /\ (forall k, In k (map_keys (build tasks)) <->
                exists t, In t tasks /\ kept t = true /\ group_key t = k)
  /\ (forall t, In t tasks -> kept t = true ->
                exists ud, map_get string_dec (group_key t) (build tasks) = Some ud
                           /\ In (task_id t) (map_keys (ud_tasks ud))).
Proof.
  induction tasks as [|t tasks IH] using rev_ind.
  - subst build. unfold build_userTaskMap. simpl.
    split; [|split; [|split]].
    + intros k ud H. discriminate.
    + constructor.
    + intros k. split; [contradiction | intros (t & [] & _)].
    + contradiction.
  - destruct IH as (Hok & Hnd & Hkeys & Hin).
    rewrite build_snoc, group_step_kept.
    destruct (kept t) eqn:Ek.
    + destruct (account_task_key userMap projectMap t Hok) as (ud' & Hg' & Hok' & Hid').
      fold account in Hg'.
      split; [|split; [|split]]; [| | intros k; split |].
      * intros k ud H. destruct (string_dec k (group_key t)) as [->|Hne].
        -- rewrite Hg' in H. inversion H; subst. exact Hok'.
        -- subst account. rewrite account_task_other in H by exact Hne.
           exact (Hok _ _ H).
      * subst account. rewrite account_task_keys.
        destruct (map_has string_dec (group_key t) (build tasks)) eqn:Eh; [exact Hnd|].
        apply NoDup_app; [exact Hnd | repeat constructor; intros [] |].
        intros k Hk [<-|[]]. apply (map_has_keys string_dec) in Hk. congruence.
      * subst account. rewrite account_task_keys. intros Hk.
        destruct (map_has string_dec (group_key t) (build tasks)) eqn:Eh.
        -- apply Hkeys in Hk as (t0 & Ht0 & Hk0 & Hg0).
           exists t0. split; [apply in_or_app; auto | auto].
        -- apply in_app_or in Hk as [Hk|[<-|[]]].
           ++ apply Hkeys in Hk as (t0 & Ht0 & Hk0 & Hg0).
              exists t0. split; [apply in_or_app; auto | auto].
           ++ exists t. split; [apply in_or_app; right; left; reflexivity | auto].
      * subst account. rewrite account_task_keys. intros (t0 & Ht0 & Hk0 & Hg0).
        apply in_app_or in Ht0 as [Ht0|[<-|[]]].
        -- assert (Hi : In k (map_keys (build tasks))) by (apply Hkeys; eauto).
           destruct (map_has string_dec (group_key t) (build tasks));
             [exact Hi | apply in_or_app; auto].
        -- subst k.
           destruct (map_has string_dec (group_key t) (build tasks)) eqn:Eh;
             [now apply (map_has_keys string_dec) in Eh |].
           apply in_or_app; right; left; reflexivity.
      * intros t0 Ht0 Hk0. apply in_app_or in Ht0 as [Ht0|[<-|[]]].
        -- destruct (Hin _ Ht0 Hk0) as (ud0 & Hg0 & Hi0).
           destruct (string_dec (group_key t0) (group_key t)) as [E|Hne].
           ++ exists ud'. rewrite E. split; [exact Hg'|].
              rewrite E in Hg0.
              eapply account_task_grows; eauto.
           ++ exists ud0. subst account. rewrite account_task_other by exact Hne. auto.
        -- exists ud'. split; [exact Hg'|]. now apply (map_has_keys jsval_eq_dec) in Hid'.
    + split; [|split; [|split]]; [auto | auto | intros k; split |].
      * intros Hk. apply Hkeys in Hk as (t0 & Ht0 & Hk0 & Hg0).
        exists t0. split; [apply in_or_app; auto | auto].
      * intros (t0 & Ht0 & Hk0 & Hg0).
        apply in_app_or in Ht0 as [Ht0|[<-|[]]]; [|congruence].
        apply Hkeys. eauto.
      * intros t0 Ht0 Hk0. apply in_app_or in Ht0 as [Ht0|[<-|[]]]; [|congruence].
        now apply Hin.
Qed.

End PlanFactGroups.

(* ================================================================== *)
(** * The group key                                                     *)
(* ================================================================== *)


Lemma to_int_not_nil (z : Z) :
  Z.to_int z <> Decimal.Pos Decimal.Nil /\ Z.to_int z <> Decimal.Neg Decimal.Nil.
Proof.
  split; intros H; pose proof (DecimalZ.of_to z) as E; rewrite H in E;
    simpl in E; subst z; discriminate.
Qed.

Lemma Z_to_string_read (z : Z) :
  NilZero.int_of_string (Z_to_string z) = Some (Z.to_int z).
Proof. destruct (to_int_not_nil z). now apply NilZero.isi. Qed.

Lemma int_to_string_inj (a b : option Z) :
  int_to_string a = int_to_string b -> a = b.
Proof.
  destruct a as [x|], b as [y|]; simpl; intros H.
  - pose proof (Z_to_string_read x) as Hx. rewrite H, Z_to_string_read in Hx.
    inversion Hx as [Hxy]. apply DecimalZ.to_int_inj in Hxy. congruence.
  - pose proof (Z_to_string_read x) as Hx. rewrite H in Hx. discriminate.
  - pose proof (Z_to_string_read y) as Hy. rewrite <- H in Hy. discriminate.
  - reflexivity.
Qed.



Lemma Permutation_filter' (A : Type) (f : A -> bool) (l l' : list A) :
  Permutation l l' -> Permutation (filter f l) (filter f l').
Proof.
  induction 1 as [|x l l' _ IH|x y l|l l' l'' _ IH1 _ IH2]; simpl.
  - constructor.
  - destruct (f x); [now constructor | exact IH].
  - destruct (f x), (f y); try reflexivity. apply perm_swap.
  - now transitivity (filter f l').
Qed.

Lemma filter_none (A : Type) (f : A -> bool) (l : list A) :
  Forall (fun x => f x = false) l -> filter f l = [].
Proof.
  induction 1 as [|x l Hx _ IH]; simpl; [reflexivity|]. now rewrite Hx.
Qed.

Lemma detail_rows_not_summary (ud : userData) :
  Forall (fun r => isSummary r = false) (detail_rows ud).
Proof. apply Forall_forall. intros r H. apply in_map_iff in H as (td & <- & _). reflexivity. Qed.



(** The summary rows pushed are the groups' summary rows, one per group. *)
Lemma emit_rows_summaries (m : omap string userData) :
  filter isSummary (emit_rows m) = map summary_row (map_values m).
Proof.
  unfold emit_rows. induction (map_values m) as [|ud l IH]; simpl; [reflexivity|].
  unfold emit_group at 1. rewrite !filter_app, IH.
  rewrite (filter_none _ (detail_rows_not_summary ud)). reflexivity.
Qed.

Lemma planFact_rows_perm (lc : string -> string -> Z) (userMap : omap (option Z) user)
  (projectMap : omap (option Z) project) (tasks : list task) :
  Permutation (planFact_rows lc userMap projectMap tasks)
    (emit_rows (build_userTaskMap userMap projectMap tasks)).
Proof. apply js_sort_perm. Qed.

(* ================================================================== *)
(** * PlanVsFact: what a group and a detail row hold                    *)
(* ================================================================== *)






Section PlanFactEntries.
Variable userMap : omap (option Z) user.
Variable projectMap : omap (option Z) project.




End PlanFactEntries.





Section PlanFactOrderOfEntries.
Variable userMap : omap (option Z) user.
Variable projectMap : omap (option Z) project.


End PlanFactOrderOfEntries.



(** The order of UTF-8 code units, as a comparator: a stand-in for the
    host's collation in closed examples. *)
Definition code_unit_compare (a b : string) : Z :=
  match String_as_OT.cmp a b with
  | Lt => -1
  | Eq => 0
  | Gt => 1
  end.


Lemma flat_map_nonempty (A B : Type) (f : A -> list B) (l : list A) (x : A) :
  In x l -> f x <> [] -> flat_map f l <> [].
Proof.
  intros Hin Hf H. destruct (f x) as [|y r] eqn:E; [congruence|].
  assert (Hy : In y (flat_map f l)).
  { apply in_flat_map. exists x. split; [exact Hin|]. rewrite E. now left. }
  rewrite H in Hy. contradiction.
Qed.

Section EarlierFacts.
Variable localeCompare : string -> string -> Z.
Variable userMap : omap (option Z) user.



End EarlierFacts.




(* ================================================================== *)
(** * PlanVsFact: ordering                                              *)
(* ================================================================== *)

(** What is assumed of the host's collation: [localeCompare] is a
    consistent comparison, that is, a total preorder on strings.  Strings
    that differ may compare as 0, as canonically equivalent spellings do. *)
Record Collation (lc : string -> string -> Z) : Prop := {
  lc_antisym : forall a b, lc a b < 0 <-> 0 < lc b a;
  lc_trans : forall a b c, lc a b <= 0 -> lc b c <= 0 -> lc a c <= 0
}.

(** The collation tells the names of a list of rows apart: no two project
    names, and no two user names, that differ compare as 0. *)
Definition names_apart (lc : string -> string -> Z) (rows : list row) : Prop :=
  forall a b, In a rows -> In b rows ->
    (lc (projectName a) (projectName b) = 0 -> projectName a = projectName b)
    /\ (lc (userName a) (userName b) = 0 -> userName a = userName b).

(** The order of the report, in the words of the specification: project
    name ascending, then user name ascending, then summary rows after detail
    rows, then task title ascending. *)
Definition report_order (lc : string -> string -> Z) (a b : row) : Prop :=
  lc (projectName a) (projectName b) < 0
  \/ (projectName a = projectName b
      /\ (lc (userName a) (userName b) < 0
          \/ (userName a = userName b
              /\ ((isSummary a = false /\ isSummary b = true)
                  \/ (isSummary a = isSummary b
                      /\ lc (taskTitle a) (taskTitle b) <= 0))))).

Section SortedFacts.
Variable A : Type.
Variable cmp : A -> A -> Z.
Let le (a b : A) : Prop := cmp a b <= 0.

Hypothesis cmp_total : forall a b, 0 < cmp a b -> cmp b a <= 0.

Lemma sort_insert_sorted (x : A) (l : list A) :
  Sorted le l -> Sorted le (sort_insert cmp x l).
Proof.
  induction 1 as [|y r Hr IH Hhd]; simpl.
  - repeat constructor.
  - destruct (Z.ltb_spec 0 (cmp x y)) as [Hlt|Hge].
    + constructor; [exact IH|].
      destruct r as [|z r']; simpl.
      * constructor. now apply cmp_total.
      * destruct (Z.ltb_spec 0 (cmp x z)).
        -- constructor. now inversion Hhd.
        -- constructor. now apply cmp_total.
    + constructor; [now constructor | constructor; exact Hge].
Qed.

Lemma js_sort_sorted (l : list A) : Sorted le (js_sort cmp l).
Proof.
  induction l as [|x l IH]; simpl; [constructor | now apply sort_insert_sorted].
Qed.
End SortedFacts.

(** A sorted list is sorted for any relation that holds of its elements
    wherever the first one does. *)
Lemma Sorted_impl_in (A : Type) (R R' : A -> A -> Prop) (l : list A) :
  (forall a b, In a l -> In b l -> R a b -> R' a b) -> Sorted R l -> Sorted R' l.
Proof.
  intros H Hs. induction Hs as [|x l Hs IH Hhd]; constructor.
  - apply IH. intros a b Ha Hb. apply H; now right.
  - destruct Hhd as [|y l' Hxy]; constructor.
    apply H; [now left | right; now left | exact Hxy].
Qed.

Section PlanFactOrder.
Variable lc : string -> string -> Z.
Hypothesis collation : Collation lc.

Lemma lc_refl (a : string) : lc a a = 0.
Proof. pose proof (lc_antisym collation a a). lia. Qed.

Lemma lc_lt_trans (a b c : string) : lc a b < 0 -> lc b c < 0 -> lc a c < 0.
Proof.
  intros H1 H2.
  assert (H3 : lc a c <= 0) by (apply (lc_trans collation) with b; lia).
  destruct (Z.eq_dec (lc a c) 0) as [E|E]; [exfalso | lia].
  assert (H4 : lc c a <= 0) by (pose proof (lc_antisym collation a c); lia).
  assert (H5 : lc c b <= 0) by (apply (lc_trans collation) with a; lia).
  pose proof (lc_antisym collation b c). lia.
Qed.

(** On rows whose names the collation tells apart, the comparator of the
    sort decides the order of the report. *)
Lemma compare_report_order (a b : row) :
  (lc (projectName a) (projectName b) = 0 -> projectName a = projectName b) ->
  (lc (userName a) (userName b) = 0 -> userName a = userName b) ->
  planFact_compare lc a b <= 0 <-> report_order lc a b.
Proof.
  intros Hp Hu.
  unfold planFact_compare, report_order.
  destruct (String.eqb_spec (projectName a) (projectName b)) as [Ep|Ep]; simpl.
  - rewrite Ep, lc_refl.
    destruct (String.eqb_spec (userName a) (userName b)) as [Eu|Eu]; simpl.
    + rewrite Eu, lc_refl.
      destruct (isSummary a), (isSummary b); simpl; split; intros H;
        try lia; try (right; split; [reflexivity|]; right; split; [reflexivity|]);
        try (left; split; reflexivity); try (right; split; [reflexivity | exact H]);
        try (destruct H as [H|[_ [H|[_ [[H1 H2]|[H1 H2]]]]]]; try lia; congruence).
    + assert (Hne : lc (userName a) (userName b) <> 0)
        by (intros H; now apply Hu in H).
      split; intros H.
      * right. split; [reflexivity|]. left. lia.
      * destruct H as [H|[_ [H|[H _]]]]; try lia. congruence.
  - assert (Hne : lc (projectName a) (projectName b) <> 0)
      by (intros H; now apply Hp in H).
    split; intros H.
    + left. lia.
    + destruct H as [H|[H _]]; [lia | congruence].
Qed.

Lemma compare_total (a b : row) :
  0 < planFact_compare lc a b -> planFact_compare lc b a <= 0.
Proof.
  unfold planFact_compare.
  rewrite (String.eqb_sym (projectName b)), (String.eqb_sym (userName b)).
  destruct (String.eqb (projectName a) (projectName b)); simpl.
  - destruct (String.eqb (userName a) (userName b)); simpl.
    + destruct (isSummary a), (isSummary b); simpl; try lia;
        intros H; apply (lc_antisym collation) in H; lia.
    + intros H; apply (lc_antisym collation) in H; lia.
  - intros H; apply (lc_antisym collation) in H; lia.
Qed.

Lemma lc_le_trans (a b c : string) : lc a b <= 0 -> lc b c <= 0 -> lc a c <= 0.
Proof. apply (lc_trans collation). Qed.

Lemma lc_irrefl (a : string) : ~ lc a a < 0.
Proof. rewrite lc_refl. lia. Qed.

Lemma lc_asym (a b : string) : lc a b < 0 -> lc b a < 0 -> False.
Proof. intros H1 H2. apply (lc_antisym collation) in H1. lia. Qed.

Lemma report_order_trans (a b c : row) :
  report_order lc a b -> report_order lc b c -> report_order lc a c.
Proof.
  unfold report_order.
  intros [H1|[Ep1 H1]] [H2|[Ep2 H2]].
  - left. eapply lc_lt_trans; eauto.
  - left. now rewrite <- Ep2.
  - left. now rewrite Ep1.
  - right. split; [congruence|].
    destruct H1 as [H1|[Eu1 H1]], H2 as [H2|[Eu2 H2]].
    + left. eapply lc_lt_trans; eauto.
    + left. now rewrite <- Eu2.
    + left. now rewrite Eu1.
    + right. split; [congruence|].
      destruct H1 as [[A1 B1]|[E1 T1]], H2 as [[A2 B2]|[E2 T2]].
      * congruence.
      * left. split; congruence.
      * left. split; congruence.
      * right. split; [congruence|]. eapply lc_le_trans; eauto.
Qed.

(** Rows between two rows of one section belong to that section. *)
Lemma report_order_between (a b c : row) :
  report_order lc a b -> report_order lc b c ->
  projectName a = projectName c -> userName a = userName c ->
  projectName b = projectName c /\ userName b = userName c.
Proof.
  unfold report_order.
  intros [H1|[Ep1 H1]] [H2|[Ep2 H2]] Ep Eu.
  - exfalso. rewrite Ep in H1. eapply lc_asym; eauto.
  - exfalso. rewrite Ep, <- Ep2 in H1. eapply lc_irrefl; eauto.
  - exfalso. rewrite <- Ep1, Ep in H2. eapply lc_irrefl; eauto.
  - split; [exact Ep2|].
    destruct H1 as [H1|[Eu1 H1]], H2 as [H2|[Eu2 H2]].
    + exfalso. rewrite Eu in H1. eapply lc_asym; eauto.
    + exfalso. rewrite Eu, <- Eu2 in H1. eapply lc_irrefl; eauto.
    + exfalso. rewrite <- Eu1, Eu in H2. eapply lc_irrefl; eauto.
    + exact Eu2.
Qed.

(** A summary row is not followed by a detail row of its section. *)
Lemma report_order_summary_first (a b : row) :
  report_order lc a b ->
  projectName a = projectName b -> userName a = userName b ->
  isSummary a = true -> isSummary b = true.
Proof.
  unfold report_order. intros [H|[_ [H|[_ [[H _]|[H _]]]]]] Ep Eu Hs.
  - exfalso. rewrite Ep in H. eapply lc_irrefl; eauto.
  - exfalso. rewrite Eu in H. eapply lc_irrefl; eauto.
  - congruence.
  - congruence.
Qed.

Lemma planFact_rows_sorted (userMap : omap (option Z) user)
  (projectMap : omap (option Z) project) (tasks : list task) :
  names_apart lc (planFact_rows lc userMap projectMap tasks) ->
  StronglySorted (report_order lc) (planFact_rows lc userMap projectMap tasks).
Proof.
  intros Hap. apply Sorted_StronglySorted.
  - intros a b c. apply report_order_trans.
  - apply Sorted_impl_in with (R := fun a b => planFact_compare lc a b <= 0).
    + intros a b Ha Hb. destruct (Hap a b Ha Hb). now apply compare_report_order.
    + apply js_sort_sorted. apply compare_total.
Qed.
End PlanFactOrder.

Lemma StronglySorted_split (A : Type) (R : A -> A -> Prop) (l1 : list A) :
  forall x l2,
    StronglySorted R (l1 ++ x :: l2) ->
    Forall (fun y => R y x) l1 /\ Forall (R x) l2.
Proof.
  induction l1 as [|a l1 IH]; intros x l2 H; simpl in H.
  - inversion H; subst. split; [constructor | assumption].
  - inversion H as [|? ? Hs Hf]; subst.
    destruct (IH _ _ Hs) as [H1 H2]. split; [|exact H2].
    constructor; [|exact H1].
    rewrite Forall_forall in Hf. apply Hf. apply in_or_app. right. now left.
Qed.

(** Membership of the section of the report headed by a project name and a
    user name. *)
Definition in_section (P U : string) (r : row) : bool :=
  (projectName r =? P)%string && (userName r =? U)%string.

Lemma in_section_iff (P U : string) (r : row) :
  in_section P U r = true <-> projectName r = P /\ userName r = U.
Proof.
  unfold in_section. rewrite andb_true_iff, !String.eqb_eq. reflexivity.
Qed.

Lemma emit_group_names (ud : userData) (r : row) :
  In r (emit_group ud) ->
  projectName r = ud_projectName ud /\ userName r = ud_userName ud.
Proof.
  unfold emit_group, detail_rows. intros H. apply in_app_or in H as [H|[<-|[]]].
  - apply in_map_iff in H as (td & <- & _). split; reflexivity.
  - split; reflexivity.
Qed.

Section SectionOfGroup.
Variable m : omap string userData.
Variable k : string.
Variable ud : userData.
Hypothesis keys_nodup : NoDup (map_keys m).
Hypothesis group_in : In (k, ud) m.
(** No other group shows under the same project name and user name. *)
Hypothesis names_unique :
  forall k' ud', In (k', ud') m ->
                 ud_projectName ud' = ud_projectName ud ->
                 ud_userName ud' = ud_userName ud -> k' = k.

Let P := ud_projectName ud.
Let U := ud_userName ud.

Lemma section_rows_of_group (r : row) :
  In r (emit_rows m) -> in_section P U r = true -> In r (emit_group ud).
Proof.
  intros Hr Hs. apply in_section_iff in Hs as [Hp Hu]. unfold P, U in *.
  apply in_flat_map in Hr as (ud' & Hud' & Hr).
  apply in_map_iff in Hud' as ([k' ud''] & E & Hin). simpl in E. subst ud''.
  apply emit_group_names in Hr as Hn. destruct Hn as [Hp' Hu'].
  assert (k' = k) by (apply (names_unique _ _ Hin); congruence). subst k'.
  apply (map_get_In string_dec) in Hin; [|exact keys_nodup].
  apply (map_get_In string_dec) in group_in; [|exact keys_nodup].
  assert (ud' = ud) by congruence. now subst.
Qed.

Lemma section_summaries :
  filter (fun r => isSummary r && in_section P U r) (emit_rows m) = [summary_row ud].
Proof.
  destruct (in_split _ _ group_in) as (m1 & m2 & Em).
  assert (Hother : forall k' ud' r, In (k', ud') m -> k' <> k -> In r (emit_group ud') ->
                                    isSummary r && in_section P U r = false).
  { intros k' ud' r Hin Hne Hr.
    destruct (in_section P U r) eqn:Es; [|apply andb_false_r].
    exfalso. apply Hne. apply in_section_iff in Es as [Hp Hu]. unfold P, U in *.
    apply emit_group_names in Hr as [Hp' Hu'].
    apply (names_unique _ _ Hin); congruence. }
  assert (Hnd : NoDup (map_keys m1 ++ k :: map_keys m2)).
  { unfold map_keys in *. rewrite Em, map_app in keys_nodup. exact keys_nodup. }
  assert (Hpart : forall m', (forall e, In e m' -> In e m /\ fst e <> k) ->
                      filter (fun r => isSummary r && in_section P U r) (emit_rows m') = []).
  { intros m' Hm'. apply filter_none, Forall_forall. intros r Hr.
    apply in_flat_map in Hr as (ud' & Hud' & Hr).
    apply in_map_iff in Hud' as ([k' ud''] & E & Hin). simpl in E. subst ud''.
    destruct (Hm' _ Hin) as [Hin' Hne]. eapply Hother; eauto. }
  subst m. unfold emit_rows, map_values.
  rewrite map_app, flat_map_app. simpl. rewrite !filter_app.
  fold (map_values m1) (map_values m2) (emit_rows m1) (emit_rows m2).
  rewrite (Hpart m1), (Hpart m2).
  - unfold emit_group. rewrite filter_app.
    rewrite (filter_none (fun r => isSummary r && in_section P U r) (l := detail_rows ud)).
    + simpl. unfold in_section, P, U. simpl. now rewrite !String.eqb_refl.
    + eapply Forall_impl; [|apply detail_rows_not_summary].
      intros r Hr. simpl in Hr. now rewrite Hr.
  - intros [k' ud'] Hin. split; [apply in_or_app; right; now right|].
    simpl. intros ->. apply NoDup_remove_2 in Hnd. apply Hnd.
    apply in_or_app. right. now apply (in_map fst) in Hin.
  - intros [k' ud'] Hin. split; [apply in_or_app; now left|].
    simpl. intros ->. apply NoDup_remove_2 in Hnd. apply Hnd.
    apply in_or_app. left. now apply (in_map fst) in Hin.
Qed.
End SectionOfGroup.

Section PlanFactAdjacency.
Variable lc : string -> string -> Z.
Hypothesis collation : Collation lc.
Variable out : list row.
Variable m : omap string userData.
Hypothesis out_perm : Permutation out (emit_rows m).
Hypothesis out_sorted : StronglySorted (report_order lc) out.
Hypothesis keys_nodup : NoDup (map_keys m).

Lemma summary_after_details (l1 l2 : list row) (a b : row) :
  out = l1 ++ a :: l2 -> isSummary a = true -> In b l2 ->
  projectName b = projectName a -> userName b = userName a ->
  isSummary b = true.
Proof.
  intros E Ha Hb Hp Hu. rewrite E in out_sorted.
  apply StronglySorted_split in out_sorted as [_ H2].
  rewrite Forall_forall in H2.
  eapply (report_order_summary_first collation); eauto.
Qed.

Lemma summary_follows_last_detail (k : string) (ud : userData) :
  In (k, ud) m ->
  detail_rows ud <> [] ->
  (forall k' ud', In (k', ud') m ->
                  ud_projectName ud' = ud_projectName ud ->
                  ud_userName ud' = ud_userName ud -> k' = k) ->
  exists l1 d l2,
    out = l1 ++ d :: summary_row ud :: l2
    /\ In d (detail_rows ud)
    /\ (forall r, In r l2 -> ~ In r (detail_rows ud)).
Proof.
  intros Hin Hne Huniq.
  set (s := summary_row ud).
  set (f := fun r => isSummary r && in_section (ud_projectName ud) (ud_userName ud) r).
  assert (Hgroup : forall r, In r (emit_group ud) -> In r out).
  { intros r Hr. apply (Permutation_in _ (Permutation_sym out_perm)).
    apply in_flat_map. exists ud. split; [|exact Hr].
    apply in_map_iff. now exists (k, ud). }
  assert (Hs : In s out) by (apply Hgroup, in_or_app; right; now left).
  destruct (in_split _ _ Hs) as (a & l2 & E).
  pose proof out_sorted as Hsorted. rewrite E in Hsorted.
  apply StronglySorted_split in Hsorted as Hsplit. destruct Hsplit as [Hbefore Hafter].
  rewrite Forall_forall in Hbefore, Hafter.
  assert (Hdetail : forall r, In r (detail_rows ud) ->
                      projectName r = projectName s /\ userName r = userName s
                      /\ isSummary r = false).
  { intros r Hr. apply in_map_iff in Hr as (td & <- & _). repeat split. }
  assert (Hnot_after : forall r, In r l2 -> ~ In r (detail_rows ud)).
  { intros r Hr Hd. destruct (Hdetail _ Hd) as (Hp & Hu & Hf).
    assert (isSummary r = true); [|congruence].
    eapply (report_order_summary_first collation (a := s)); eauto. }
  assert (Hex : exists d0, In d0 (detail_rows ud)).
  { destruct (detail_rows ud) as [|d0 ds]; [congruence | exists d0; now left]. }
  destruct Hex as (d0 & Hd0).
  assert (Hd0a : In d0 a).
  { assert (Hd0o : In d0 out) by (apply Hgroup, in_or_app; now left).
    rewrite E in Hd0o. apply in_app_or in Hd0o as [H|[H|H]]; [exact H | |].
    - exfalso. destruct (Hdetail _ Hd0) as (_ & _ & Hf). rewrite <- H in Hf. discriminate.
    - exfalso. now apply (Hnot_after _ H). }
  destruct (exists_last (l := a)) as (l1 & d & Ea);
    [intros ->; contradiction|]. subst a.
  assert (Hds : report_order lc d s) by (apply Hbefore, in_or_app; right; now left).
  assert (Hnames : projectName d = projectName s /\ userName d = userName s).
  { apply in_app_or in Hd0a as [H|[H|[]]].
    - assert (Hd0d : report_order lc d0 d).
      { rewrite <- app_assoc in Hsorted. simpl in Hsorted.
        destruct (in_split _ _ H) as (x & y & El1). rewrite El1 in Hsorted.
        rewrite <- app_assoc in Hsorted. simpl in Hsorted.
        apply StronglySorted_split in Hsorted as [_ Hx].
        rewrite Forall_forall in Hx. apply Hx. apply in_or_app. right. now left. }
      destruct (Hdetail _ Hd0) as (Hp & Hu & _).
      eapply (report_order_between collation); eauto.
    - subst d0. destruct (Hdetail _ Hd0) as (Hp & Hu & _). now split. }
  assert (Hfs : f s = true).
  { unfold f, in_section, s. simpl. now rewrite !String.eqb_refl. }
  assert (Hfd : isSummary d = false).
  { destruct (isSummary d) eqn:Esd; [exfalso | reflexivity].
    assert (Hf : f d = true).
    { unfold f. rewrite Esd. simpl. apply in_section_iff. destruct Hnames. now split. }
    pose proof (Permutation_length (Permutation_filter' f out_perm)) as Hlen.
    unfold f in Hlen at 2. rewrite (@section_summaries m k ud keys_nodup Hin Huniq) in Hlen.
    rewrite E, <- app_assoc in Hlen. simpl in Hlen.
    rewrite filter_app in Hlen. simpl in Hlen. rewrite Hf, Hfs in Hlen.
    rewrite length_app in Hlen. simpl in Hlen. lia. }
  exists l1, d, l2. split; [|split].
  - rewrite E, <- app_assoc. reflexivity.
  - assert (Hdg : In d (emit_group ud)).
    { apply (@section_rows_of_group m k ud keys_nodup Hin Huniq).
      - apply (Permutation_in _ out_perm). rewrite E.
        apply in_or_app. left. apply in_or_app. right. now left.
      - apply in_section_iff. destruct Hnames. now split. }
    unfold emit_group in Hdg.
    apply in_app_or in Hdg as [H|[H|[]]]; [exact H|].
    rewrite <- H in Hfd. discriminate.
  - exact Hnot_after.
Qed.
End PlanFactAdjacency.

(** C6, as the code has it.  Let the collation of the host be a consistent
    comparison that tells the project names and the user names of the
    report apart.  Then the rows of [processPlanFactData] are in the order
    of the report: project name ascending, then user name ascending, then
    summary rows after detail rows, then task title ascending.  So no detail
    row follows a summary row of its own project name and user name; and
    the summary row of a group comes immediately after a detail row of that
    group, with none of the group's detail rows behind it, whenever no
    other group shows under the same project name and user name. *)
Theorem planFact_rows_in_report_order :
  forall (localeCompare : string -> string -> Z),
    Collation localeCompare ->
    forall (tasks : list task) (users : list user)
           (projectMap : omap (option Z) project),
      let groups := build_userTaskMap (build_userMap users) projectMap tasks in
      let out := processPlanFactData localeCompare tasks users projectMap in
      names_apart localeCompare out ->
      StronglySorted (report_order localeCompare) out
      /\ (forall l1 a l2 b,
            out = l1 ++ a :: l2 -> isSummary a = true -> In b l2 ->
            projectName b = projectName a -> userName b = userName a ->
            isSummary b = true)
      /\ (forall k ud,
            In (k, ud) groups ->
            (forall k' ud', In (k', ud') groups ->
                            ud_projectName ud' = ud_projectName ud ->
                            ud_userName ud' = ud_userName ud -> k' = k) ->
            exists l1 d l2,
              out = l1 ++ d :: summary_row ud :: l2
              /\ In d (detail_rows ud)
              /\ (forall r, In r l2 -> ~ In r (detail_rows ud))).
Proof.
  intros lc Hlc tasks users pm groups out Hap.
  assert (Hsorted : StronglySorted (report_order lc) out)
    by (apply planFact_rows_sorted; [exact Hlc | exact Hap]).
  assert (Hperm : Permutation out (emit_rows groups)) by apply planFact_rows_perm.
  destruct (build_userTaskMap_invariant (build_userMap users) pm tasks)
    as (Hok & Hnd & _ & _).
  fold groups in Hok, Hnd.
  split; [exact Hsorted|]. split.
  - intros l1 a l2 b. eapply summary_after_details; eauto.
  - intros k ud Hin Huniq.
    eapply summary_follows_last_detail; eauto.
    apply (map_get_In string_dec) in Hin as Hget; [|exact Hnd].
    pose proof (Hok _ _ Hget) as Hne. unfold group_ok in Hne.
    unfold detail_rows, map_values. destruct (ud_tasks ud); [congruence | discriminate].
Qed.

Lemma code_unit_compare_eq (a b : string) : code_unit_compare a b = 0 <-> a = b.
Proof.
  unfold code_unit_compare. pose proof (String_as_OT.cmp_eq a b) as H.
  destruct (String_as_OT.cmp a b); split; intros H'.
  - now apply H.
  - reflexivity.
  - discriminate.
  - apply H in H'. discriminate.
  - discriminate.
  - apply H in H'. discriminate.
Qed.

Lemma code_unit_compare_lt (a b c : string) :
  code_unit_compare a b < 0 -> code_unit_compare b c < 0 -> code_unit_compare a c < 0.
Proof.
  unfold code_unit_compare. intros Hab Hbc.
  assert (Lab : String_as_OT.cmp a b = Lt)
    by (destruct (String_as_OT.cmp a b); lia || reflexivity).
  assert (Lbc : String_as_OT.cmp b c = Lt)
    by (destruct (String_as_OT.cmp b c); lia || reflexivity).
  apply String_as_OT.cmp_lt in Lab, Lbc.
  pose proof (String_as_OT.lt_trans _ _ _ Lab Lbc) as H.
  apply String_as_OT.cmp_lt in H. rewrite H. lia.
Qed.

Lemma code_unit_collation : Collation code_unit_compare.
Proof.
  constructor.
  - intros a b. unfold code_unit_compare. rewrite (String_as_OT.cmp_antisym a b).
    destruct (String_as_OT.cmp b a); simpl; split; intros H; try lia; discriminate.
  - intros a b c Hab Hbc.
    destruct (Z.eq_dec (code_unit_compare a b) 0) as [E|E];
      [apply code_unit_compare_eq in E; now subst|].
    destruct (Z.eq_dec (code_unit_compare b c) 0) as [E'|E'];
      [apply code_unit_compare_eq in E'; now subst|].
    assert (code_unit_compare a c < 0) by (apply code_unit_compare_lt with b; lia). lia.
Qed.

(** The order of code units tells any two strings apart. *)
Lemma code_unit_names_apart (rows : list row) : names_apart code_unit_compare rows.
Proof. intros a b _ _. split; apply code_unit_compare_eq. Qed.

Definition mk_task (id : string) (title : string) (groupId responsibleId : jsval)
  (timeEstimate timeSpentInLogs : jsval) : task :=
  {| task_id := JStr id; task_title := Some title; task_groupId := groupId;
     task_group_name := None; task_parentId := JNull;
     task_responsibleId := responsibleId;
     task_timeEstimate := timeEstimate; task_timeSpentInLogs := timeSpentInLogs |}.

(** The example of the specification. *)
Definition example_tasks : list task :=
  [ {| task_id := JInt 1; task_title := Some "A"; task_groupId := JInt 10;
       task_group_name := None; task_parentId := JNull;
       task_responsibleId := JInt 5; task_timeEstimate := JInt 3600;
       task_timeSpentInLogs := JInt 7200 |} ].
Definition example_users : list user :=
  [ {| user_ID := JInt 5; user_NAME := Some "Ann"; user_LAST_NAME := Some "K" |} ].
Definition example_projects : omap (option Z) project :=
  [ (Some 10, {| project_ID := JInt 10; project_NAME := "Proj" |}) ].

Example planFact_example :
  processPlanFactData code_unit_compare example_tasks example_users example_projects
  = [ {| projectName := "Proj"; userName := "Ann K"; taskTitle := "A";
         actualHours := 2%float; plannedHours := 1%float; isSummary := false |};
      {| projectName := "Proj"; userName := "Ann K"; taskTitle := summary_label;
         actualHours := 2%float; plannedHours := 1%float; isSummary := true |} ].
Proof. vm_compute. reflexivity. Qed.



(** Two users missing from the user list, on one project. *)
Definition two_unassigned_tasks : list task :=
  [ mk_task "1" "A" (JStr "10") (JStr "5") (JStr "3600") (JStr "3600");
    mk_task "2" "B" (JStr "10") (JStr "6") (JStr "1800") (JStr "1800") ].

(** The letter e with an acute accent in its two canonically equivalent
    spellings (UTF-8): the composed letter, U+00E9, and the letter e
    followed by the combining accent, U+0301. *)
Definition e_acute : string := String "195" (String "169" "").
Definition e_with_accent : string := String "e" (String "204" (String "129" "")).

(** The second spelling replaced by the first. *)
Fixpoint compose_acute (s : string) : string :=
  match s with
  | EmptyString => EmptyString
  | String "e" (String "204" (String "129" r)) =>
      String "195" (String "169" (compose_acute r))
  | String c r => String c (compose_acute r)
  end.

(** A collation that, as the host's does, takes canonically equivalent
    spellings for the same: code units are compared once the accents are
    composed. *)
Definition canonical_compare (a b : string) : Z :=
  code_unit_compare (compose_acute a) (compose_acute b).

Lemma canonical_collation : Collation canonical_compare.
Proof.
  constructor; unfold canonical_compare; intros.
  - apply (lc_antisym code_unit_collation).
  - eapply (lc_trans code_unit_collation); eauto.
Qed.

(** [names_apart], computed. *)
Definition names_apartb (lc : string -> string -> Z) (rows : list row) : bool :=
  forallb (fun a =>
    forallb (fun b =>
      implb (lc (projectName a) (projectName b) =? 0)
            (projectName a =? projectName b)%string
      && implb (lc (userName a) (userName b) =? 0)
               (userName a =? userName b)%string) rows) rows.

Lemma names_apartb_ok (lc : string -> string -> Z) (rows : list row) :
  names_apartb lc rows = true -> names_apart lc rows.
Proof.
  unfold names_apartb, names_apart. intros H a b Ha Hb.
  rewrite forallb_forall in H. specialize (H a Ha).
  rewrite forallb_forall in H. specialize (H b Hb).
  apply andb_true_iff in H as [Hp Hu].
  split; intros E; [rewrite E in Hp | rewrite E in Hu];
    cbn [Z.eqb implb] in *; now apply String.eqb_eq.
Qed.

(** Five tasks of two users on two projects, with accents in the names.
    The collation takes the two spellings of an accented letter for the
    same, and still tells the names of this report apart. *)
Definition report_tasks : list task :=
  [ mk_task "1" "Design" (JStr "20") (JStr "6") (JStr "7200") (JStr "3600");
    mk_task "2" "Build" (JStr "10") (JStr "6") (JStr "3600") (JStr "1800");
    mk_task "3" "Audit" (JStr "10") (JStr "5") (JStr "1800") (JStr "1800");
    mk_task "4" "Build" (JStr "10") (JStr "5") (JStr "3600") (JStr "7200");
    mk_task "5" "Audit" (JStr "20") (JStr "5") (JStr "3600") (JStr "3600") ].
Definition report_users : list user :=
  [ {| user_ID := JStr "5"; user_NAME := Some "Ann"; user_LAST_NAME := Some "K" |};
    {| user_ID := JStr "6"; user_NAME := Some ("Zo" ++ e_with_accent)%string;
       user_LAST_NAME := Some "L" |} ].
Definition report_projects : omap (option Z) project :=
  [ (Some 10, {| project_ID := JStr "10"; project_NAME := "Alpha" |});
    (Some 20, {| project_ID := JStr "20"; project_NAME := ("Caf" ++ e_acute)%string |}) ].

Lemma planFact_rows_in_report_order_witness :
  let out :=
    processPlanFactData canonical_compare report_tasks report_users report_projects in
  canonical_compare ("Caf" ++ e_acute)%string ("Caf" ++ e_with_accent)%string = 0
  /\ names_apart canonical_compare out
  /\ map (fun r => (projectName r, userName r, taskTitle r, isSummary r)) out
     = [ ("Alpha", "Ann K", "Audit", false);
         ("Alpha", "Ann K", "Build", false);
         ("Alpha", "Ann K", summary_label, true);
         ("Alpha", "Zo" ++ e_with_accent ++ " L", "Build", false);
         ("Alpha", "Zo" ++ e_with_accent ++ " L", summary_label, true);
         ("Caf" ++ e_acute, "Ann K", "Audit", false);
         ("Caf" ++ e_acute, "Ann K", summary_label, true);
         ("Caf" ++ e_acute, "Zo" ++ e_with_accent ++ " L", "Design", false);
         ("Caf" ++ e_acute, "Zo" ++ e_with_accent ++ " L", summary_label, true) ]%string
  /\ StronglySorted (report_order canonical_compare) out.
Proof.
  assert (Hap : names_apart canonical_compare
                  (processPlanFactData canonical_compare report_tasks report_users
                     report_projects))
    by (apply names_apartb_ok; vm_compute; reflexivity).
  split; [vm_compute; reflexivity|]. split; [exact Hap|].
  split; [vm_compute; reflexivity|].
  exact (proj1 (planFact_rows_in_report_order canonical_collation
                  report_tasks report_users report_projects Hap)).
Defined.

(** Two projects whose names are the two spellings of one word, each with
    a task of its own user. *)
Definition spelled_projects : omap (option Z) project :=
  [ (Some 1, {| project_ID := JStr "1"; project_NAME := "Caf" ++ e_acute |});
    (Some 2, {| project_ID := JStr "2"; project_NAME := "Caf" ++ e_with_accent |}) ].
Definition spelled_users : list user :=
  [ {| user_ID := JStr "5"; user_NAME := Some "Zed"; user_LAST_NAME := None |};
    {| user_ID := JStr "6"; user_NAME := Some "Amy"; user_LAST_NAME := None |} ].
Definition spelled_tasks : list task :=
  [ mk_task "1" "A" (JStr "1") (JStr "5") (JStr "3600") (JStr "3600");
    mk_task "2" "B" (JStr "2") (JStr "6") (JStr "3600") (JStr "3600") ].

(** Two users of one project whose names are the two spellings of one
    name. *)
Definition spelled_name_users : list user :=
  [ {| user_ID := JStr "5"; user_NAME := Some ("Zo" ++ e_acute)%string;
       user_LAST_NAME := None |};
    {| user_ID := JStr "6"; user_NAME := Some ("Zo" ++ e_with_accent)%string;
       user_LAST_NAME := None |} ].
Definition one_project_tasks : list task :=
  [ mk_task "1" "A" (JStr "1") (JStr "5") (JStr "3600") (JStr "3600");
    mk_task "2" "B" (JStr "1") (JStr "6") (JStr "3600") (JStr "3600") ].

(** C6 does not hold as specified.  Two groups that show under one project
    name and one user name have their detail rows sorted together, both
    summary rows behind them: the second summary row follows the first, not
    a detail row of its group.  And where the collation takes two project
    names that differ for the same, the comparator returns 0 without
    looking at the user names: the rows of user Zed stay before those of
    user Amy, and the rows are not in the order of the report.  Likewise
    for two user names of one project: the summary row of the one stays
    before the detail row of the other. *)
Lemma summary_row_not_behind_its_group :
  (let groups := build_userTaskMap (build_userMap []) [] two_unassigned_tasks in
   let out := processPlanFactData code_unit_compare two_unassigned_tasks [] [] in
   map_keys groups = ["10-5"; "10-6"]%string
   /\ map (fun r => (userName r, taskTitle r, plannedHours r, isSummary r)) out
      = [ ("Не назначен", "A", 1%float, false);
          ("Не назначен", "B", 0.5%float, false);
          ("Не назначен", summary_label, 1%float, true);
          ("Не назначен", summary_label, 0.5%float, true) ]%string
   /\ ~ (forall k ud, In (k, ud) groups ->
           exists l1 d l2,
             out = l1 ++ d :: summary_row ud :: l2 /\ In d (detail_rows ud)))
  /\ (let out :=
        processPlanFactData canonical_compare spelled_tasks spelled_users
          spelled_projects in
      canonical_compare ("Caf" ++ e_acute) ("Caf" ++ e_with_accent) = 0
      /\ ("Caf" ++ e_acute <> "Caf" ++ e_with_accent)%string
      /\ 0 < canonical_compare "Zed" "Amy"
      /\ map (fun r => (projectName r, userName r, isSummary r)) out
         = [ ("Caf" ++ e_acute, "Zed", false); ("Caf" ++ e_acute, "Zed", true);
             ("Caf" ++ e_with_accent, "Amy", false);
             ("Caf" ++ e_with_accent, "Amy", true) ]%string
      /\ ~ StronglySorted (report_order canonical_compare) out)
  /\ (let out :=
        processPlanFactData canonical_compare one_project_tasks spelled_name_users
          spelled_projects in
      canonical_compare ("Zo" ++ e_acute)%string ("Zo" ++ e_with_accent)%string = 0
      /\ ("Zo" ++ e_acute <> "Zo" ++ e_with_accent)%string
      /\ map (fun r => (projectName r, userName r, taskTitle r, isSummary r)) out
         = [ ("Caf" ++ e_acute, "Zo" ++ e_acute, "A", false);
             ("Caf" ++ e_acute, "Zo" ++ e_acute, summary_label, true);
             ("Caf" ++ e_acute, "Zo" ++ e_with_accent, "B", false);
             ("Caf" ++ e_acute, "Zo" ++ e_with_accent, summary_label, true) ]%string
      /\ ~ StronglySorted (report_order canonical_compare) out).
Proof.
  split; [|split].
  - split; [vm_compute; reflexivity|]. split; [vm_compute; reflexivity|].
    intros H.
    set (ud := {| ud_projectName := "Проект 10"; ud_userName := "Не назначен";
                  ud_tasks := [(JStr "2", {| td_title := "B"; td_actualHours := 0.5%float;
                                             td_plannedHours := 0.5%float |})];
                  ud_totalActual := 0.5%float; ud_totalPlanned := 0.5%float |}%string).
    destruct (H "10-6"%string ud) as (l1 & d & l2 & E & Hd).
    { vm_compute. right. left. reflexivity. }
    vm_compute in Hd. destruct Hd as [<-|[]].
    vm_compute in E.
    destruct l1 as [|r1 [|r2 [|r3 [|r4 l1]]]]; simpl in E; inversion E.
    destruct l1; discriminate.
  - split; [vm_compute; reflexivity|]. split; [vm_compute; discriminate|].
    split; [vm_compute; reflexivity|]. split; [vm_compute; reflexivity|].
    remember (processPlanFactData canonical_compare spelled_tasks spelled_users
                spelled_projects) as out eqn:E.
    assert (E1 : map projectName out = ["Caf" ++ e_acute; "Caf" ++ e_acute;
                                        "Caf" ++ e_with_accent; "Caf" ++ e_with_accent]%string)
      by (subst out; vm_compute; reflexivity).
    clear E. intros H.
    destruct out as [|r1 [|r2 [|r3 rest]]]; try discriminate.
    apply StronglySorted_inv in H as [_ H].
    apply Forall_inv_tail, Forall_inv in H.
    cbn [map] in E1. injection E1 as P1 _ P3 _.
    unfold report_order in H. rewrite P1, P3 in H.
    destruct H as [H|[H _]]; vm_compute in H; discriminate.
  - split; [vm_compute; reflexivity|]. split; [vm_compute; discriminate|].
    split; [vm_compute; reflexivity|].
    remember (processPlanFactData canonical_compare one_project_tasks
                spelled_name_users spelled_projects) as out eqn:E.
    assert (E1 : map (fun r => (projectName r, userName r)) out
                 = [ ("Caf" ++ e_acute, "Zo" ++ e_acute);
                     ("Caf" ++ e_acute, "Zo" ++ e_acute);
                     ("Caf" ++ e_acute, "Zo" ++ e_with_accent);
                     ("Caf" ++ e_acute, "Zo" ++ e_with_accent) ]%string)
      by (subst out; vm_compute; reflexivity).
    clear E. intros H.
    destruct out as [|r1 [|r2 [|r3 rest]]]; try discriminate.
    apply StronglySorted_inv in H as [_ H].
    apply Forall_inv_tail, Forall_inv in H.
    cbn [map] in E1. injection E1 as P1 U1 _ _ P3 U3 _.
    unfold report_order in H. rewrite P1, P3, U1, U3 in H.
    destruct H as [H|[_ [H|[H _]]]]; vm_compute in H; discriminate.
Qed.




(* ================================================================== *)
(** * ApiAccessLayer: proofs                                            *)
(* ================================================================== *)

Lemma encode_param_error (key : string) (v : pval) (e : error) :
  encode_param key v = inl e -> includes (message e) quota_marker = false.
Proof.
  unfold encode_param. intros H.
  destruct v as [[| |b|z|s]|fields|items];
    repeat match type of H with
      | context [if ?c then _ else _] => destruct c
      end; try discriminate.
  inversion H. vm_compute. reflexivity.
Qed.

(** The error thrown while the query is built is never taken for a quota
    error. *)
Lemma encode_params_error (p : params) (e : error) :
  encode_params p = inl e -> includes (message e) quota_marker = false.
Proof.
  induction p as [|[key v] r IH]; simpl; [discriminate|].
  destruct (encode_param key v) as [e'|here] eqn:E.
  - intros H. inversion H; subst. eapply encode_param_error; eauto.
  - destruct (encode_params r); [|discriminate].
    intros H. inversion H; subst. now apply IH.
Qed.

Section CallMethodFacts.
Variable R : Type.
Variable JSON_stringify : params -> string.

Let run := callMethod_run (R := R) JSON_stringify.

(** What a failed round trip leaves behind: the wait of the rate limiter,
    the request, and the time it took. *)
Definition failed_attempt (method : string) (query : list (string * string))
  (step : netStep R) (w : world R) : world R :=
  elapse (ns_elapsed step) (log_fetch (request_of method query) (await_rate_limit w)).

Lemma svc_await_rate_limit (w : world R) : svc (await_rate_limit w) = svc w.
Proof. unfold await_rate_limit. now destruct (_ <? _). Qed.

Lemma svc_failed_attempt (method : string) (query : list (string * string))
  (step : netStep R) (w : world R) :
  svc (failed_attempt method query step w) = svc w.
Proof. unfold failed_attempt. simpl. apply svc_await_rate_limit. Qed.

(** A call that does not return leaves the cache and the last-call time
    as they were. *)
Lemma callMethod_run_no_return (net : list (netStep R)) :
  forall (method : string) (p : params) (w : world R),
    match run net method p w with
    | (Return _, _) => True
    | (_, (_, w')) => svc w' = svc w
    end.
Proof.
  subst run.
  induction net as [|step net IH]; intros method p w; simpl.
  - destruct (cache_lookup _ w); [exact I|].
    destruct (encode_params p); simpl; apply svc_await_rate_limit.
  - destruct (cache_lookup _ w); [exact I|].
    destruct (encode_params p) as [e|query]; [apply svc_await_rate_limit|].
    destruct (check_response (ns_outcome step)) as [e|data]; [|exact I].
    destruct (includes (message e) quota_marker).
    + specialize (IH method p
                    (delay 2000 (elapse (ns_elapsed step)
                       (log_fetch (request_of method query) (await_rate_limit w))))).
      destruct (callMethod_run _ _ _ _ _) as [[r|e'|] [net' w']]; [exact I | |];
        rewrite IH; simpl; apply svc_await_rate_limit.
    + simpl. apply svc_await_rate_limit.
Qed.

(** Round trips that all fail on the quota are each followed by a wait of
    two seconds and a new attempt at the same call, however many they
    are. *)
Lemma callMethod_run_retries (fails : list (netStep R)) :
  forall (net : list (netStep R)) (method : string) (p : params)
         (query : list (string * string)) (w : world R),
    map_get string_dec (cache_key JSON_stringify method p) (cache (svc w)) = None ->
    encode_params p = inr query ->
    Forall (fun step => exists e, check_response (ns_outcome step) = inl e
                                  /\ includes (message e) quota_marker = true) fails ->
    run (fails ++ net) method p w
    = run net method p
        (fold_left (fun w step => delay 2000 (failed_attempt method query step w)) fails w).
Proof.
  subst run.
  induction fails as [|step fails IH]; intros net method p query w Hc Hq Hf;
    [reflexivity|].
  inversion Hf as [|? ? (e & He & Hm) Hf']; subst.
  cbn [app fold_left callMethod_run].
  unfold cache_lookup at 1. rewrite Hc, Hq, He, Hm.
  apply IH; [|exact Hq | exact Hf'].
  simpl. now rewrite svc_await_rate_limit.
Qed.
End CallMethodFacts.

(* ================================================================== *)
(** * DomainQueries: proofs                                             *)
(* ================================================================== *)

Lemma page_params_start (p : params) (start : Z) :
  map_get string_dec "start" (page_params p start) = Some (PScalar (JInt start)).
Proof.
  unfold page_params.
  rewrite !map_get_set_neq by discriminate. apply map_get_set_eq.
Qed.

(** Each page is asked of [callMethod] with [order: { ID: 'ASC' }]. *)
Lemma page_params_order (p : params) (start : Z) :
  map_get string_dec "order" (page_params p start) = Some (PObject [("ID", JStr "ASC")]).
Proof. unfold page_params. apply map_get_set_eq. Qed.

Section GetTasksFacts.
Variables W R : Type.
Variable callMethod : string -> params -> Async W R.
Variable result_tasks : R -> option (list task).

Let loop := getTasks_loop callMethod result_tasks.

(** Pagination in the words of the specification: calls at growing
    [start] offsets, pages concatenated, until a page is short (or carries
    no task list) or the offset reaches the ceiling; a call that throws or
    hangs ends the query the same way. *)
Inductive Paginated (p : params)
  : Z -> W -> list task -> outcome (list task) * W -> Prop :=
| pg_throw start w acc e w' :
    callMethod "tasks.task.list" (page_params p start) w = (Throw e, w') ->
    Paginated p start w acc (Throw e, w')
| pg_pending start w acc w' :
    callMethod "tasks.task.list" (page_params p start) w = (Pending, w') ->
    Paginated p start w acc (Pending, w')
| pg_no_list start w acc r w' :
    callMethod "tasks.task.list" (page_params p start) w = (Return r, w') ->
    result_tasks r = None ->
    Paginated p start w acc (Return acc, w')
| pg_short start w acc r w' page :
    callMethod "tasks.task.list" (page_params p start) w = (Return r, w') ->
    result_tasks r = Some page ->
    Z.of_nat (length page) < 50 ->
    Paginated p start w acc (Return (acc ++ page), w')
| pg_ceiling start w acc r w' page :
    callMethod "tasks.task.list" (page_params p start) w = (Return r, w') ->
    result_tasks r = Some page ->
    50 <= Z.of_nat (length page) ->
    1000 <= start + 50 ->
    Paginated p start w acc (Return (acc ++ page), w')
| pg_next start w acc r w' page res :
    callMethod "tasks.task.list" (page_params p start) w = (Return r, w') ->
    result_tasks r = Some page ->
    50 <= Z.of_nat (length page) ->
    start + 50 < 1000 ->
    Paginated p (start + 50) w' (acc ++ page) res ->
    Paginated p start w acc res.

Lemma getTasks_loop_paginated (p : params) (fuel : nat) :
  forall start acc w,
    start < 1000 -> 1000 - start <= 50 * Z.of_nat fuel ->
    Paginated p start w acc (loop fuel p acc start w).
Proof.
  subst loop.
  induction fuel as [|fuel IH]; intros start acc w Hlt Hfuel; [lia|].
  cbn [getTasks_loop]. unfold bind.
  destruct (callMethod "tasks.task.list" (page_params p start) w) as [[r|e|] w'] eqn:Ec.
  - destruct (result_tasks r) as [page|] eqn:Er.
    + unfold limit. destruct (Z.ltb_spec (Z.of_nat (length page)) 50).
      * eapply pg_short; eauto.
      * destruct (Z.geb_spec (start + 50) 1000).
        -- eapply pg_ceiling; eauto; lia.
        -- eapply pg_next; eauto; try lia. apply IH; lia.
    + eapply pg_no_list; eauto.
  - now apply pg_throw.
  - now apply pg_pending.
Qed.

(** The description leaves no choice. *)
Lemma paginated_functional (p : params) (start : Z) (w : W) (acc : list task)
  (res : outcome (list task) * W) :
  Paginated p start w acc res ->
  forall fuel, 1000 - start <= 50 * Z.of_nat fuel -> start < 1000 ->
               res = loop fuel p acc start w.
Proof.
  subst loop.
  induction 1 as [start w acc e w' Hc|start w acc w' Hc|start w acc r w' Hc Hr
                 |start w acc r w' page Hc Hr Hlen
                 |start w acc r w' page Hc Hr Hlen Hceil
                 |start w acc r w' page res Hc Hr Hlen Hmore _ IH];
    intros fuel Hfuel Hlt; (destruct fuel as [|fuel]; [lia|]);
    cbn [getTasks_loop]; unfold bind; rewrite Hc; try reflexivity;
    rewrite Hr; try reflexivity; unfold limit.
  - destruct (Z.ltb_spec (Z.of_nat (length page)) 50); [reflexivity | lia].
  - destruct (Z.ltb_spec (Z.of_nat (length page)) 50); [lia|].
    destruct (Z.geb_spec (start + 50) 1000); [reflexivity | lia].
  - destruct (Z.ltb_spec (Z.of_nat (length page)) 50); [lia|].
    destruct (Z.geb_spec (start + 50) 1000); [lia|].
    apply IH; lia.
Qed.

(** Twenty turns are enough: more fuel changes nothing. *)
Lemma getTasks_fuel (p : params) (w : W) (extra : nat) :
  loop (20 + extra) p [] 0 w = getTasks callMethod result_tasks p w.
Proof.
  unfold getTasks. symmetry.
  apply (paginated_functional (p := p) (start := 0) (acc := [])); try lia.
  apply getTasks_loop_paginated; lia.
Qed.
End GetTasksFacts.

(** A service that holds a fixed list of tasks and answers a call with the
    page of at most 50 records that begins at the [start] parameter. *)
Definition start_of (p : params) : Z :=
  match map_get string_dec "start" p with
  | Some (PScalar (JInt start)) => start
  | _ => 0
  end.

Definition paged_service (W : Type) (db : list task)
  : string -> params -> Async W (list task) :=
  fun _ p w => (Return (firstn 50 (skipn (Z.to_nat (start_of p)) db)), w).

Lemma firstn_add (A : Type) (a b : nat) (l : list A) :
  firstn (a + b) l = firstn a l ++ firstn b (skipn a l).
Proof.
  revert l. induction a as [|a IH]; intros l; simpl; [reflexivity|].
  destruct l as [|x l]; simpl; [now rewrite firstn_nil | now rewrite IH].
Qed.

Lemma NoDup_firstn (A : Type) (n : nat) (l : list A) : NoDup l -> NoDup (firstn n l).
Proof.
  intros H. rewrite <- (firstn_skipn n l) in H. now apply NoDup_app_remove_r in H.
Qed.

Lemma getTasks_paged_service (W : Type) (db : list task) (p : params) (w : W) :
  getTasks (paged_service db) (fun r => Some r) p w = (Return (firstn 1000 db), w).
Proof.
  unfold getTasks.
  assert (H : forall fuel i acc,
             (i < 20)%nat -> (20 - i <= fuel)%nat ->
             acc = firstn (50 * i) db ->
             getTasks_loop (paged_service (W := W) db) (fun r => Some r) fuel p acc
               (Z.of_nat (50 * i)) w
             = (Return (firstn 1000 db), w)).
  { induction fuel as [|fuel IH]; intros i acc Hi Hfuel Hacc; [lia|].
    cbn [getTasks_loop]. unfold bind, paged_service at 1.
    unfold start_of. rewrite page_params_start, Nat2Z.id.
    set (page := firstn 50 (skipn (50 * i) db)).
    assert (Hcat : acc ++ page = firstn (50 * S i) db).
    { subst acc page. replace (50 * S i)%nat with (50 * i + 50)%nat by lia.
      now rewrite firstn_add. }
    rewrite Hcat. unfold limit.
    destruct (Z.ltb_spec (Z.of_nat (length page)) 50) as [Hshort|Hfull].
    - unfold ret. f_equal. f_equal.
      assert (Hlen : (length db < 50 * S i)%nat).
      { subst page. rewrite length_firstn, length_skipn in Hshort. lia. }
      rewrite !firstn_all2 by lia. reflexivity.
    - destruct (Z.geb_spec (Z.of_nat (50 * i) + 50) 1000) as [Hceil|Hmore].
      + unfold ret. f_equal. f_equal. f_equal. lia.
      + replace (Z.of_nat (50 * i) + 50) with (Z.of_nat (50 * S i)) by lia.
        apply IH; [lia | lia | reflexivity]. }
  apply (H 20%nat 0%nat []); [lia | lia | reflexivity].
Qed.

(** C7, as the code has it.  [getTasks] is the pagination the specification
    describes: calls of [tasks.task.list] with [start] = 0, 50, 100, ..., the
    pages concatenated in order, ending at the first page with fewer than 50
    records (or with no task list) or when the offset reaches 1000, a call
    that throws or hangs ending the query the same way; the description
    leaves no choice of result, and the twenty turns allowed are never used
    up.  Against a service that serves consecutive pages of one list, the
    result is the first 1000 records of that list, without duplicate ids
    when the list has none. *)
Theorem getTasks_pagination :
  forall (W R : Type) (callMethod : string -> params -> Async W R)
         (result_tasks : R -> option (list task)) (p : params) (w : W),
    Paginated callMethod result_tasks p 0 w [] (getTasks callMethod result_tasks p w)
    /\ (forall res, Paginated callMethod result_tasks p 0 w [] res ->
                    res = getTasks callMethod result_tasks p w)
    /\ (forall extra : nat,
          getTasks_loop callMethod result_tasks (20 + extra) p [] 0 w
          = getTasks callMethod result_tasks p w)
    /\ (forall start : Z,
          map_get string_dec "start" (page_params p start) = Some (PScalar (JInt start)))
    /\ (forall db : list task,
          getTasks (paged_service db) (fun r => Some r) p w = (Return (firstn 1000 db), w)
          /\ (NoDup (map task_id db) -> NoDup (map task_id (firstn 1000 db)))).
Proof.
  intros W R callMethod result_tasks p w.
  split; [|split; [|split; [|split]]].
  - apply getTasks_loop_paginated; lia.
  - intros res H. unfold getTasks.
    apply (paginated_functional H); lia.
  - apply getTasks_fuel.
  - apply page_params_start.
  - intros db. split; [apply getTasks_paged_service|].
    intros H. rewrite <- firstn_map. now apply NoDup_firstn.
Qed.

Definition numbered_task (n : nat) : task :=
  mk_task (Z_to_string (Z.of_nat n)) "T" (JStr "10") (JStr "5") (JStr "0") (JStr "0").

(** A service that lists the newest task first and gains a task between two
    calls: the first call sees tasks 50 down to 1, the second call, at
    [start] = 50, sees task 1 again. *)
Definition shifting_service : string -> params -> Async unit (list task) :=
  fun _ p w =>
    (Return (if start_of p =? 0 then map numbered_task (rev (seq 1 50))
             else [numbered_task 1]), w).

(** C7 does not hold as specified: nothing in [getTasks] removes a record
    that two pages share. *)
Lemma getTasks_can_return_duplicate_ids :
  exists tasks : list task,
    getTasks shifting_service (fun r => Some r) [] tt = (Return tasks, tt)
    /\ length tasks = 51%nat
    /\ ~ NoDup (map task_id tasks).
Proof.
  eexists. split; [vm_compute; reflexivity|]. split; [reflexivity|].
  intros H. apply (NoDup_remove_2 (map task_id (map numbered_task (rev (seq 1 50)))) [])
    in H.
  apply H. rewrite app_nil_r. vm_compute. tauto.
Qed.

(** The request of a page carries no ordering: [order] is an object that is
    neither [filter] nor [select], and the loop over the parameters drops
    it. *)
Example page_request_query :
  encode_params (page_params [("filter", PObject [("GROUP_ID", JStr "10")])] 50)
  = inr ([("filter[GROUP_ID]", "10"); ("start", "50")]
           ++ map (fun '(i, f) => ("select[" ++ Z_to_string i ++ "]", f))%string
                (indexed 0 selectFields)).
Proof. vm_compute. reflexivity. Qed.

(** [getTasks] over [callMethod], on a new instance and a network that
    answers with a full page and then a short one: two requests, at
    [start] = 0 and 50, the second held back by the rate limiter; 51 tasks;
    both pages cached. *)
Definition page_step (ms : Z) (page : list task) : netStep (list task) :=
  {| ns_elapsed := ms;
     ns_outcome :=
       FetchResponse true 200
         (BodyData {| d_error := JUndefined; d_error_description := JUndefined;
                      d_result := page |}) |}.

Example getTasks_over_callMethod :
  let p := [("filter", PObject [("GROUP_ID", JStr "10")]); ("select", PArray [JStr "ID"])] in
  let net := [page_step 80 (map numbered_task (seq 1 50)); page_step 90 [numbered_task 51]] in
  let w := {| svc := new_service (list task); clock := 1700000000000; trace := [] |} in
  match getTasks (callMethod (fun q => Z_to_string (start_of q)))
          (fun r => Some r) p (net, w) with
  | (Return tasks, (rest, w')) =>
      length tasks = 51%nat
      /\ rest = []
      /\ map (fun ev => match ev with
                        | EvFetch rq => inl (rq_query rq)
                        | EvDelay ms => inr ms
                        end) (trace w')
         = [inl [("filter[GROUP_ID]", "10"); ("select[0]", "ID"); ("start", "0")];
            inr 1000;
            inl [("filter[GROUP_ID]", "10"); ("select[0]", "ID"); ("start", "50")]]%string
      /\ rl_lastCall (svc w') = 1700000001170
      /\ map_keys (cache (svc w')) = ["tasks.task.list-0"; "tasks.task.list-50"]%string
  | _ => False
  end.
Proof. vm_compute. repeat split. Qed.

(** C8. A round trip of [callMethod] that fails stores nothing in the cache
    and leaves the last-call time.  When the message of the failure carries
    the quota marker the call waits 2000 ms and is made again, with the same
    method and parameters, and so for every failure in a row, whatever their
    number; any other error, also one thrown while the query is built, is
    thrown to the caller as it is.  A call that throws or never settles
    leaves the cache and the last-call time as it found them. *)
Theorem quota_retry_and_error_propagation :
  forall (R : Type) (JSON_stringify : params -> string)
         (net : list (netStep R)) (step : netStep R) (method : string) (p : params)
         (query : list (string * string)) (e : error) (w : world R),
    cache_lookup (cache_key JSON_stringify method p) w = None ->
    encode_params p = inr query ->
    check_response (ns_outcome step) = inl e ->
    let w' := failed_attempt method query step w in
    svc w' = svc w
    /\ (includes (message e) quota_marker = true ->
          callMethod_run JSON_stringify (step :: net) method p w
          = callMethod_run JSON_stringify net method p (delay 2000 w')
          /\ svc (delay 2000 w') = svc w
          /\ clock (delay 2000 w') = clock w' + 2000
          /\ trace (delay 2000 w')
             = trace (await_rate_limit w)
                 ++ [EvFetch (request_of method query); EvDelay 2000])
    /\ (includes (message e) quota_marker = false ->
          callMethod_run JSON_stringify (step :: net) method p w = (Throw e, (net, w')))
    /\ (forall fails : list (netStep R),
          map_get string_dec (cache_key JSON_stringify method p) (cache (svc w)) = None ->
          Forall (fun s => exists e', check_response (ns_outcome s) = inl e'
                                      /\ includes (message e') quota_marker = true) fails ->
          callMethod_run JSON_stringify (fails ++ net) method p w
          = callMethod_run JSON_stringify net method p
              (fold_left (fun w0 s => delay 2000 (failed_attempt method query s w0)) fails w))
    /\ (forall (net0 : list (netStep R)) (method0 : string) (p0 : params) (w0 : world R),
          match callMethod_run JSON_stringify net0 method0 p0 w0 with
          | (Return _, _) => True
          | (_, (_, w1)) => svc w1 = svc w0
          end)
    /\ (forall (net0 : list (netStep R)) (p0 : params) (e0 : error),
          cache_lookup (cache_key JSON_stringify method p0) w = None ->
          encode_params p0 = inl e0 ->
          callMethod_run JSON_stringify net0 method p0 w
          = (Throw e0, (net0, await_rate_limit w))).
Proof.
  intros R js net step method p query e w Hc Hq He w'.
  split; [apply svc_failed_attempt|]. split; [|split; [|split; [|split]]].
  - intros Hm. split.
    + cbn [callMethod_run]. now rewrite Hc, Hq, He, Hm.
    + split; [simpl; apply svc_await_rate_limit|]. split; [reflexivity|].
      simpl. now rewrite <- app_assoc.
  - intros Hm. cbn [callMethod_run]. now rewrite Hc, Hq, He, Hm.
  - intros fails Hcache Hf. now apply callMethod_run_retries.
  - apply callMethod_run_no_return.
  - intros net0 p0 e0 Hc0 He0. destruct net0; cbn [callMethod_run]; now rewrite Hc0, He0.
Qed.

(** A service-reported quota error without description, after 120 ms. *)
Definition quota_step : netStep unit :=
  {| ns_elapsed := 120;
     ns_outcome :=
       FetchResponse true 200
         (BodyData {| d_error := JStr "QUERY_LIMIT_EXCEEDED";
                      d_error_description := JUndefined; d_result := tt |}) |}.

Definition fresh_world : world unit :=
  {| svc := new_service unit; clock := 1700000000000; trace := [] |}.

Lemma quota_retry_witness :
  callMethod_run (fun _ => "{}"%string) [quota_step] "user.get" [] fresh_world
  = callMethod_run (fun _ => "{}"%string) [] "user.get" []
      (delay 2000 (failed_attempt "user.get" [] quota_step fresh_world)).
Proof.
  exact (proj1 (proj1 (proj2 (quota_retry_and_error_propagation
                                (fun _ => "{}"%string) [] quota_step "user.get" []
                                (e := {| message := "QUERY_LIMIT_EXCEEDED" |}) fresh_world
                                eq_refl eq_refl eq_refl)) eq_refl)).
Defined.

(** An error body whose [error] field is the quota marker and which also
    has a description is thrown under the description, so that the message
    does not carry the marker. *)
Example described_quota_error_is_not_retried :
  check_response
    (FetchResponse true 200
       (BodyData {| d_error := JStr "QUERY_LIMIT_EXCEEDED";
                    d_error_description := JStr "Too many requests"; d_result := tt |}))
  = inl {| message := "Too many requests" |}
  /\ includes "Too many requests" quota_marker = false.
Proof. vm_compute. split; reflexivity. Qed.

(* ================================================================== *)
(** * Lenient parsing                                                   *)
(* ================================================================== *)

Lemma falsy_parseInt (v : jsval) (z : Z) :
  truthy v = false -> parseInt v = Some z -> z = 0.
Proof.
  destruct v as [| |[|]|n|s]; simpl; try discriminate.
  - intros H. apply negb_false_iff, Z.eqb_eq in H. subst n.
    vm_compute. congruence.
  - intros H. apply negb_false_iff, String.eqb_eq in H. subst s.
    vm_compute. discriminate.
Qed.

Lemma resource_hours_parsed (v : jsval) :
  resource_hours v
  = match parseInt v with
    | Some z =>
        num_div (if (z =? 0) && minus_sign v then (- 0)%float else num_of_Z z) 3600
    | None => 0%float
    end.
Proof.
  unfold resource_hours, parseInt_number.
  destruct (truthy v) eqn:Et, (parseInt v) as [z|] eqn:Ep; cbn [isNaN negb andb];
    try reflexivity.
  apply (falsy_parseInt _ Et) in Ep as Ez. subst z.
  destruct v as [| |[|]|n|s]; try discriminate.
  - cbn [truthy] in Et. apply negb_false_iff, Z.eqb_eq in Et. subst n.
    vm_compute. reflexivity.
  - cbn [truthy] in Et. apply negb_false_iff, String.eqb_eq in Et. subst s.
    vm_compute in Ep. discriminate.
Qed.

Lemma planFact_hours_parsed (v : jsval) :
  planFact_hours v
  = match parseInt v with
    | Some z =>
        num_div (if (z =? 0) && minus_sign v then (- 0)%float else num_of_Z z) 3600
    | None => if truthy v then NaN else 0%float
    end.
Proof.
  unfold planFact_hours, parseInt_number.
  destruct (truthy v) eqn:Et, (parseInt v) as [z|] eqn:Ep; try reflexivity.
  apply (falsy_parseInt _ Et) in Ep as Ez. subst z.
  destruct v as [| |[|]|n|s]; try discriminate.
  - cbn [truthy] in Et. apply negb_false_iff, Z.eqb_eq in Et. subst n.
    vm_compute. reflexivity.
  - cbn [truthy] in Et. apply negb_false_iff, String.eqb_eq in Et. subst s.
    vm_compute in Ep. discriminate.
Qed.

(** A completed task whose estimate is not a number. *)
Definition task_with_text_estimate : task :=
  mk_task "1" "A" (JStr "10") (JStr "5") (JStr "abc") (JStr "7200").

(** C5, what the code does.  In [processProjectResources] a value that does
    not parse counts for 0 hours and any other value for its seconds over
    3600 (the seconds as the double that [parseInt] returns, the quotient a
    double).  In [processPlanFactData] the same holds of values that parse
    and of empty or missing ones, but a non-empty value that does not parse
    gives [NaN]: the test for [NaN] of the other algorithm is missing
    here.  On the task with estimate ["abc"] the planned hours of the detail
    row and of the summary row are [NaN] in the plan-vs-fact report, 0 in the
    resource report. *)
Theorem unparseable_effort_values :
  (forall v, resource_hours v
             = match parseInt v with
               | Some z =>
                   num_div (if (z =? 0) && minus_sign v then (- 0)%float else num_of_Z z)
                     3600
               | None => 0%float
               end)
  /\ (forall v, planFact_hours v
                = match parseInt v with
                  | Some z =>
                      num_div (if (z =? 0) && minus_sign v then (- 0)%float
                               else num_of_Z z) 3600
                  | None => if truthy v then NaN else 0%float
                  end)
  /\ planFact_hours (JStr "") = 0%float
  /\ planFact_hours JUndefined = 0%float
  /\ parseInt (JStr "abc") = None
  /\ planFact_hours (JStr "abc") = NaN
  /\ resource_hours (JStr "abc") = 0%float
  /\ planFact_hours (JStr "7200") = 2%float
  /\ resource_hours (JStr "5400") = 1.5%float
  /\ map plannedHours
       (processPlanFactData code_unit_compare [task_with_text_estimate] [] [])
     = [NaN; NaN]
  /\ map rr_plannedHours
       (processProjectResources [task_with_text_estimate] []
          {| project_ID := JStr "10"; project_NAME := "P" |} 0)
     = [0%float; 0%float].
Proof.
  split; [exact resource_hours_parsed|]. split; [exact planFact_hours_parsed|].
  vm_compute. repeat split.
Qed.

(* ================================================================== *)
(** * DateRangeResolver: evaluation                                     *)
(* ================================================================== *)

(** Noon, local time, of a calendar day on a host [tz] minutes east of
    UTC. *)
Definition local_noon (tz y m d : Z) : Z :=
  days_from_civil y m d * msPerDay + 12 * 3600000 - tz * msPerMinute.

(** The UTC day of a local midnight: the same day on a host at UTC or west
    of it, the day before on a host east of UTC. *)
Lemma utc_day_of_new_Date (tz year month date : Z) :
  -1440 < tz <= 1440 ->
  new_Date tz year month date / msPerDay
  = MakeDay (if (0 <=? year) && (year <=? 99) then 1900 + year else year) month date
    + (if 0 <? tz then -1 else 0).
Proof.
  intros Htz. unfold new_Date, UTC. cbn [fixed_offset offset_of_local].
  unfold msPerDay, msPerMinute.
  set (day := MakeDay _ month date). clearbody day.
  destruct (Z.ltb_spec 0 tz).
  - symmetry. apply (Z.div_unique _ _ _ (86400000 - tz * 60000)); lia.
  - symmetry. apply (Z.div_unique _ _ _ (- tz * 60000)); lia.
Qed.

(* ================================================================== *)
(** * The calendar                                                      *)
(* ================================================================== *)

Unset Implicit Arguments.

Definition is_leap (y : Z) : bool :=
  ((y mod 4 =? 0) && negb (y mod 100 =? 0)) || (y mod 400 =? 0).

Definition days_in_month (y m : Z) : Z :=
  if m =? 2 then (if is_leap y then 29 else 28)
  else if (m =? 4) || (m =? 6) || (m =? 9) || (m =? 11) then 30
  else 31.

Example epoch_days :
  days_from_civil 1970 1 1 = 0
  /\ civil_from_days 0 = (1970, 1, 1)
  /\ civil_from_days (-1) = (1969, 12, 31)
  /\ days_from_civil 2024 3 15 = 19797
  /\ civil_from_days 11016 = (2000, 2, 29).
Proof. vm_compute. repeat split. Qed.

(** The calendar repeats every 400 years, which are 146097 days. *)
Lemma days_from_civil_era (y m d k : Z) :
  days_from_civil (y + 400 * k) m d = days_from_civil y m d + 146097 * k.
Proof.
  unfold days_from_civil.
  replace (if m <=? 2 then y + 400 * k - 1 else y + 400 * k)
    with ((if m <=? 2 then y - 1 else y) + k * 400) by (destruct (m <=? 2); lia).
  set (y' := if m <=? 2 then y - 1 else y).
  cbv zeta. rewrite Z.div_add by lia.
  replace (y' + k * 400 - (y' / 400 + k) * 400) with (y' - y' / 400 * 400) by lia.
  lia.
Qed.

Lemma civil_from_days_era (z k : Z) :
  civil_from_days (z + 146097 * k)
  = let '(y, m, d) := civil_from_days z in (y + 400 * k, m, d).
Proof.
  unfold civil_from_days.
  replace (z + 146097 * k + 719468) with (z + 719468 + k * 146097) by lia.
  rewrite Z.div_add by lia.
  set (era := (z + 719468) / 146097).
  replace (z + 719468 + k * 146097 - (era + k) * 146097)
    with (z + 719468 - era * 146097) by lia.
  cbv zeta. f_equal. f_equal. lia.
Qed.

Lemma is_leap_era (y k : Z) : is_leap (y + 400 * k) = is_leap y.
Proof.
  unfold is_leap.
  replace (y + 400 * k) with (y + (100 * k) * 4) at 1 by lia.
  replace (y + 400 * k) with (y + (4 * k) * 100) at 1 by lia.
  replace (y + 400 * k) with (y + k * 400) by lia.
  now rewrite !Z.mod_add by lia.
Qed.

Lemma days_in_month_era (y m k : Z) : days_in_month (y + 400 * k) m = days_in_month y m.
Proof. unfold days_in_month. now rewrite is_leap_era. Qed.

Definition date_eqb (a b : Z * Z * Z) : bool :=
  let '(y, m, d) := a in
  let '(y', m', d') := b in
  (y =? y') && (m =? m') && (d =? d').

Lemma date_eqb_eq (a b : Z * Z * Z) : date_eqb a b = true -> a = b.
Proof.
  destruct a as [[y m] d], b as [[y' m'] d']. simpl.
  rewrite !andb_true_iff, !Z.eqb_eq. intros [[-> ->] ->]. reflexivity.
Qed.

(** The first day of the month after month [m] of year [y]. *)
Definition next_month_start (y m : Z) : Z :=
  days_from_civil (y + m / 12) (m mod 12 + 1) 1.

(** For one month: its first day, its last day and the day before the
    last are where the day numbers say. *)
Definition month_ok (y m : Z) : bool :=
  date_eqb (civil_from_days (days_from_civil y m 1)) (y, m, 1)
  && date_eqb (civil_from_days (next_month_start y m - 1)) (y, m, days_in_month y m)
  && date_eqb (civil_from_days (next_month_start y m - 2)) (y, m, days_in_month y m - 1).

Lemma month_ok_unfold (y m : Z) :
  month_ok y m
  = date_eqb (civil_from_days (days_from_civil y m 1)) (y, m, 1)
    && date_eqb (civil_from_days (next_month_start y m - 1)) (y, m, days_in_month y m)
    && date_eqb (civil_from_days (next_month_start y m - 2)) (y, m, days_in_month y m - 1).
Proof. reflexivity. Qed.

Fixpoint months_ok_from (n : nat) (i : Z) : bool :=
  match n with
  | O => true
  | S n' => month_ok (i / 12) (i mod 12 + 1) && months_ok_from n' (i + 1)
  end.

Lemma months_ok_from_S (n : nat) (i : Z) :
  months_ok_from (S n) i
  = month_ok (i / 12) (i mod 12 + 1) && months_ok_from n (i + 1).
Proof. reflexivity. Qed.

Lemma months_ok_from_spec (n : nat) :
  forall i j, months_ok_from n i = true -> i <= j < i + Z.of_nat n ->
              month_ok (j / 12) (j mod 12 + 1) = true.
Proof.
  induction n as [|n IH]; intros i j H Hj; [lia|].
  rewrite months_ok_from_S in H. apply andb_true_iff in H as [H0 H1].
  destruct (Z.eq_dec i j) as [->|Hne]; [exact H0|].
  apply (IH (i + 1)); [exact H1 | lia].
Qed.

Lemma era_months_ok : months_ok_from 4800 0 = true.
Proof. vm_compute. reflexivity. Qed.

Lemma next_month_start_era (y m k : Z) :
  next_month_start (y + 400 * k) m = next_month_start y m + 146097 * k.
Proof.
  unfold next_month_start.
  replace (y + 400 * k + m / 12) with (y + m / 12 + 400 * k) by lia.
  apply days_from_civil_era.
Qed.

Lemma date_eqb_refl (a : Z * Z * Z) : date_eqb a a = true.
Proof. destruct a as [[y m] d]. simpl. now rewrite !Z.eqb_refl. Qed.

Lemma civil_from_days_shift (z k y m d : Z) :
  civil_from_days z = (y, m, d) ->
  civil_from_days (z + 146097 * k) = (y + 400 * k, m, d).
Proof. intros H. rewrite civil_from_days_era. now rewrite H. Qed.

(** What [month_ok] checks. *)
Definition month_placed (y m : Z) : Prop :=
  civil_from_days (days_from_civil y m 1) = (y, m, 1)
  /\ civil_from_days (next_month_start y m - 1) = (y, m, days_in_month y m)
  /\ civil_from_days (next_month_start y m - 2) = (y, m, days_in_month y m - 1).

Lemma month_ok_placed (y m : Z) : month_ok y m = true -> month_placed y m.
Proof.
  intros H. rewrite month_ok_unfold in H.
  apply andb_true_iff in H as [H H3]. apply andb_true_iff in H as [H1 H2].
  apply date_eqb_eq in H1. apply date_eqb_eq in H2. apply date_eqb_eq in H3.
  exact (conj H1 (conj H2 H3)).
Qed.

Lemma month_placed_era (y m k : Z) : month_placed y m -> month_placed (y + 400 * k) m.
Proof.
  intros (H1 & H2 & H3).
  apply civil_from_days_shift with (k := k) in H1.
  apply civil_from_days_shift with (k := k) in H2.
  apply civil_from_days_shift with (k := k) in H3.
  unfold month_placed.
  rewrite days_from_civil_era, next_month_start_era, days_in_month_era.
  replace (next_month_start y m + 146097 * k - 1)
    with (next_month_start y m - 1 + 146097 * k) by lia.
  replace (next_month_start y m + 146097 * k - 2)
    with (next_month_start y m - 2 + 146097 * k) by lia.
  exact (conj H1 (conj H2 H3)).
Qed.

Lemma month_bounds (y m : Z) : 1 <= m <= 12 -> month_placed y m.
Proof.
  intros Hm.
  assert (H0 : month_ok (y mod 400) m = true).
  { pose proof (Z.mod_pos_bound y 400 ltac:(lia)) as Hy.
    pose proof (@months_ok_from_spec 4800 0 (12 * (y mod 400) + (m - 1)) era_months_ok
                  ltac:(lia)) as H.
    assert (Ed : (12 * (y mod 400) + (m - 1)) / 12 = y mod 400)
      by (symmetry; apply (Z.div_unique _ _ _ (m - 1)); lia).
    assert (Em : (12 * (y mod 400) + (m - 1)) mod 12 = m - 1)
      by (symmetry; apply (Z.mod_unique _ _ (y mod 400)); lia).
    rewrite Ed, Em in H. now replace (m - 1 + 1) with m in H by lia. }
  pose proof (Z.div_mod y 400 ltac:(lia)) as Ey.
  replace y with (y mod 400 + 400 * (y / 400)) by lia.
  apply month_placed_era, month_ok_placed. exact H0.
Qed.

(** Every day has a month between 1 and 12. *)
Lemma civil_month_range (z : Z) : 1 <= snd (fst (civil_from_days z)) <= 12.
Proof.
  unfold civil_from_days. cbv zeta. cbn [fst snd].
  set (doe := z + 719468 - (z + 719468) / 146097 * 146097).
  assert (Hdoe : 0 <= doe < 146097) by (subst doe; Z.div_mod_to_equations; lia).
  clearbody doe.
  set (yoe := (doe - doe / 1460 + doe / 36524 - doe / 146096) / 365).
  set (doy := doe - (365 * yoe + yoe / 4 - yoe / 100)).
  assert (Hdoy : 0 <= doy <= 365) by (subst doy yoe; Z.div_mod_to_equations; lia).
  clearbody doy. clear yoe.
  destruct (Z.ltb_spec ((5 * doy + 2) / 153) 10); Z.div_mod_to_equations; lia.
Qed.

(* ================================================================== *)
(** * DateRangeResolver: the bounds on any host                         *)
(* ================================================================== *)

(** The month before month [m] of year [y]. *)
Definition previous_month (y m : Z) : Z * Z :=
  if m =? 1 then (y - 1, 12) else (y, m - 1).

Lemma MakeDay_first (y m : Z) :
  1 <= m <= 12 -> MakeDay y (m - 1) 1 = days_from_civil y m 1.
Proof.
  intros Hm. unfold MakeDay.
  rewrite Z.div_small, Z.mod_small by lia.
  replace (y + 0) with y by lia. replace (m - 1 + 1) with m by lia. lia.
Qed.

Lemma MakeDay_zero (y m : Z) : MakeDay y m 0 = next_month_start y m - 1.
Proof. unfold MakeDay, next_month_start. lia. Qed.

Lemma next_of_previous (y m : Z) :
  1 <= m <= 12 ->
  next_month_start (fst (previous_month y m)) (snd (previous_month y m))
  = days_from_civil y m 1.
Proof.
  intros Hm. unfold previous_month, next_month_start.
  destruct (Z.eqb_spec m 1) as [->|Hne]; cbn [fst snd].
  - replace (y - 1 + 12 / 12) with y by (cbn; lia). reflexivity.
  - rewrite Z.div_small, Z.mod_small by lia.
    replace (y + 0) with y by lia. now replace (m - 1 + 1) with m by lia.
Qed.

Section DateRangeFacts.
Variable tz : Z.
Variable Date_parse : string -> option Z.
Hypothesis tz_range : -1440 < tz <= 1440.

Lemma getDateRange_month (now : Z) (customFrom customTo : option string) :
  getDateRange tz Date_parse now (Some "month") customFrom customTo
  = inr (formatDate (new_Date tz (getFullYear tz now) (getMonth tz now) 1),
         formatDate (new_Date tz (getFullYear tz now) (getMonth tz now + 1) 0)).
Proof. reflexivity. Qed.

Lemma getDateRange_quarter (now : Z) (customFrom customTo : option string) :
  getDateRange tz Date_parse now (Some "quarter") customFrom customTo
  = inr (formatDate (new_Date tz (getFullYear tz now) (getMonth tz now / 3 * 3) 1),
         formatDate (new_Date tz (getFullYear tz now) ((getMonth tz now / 3 + 1) * 3) 0)).
Proof. reflexivity. Qed.

(** A bound is printed as the day of its local midnight, or the day before
    on a host east of UTC. *)
Lemma formatDate_new_Date (year month date : Z) :
  ~ (0 <= year <= 99) ->
  formatDate (new_Date tz year month date)
  = let '(y, m, d) :=
      civil_from_days (MakeDay year month date + (if 0 <? tz then -1 else 0)) in
    iso_date y m d.
Proof.
  intros Hy. unfold formatDate. rewrite utc_day_of_new_Date by exact tz_range.
  destruct (Z.leb_spec 0 year), (Z.leb_spec year 99); cbn [andb]; try reflexivity. lia.
Qed.

Lemma month_range_bounds (y first last : Z) :
  ~ (0 <= y <= 99) -> 1 <= first <= 12 -> 1 <= last <= 12 ->
  (formatDate (new_Date tz y (first - 1) 1), formatDate (new_Date tz y last 0))
  = if 0 <? tz
    then (let '(py, pm) := previous_month y first in iso_date py pm (days_in_month py pm),
          iso_date y last (days_in_month y last - 1))
    else (iso_date y first 1, iso_date y last (days_in_month y last)).
Proof.
  intros Hy Hf Hl.
  rewrite !formatDate_new_Date by exact Hy.
  rewrite MakeDay_first, MakeDay_zero by lia.
  destruct (@month_bounds y last Hl) as (_ & L1 & L2).
  destruct (@month_bounds y first Hf) as (F1 & _ & _).
  pose proof (@next_of_previous y first Hf) as Hp.
  destruct (previous_month y first) as [py pm] eqn:Epm; cbn [fst snd] in Hp.
  assert (Hpm : 1 <= pm <= 12)
    by (unfold previous_month in Epm; destruct (Z.eqb_spec first 1);
        inversion Epm; lia).
  destruct (@month_bounds py pm Hpm) as (_ & P1 & _); rewrite Hp in P1.
  destruct (Z.ltb_spec 0 tz).
  - replace (days_from_civil y first 1 + -1) with (days_from_civil y first 1 - 1) by lia.
    replace (next_month_start y last - 1 + -1) with (next_month_start y last - 2) by lia.
    rewrite P1, L2. reflexivity.
  - replace (days_from_civil y first 1 + 0) with (days_from_civil y first 1) by lia.
    replace (next_month_start y last - 1 + 0) with (next_month_start y last - 1) by lia.
    rewrite F1, L1. reflexivity.
Qed.
End DateRangeFacts.

Section DateRangeBounds.
Variable tz : Z.
Variable Date_parse : string -> option Z.
Hypothesis tz_range : -1440 < tz <= 1440.
Variables now y m d : Z.
Hypothesis today : civil_from_days (LocalTime tz now / msPerDay) = (y, m, d).
Hypothesis year_range : ~ (0 <= y <= 99).

Lemma today_month_range : 1 <= m <= 12.
Proof.
  pose proof (civil_month_range (LocalTime tz now / msPerDay)) as H.
  now rewrite today in H.
Qed.

Lemma getDateRange_month_bounds (customFrom customTo : option string) :
  getDateRange tz Date_parse now (Some "month") customFrom customTo
  = inr (if 0 <? tz
         then (let '(py, pm) := previous_month y m in
               iso_date py pm (days_in_month py pm),
               iso_date y m (days_in_month y m - 1))
         else (iso_date y m 1, iso_date y m (days_in_month y m))).
Proof.
  pose proof today_month_range as Hm.
  rewrite getDateRange_month. unfold getFullYear, getMonth. rewrite today.
  cbn [fst snd]. replace (m - 1 + 1) with m by lia.
  now rewrite (month_range_bounds tz tz_range y m m year_range Hm Hm).
Qed.

Lemma getDateRange_quarter_bounds (customFrom customTo : option string) :
  let first := (m - 1) / 3 * 3 + 1 in
  let last := first + 2 in
  getDateRange tz Date_parse now (Some "quarter") customFrom customTo
  = inr (if 0 <? tz
         then (let '(py, pm) := previous_month y first in
               iso_date py pm (days_in_month py pm),
               iso_date y last (days_in_month y last - 1))
         else (iso_date y first 1, iso_date y last (days_in_month y last))).
Proof.
  intros first last. pose proof today_month_range as Hm.
  assert (Hf : 1 <= first <= 12) by (subst first; Z.div_mod_to_equations; lia).
  assert (Hl : 1 <= last <= 12) by (subst last first; Z.div_mod_to_equations; lia).
  rewrite getDateRange_quarter. unfold getFullYear, getMonth. rewrite today.
  cbn [fst snd].
  replace ((m - 1) / 3 * 3) with (first - 1) by (subst first; lia).
  replace (((m - 1) / 3 + 1) * 3) with last by (subst last first; lia).
  now rewrite (month_range_bounds tz tz_range y first last year_range Hf Hl).
Qed.
End DateRangeBounds.

(** C9, what the code does.  The bounds are built at local midnight and
    printed in UTC.  The hosts of this statement keep one offset from UTC
    all year, [tz] minutes east.  On a host at UTC or west of it the month is the first to
    the last day of the current calendar month and the quarter the first day
    of its first month to the last day of its third month.  On a host east of
    UTC every bound comes out one day early: the range begins on the last day
    of the month before and ends on the day before the last.  On 15 March
    2024: 2024-03-01 to 2024-03-31 and 2024-01-01 to 2024-03-31 at UTC and at
    UTC-5; 2024-02-29 to 2024-03-30 and 2023-12-31 to 2024-03-30 at UTC+3. *)
Theorem date_range_bounds_by_host :
  (forall (tz : Z) (Date_parse : string -> option Z) (now y m d : Z)
          (customFrom customTo : option string),
      -1440 < tz <= 1440 ->
      civil_from_days (LocalTime tz now / msPerDay) = (y, m, d) ->
      ~ (0 <= y <= 99) ->
      1 <= m <= 12
      /\ getDateRange tz Date_parse now (Some "month") customFrom customTo
         = inr (if 0 <? tz
                then (let '(py, pm) := previous_month y m in
                      iso_date py pm (days_in_month py pm),
                      iso_date y m (days_in_month y m - 1))
                else (iso_date y m 1, iso_date y m (days_in_month y m)))
      /\ (let first := (m - 1) / 3 * 3 + 1 in
          let last := first + 2 in
          getDateRange tz Date_parse now (Some "quarter") customFrom customTo
          = inr (if 0 <? tz
                 then (let '(py, pm) := previous_month y first in
                       iso_date py pm (days_in_month py pm),
                       iso_date y last (days_in_month y last - 1))
                 else (iso_date y first 1, iso_date y last (days_in_month y last)))))
  /\ getDateRange 0 (fun _ => None) (local_noon 0 2024 3 15) (Some "month") None None
     = inr ("2024-03-01", "2024-03-31")
  /\ getDateRange (-300) (fun _ => None) (local_noon (-300) 2024 3 15) (Some "month") None None
     = inr ("2024-03-01", "2024-03-31")
  /\ getDateRange 0 (fun _ => None) (local_noon 0 2024 3 15) (Some "quarter") None None
     = inr ("2024-01-01", "2024-03-31")
  /\ getDateRange 180 (fun _ => None) (local_noon 180 2024 3 15) None None None
     = inr ("2024-02-29", "2024-03-30")
  /\ getDateRange 180 (fun _ => None) (local_noon 180 2024 3 15) (Some "month") None None
     = inr ("2024-02-29", "2024-03-30")
  /\ getDateRange 180 (fun _ => None) (local_noon 180 2024 3 15) (Some "quarter") None None
     = inr ("2023-12-31", "2024-03-30").
Proof.
  split.
  - intros tz parse now y m d cf ct Htz Htoday Hy.
    split; [exact (@today_month_range tz now y m d Htoday)|]. split.
    + exact (@getDateRange_month_bounds tz parse Htz now y m d Htoday Hy cf ct).
    + exact (@getDateRange_quarter_bounds tz parse Htz now y m d Htoday Hy cf ct).
  - vm_compute. repeat split.
Qed.

(* ================================================================== *)
(** * DomainQueries: users, projects, departments                       *)
(* ================================================================== *)

Definition userFields : list string :=
  ["ID"; "NAME"; "LAST_NAME"; "EMAIL"; "UF_DEPARTMENT"; "ACTIVE"].

Definition projectFields : list string := ["ID"; "NAME"; "DESCRIPTION"; "DATE_CREATE"].

Definition departmentFields : list string := ["ID"; "NAME"; "PARENT"].

(** [{...params, filter: params.filter || {}, select: params.select || fields}] *)
Definition query_params (p : params) (fields : list string) : params :=
  map_set string_dec "select" (param_or p "select" (PArray (map JStr fields)))
    (map_set string_dec "filter" (param_or p "filter" (PObject [])) p).

Section Queries.
Variables W R : Type.
Variable callMethod : string -> params -> Async W R.

(** [getUsers(params)] *)
Definition getUsers (p : params) : Async W R :=
  callMethod "user.get" (query_params p userFields).

(** [getProjects(params)] *)
Definition getProjects (p : params) : Async W R :=
  callMethod "sonet_group.get" (query_params p projectFields).

(** [getDepartments()] *)
Definition getDepartments : Async W R :=
  callMethod "department.get" [("select", PArray (map JStr departmentFields))].

(** The task array of a page of [tasks.task.list]. *)
Variable result_tasks : R -> option (list task).
(** The elements of a result that is an array; any other result has no
    positive [length]. *)
Variable result_projects : R -> list project.
(** The users of a result that is an array; [forEach] on any other result
    throws. *)
Variable result_users : R -> option (list user).

(** [processProjectResources] on what [getUsers] returned: an error thrown
    inside it is caught and the report is then empty. *)
Definition processProjectResources_of (tasks : list task) (users : R) (p : project)
  (detailLevel : Z) : list resourceRow :=
  match result_users users with
  | Some us => processProjectResources tasks us p detailLevel
  | None => []
  end.

(** [getProjectResources(projectId, detailLevel)]; the error of a query is
    thrown again as it is. *)
Definition getProjectResources (projectId : jsval) (detailLevel : Z)
  : Async W (list resourceRow) :=
  tasks <- getTasks callMethod result_tasks
             [("filter", PObject [("GROUP_ID", projectId)])] ;;
  projects <- getProjects [("filter", PObject [("ID", projectId)])] ;;
  let project :=
    match result_projects projects with
    | p :: _ => p
    | [] => {| project_ID := projectId; project_NAME := synth_project_name projectId |}
    end in
  users <- getUsers [] ;;
  ret (processProjectResources_of tasks users project detailLevel).
End Queries.

(* ================================================================== *)
(** * The plan-vs-fact query: [getPlanFactData]                         *)
(* ================================================================== *)

(** The [filters] object of the report form. *)
Record filters : Type := {
  f_projectId : jsval;
  f_period : option string;
  f_dateFrom : option string;
  f_dateTo : option string;
  f_departmentId : jsval
}.

Definition planFact_select : list string :=
  ["ID"; "TITLE"; "GROUP_ID"; "RESPONSIBLE_ID"; "TIME_ESTIMATE";
   "TIME_SPENT_IN_LOGS"; "CLOSED_DATE"; "STATUS"].

Definition planFact_user_select : list string :=
  ["ID"; "NAME"; "LAST_NAME"; "UF_DEPARTMENT"].

(** [[...new Set(tasks.map(task => task.groupId).filter(id => id))]] *)
Definition projectIds (tasks : list task) : list jsval :=
  distinct (filter truthy (map task_groupId tasks)).

(** [projectMap]: the projects keyed by [parseInt(project.ID)]. *)
Definition build_projectMap (projects : list project) : omap (option Z) project :=
  fold_left (fun m p => map_set optZ_eq_dec (parseInt (project_ID p)) p m) projects [].

Section PlanFactQuery.
Variables W R : Type.
Variable callMethod : string -> params -> Async W R.
Variable result_tasks : R -> option (list task).
(** What [flat()] makes of one result of [getProjects]. *)
Variable result_projects : R -> list project.
Variable result_users : R -> option (list user).
Variable localeCompare : string -> string -> Z.
Variable tz : host.
Variable Date_parse : string -> option Z.
(** [new Date()]: the clock of the host. *)
Variable Date_now : W -> Z.
(** [Promise.all] over calls that are started together; how they
    interleave is left open. *)
Variable Promise_all : list (Async W R) -> Async W (list R).

(** The date entries of [taskFilter]: none unless a period other than
    [all] is given. *)
Definition closed_date_filter (fs : filters) (now : Z)
  : error + list (string * jsval) :=
  match f_period fs with
  | Some period =>
      if (period =? "")%string || (period =? "all")%string then inr []
      else
        match getDateRange tz Date_parse now (Some period) (f_dateFrom fs) (f_dateTo fs) with
        | inl e => inl e
        | inr (from, to) =>
            inr [(">CLOSED_DATE", JStr (from ++ " 00:00:00"));
                 ("<CLOSED_DATE", JStr (to ++ " 23:59:59"))]%string
        end
  | None => inr []
  end.

Definition taskFilter (fs : filters) (dates : list (string * jsval))
  : list (string * jsval) :=
  [("STATUS"%string, JInt 5)]
    ++ (if truthy (f_projectId fs) then [("GROUP_ID"%string, f_projectId fs)] else [])
    ++ dates.

Definition userFilter (fs : filters) : list (string * jsval) :=
  if truthy (f_departmentId fs) then [("UF_DEPARTMENT"%string, f_departmentId fs)] else [].

(** [processPlanFactData] on what [getUsers] returned: an error thrown
    inside it is caught and the report is then empty. *)
Definition processPlanFactData_of (tasks : list task) (users : R)
  (projectMap : omap (option Z) project) : list row :=
  match result_users users with
  | Some us => processPlanFactData localeCompare tasks us projectMap
  | None => []
  end.

(** [getPlanFactData(filters)]; an error is thrown again as it is. *)
Definition getPlanFactData (fs : filters) : Async W (list row) :=
  fun w =>
    match closed_date_filter fs (Date_now w) with
    | inl e => (Throw e, w)
    | inr dates =>
        (tasks <- getTasks callMethod result_tasks
                    [("filter"%string, PObject (taskFilter fs dates));
                     ("select"%string, PArray (map JStr planFact_select))] ;;
         projects <- Promise_all
                       (map (fun id => getProjects W R callMethod
                                         [("filter"%string, PObject [("ID"%string, id)])])
                          (projectIds tasks)) ;;
         let projectMap := build_projectMap (flat_map result_projects projects) in
         users <- getUsers W R callMethod
                    [("filter"%string, PObject (userFilter fs));
                     ("select"%string, PArray (map JStr planFact_user_select))] ;;
         ret (processPlanFactData_of tasks users projectMap)) w
    end.
End PlanFactQuery.

(* ================================================================== *)
(** * The queries of the earlier snapshot                               *)
(* ================================================================== *)

Module EarlierQueries.

Definition planFact_select : list string :=
  ["ID"; "TITLE"; "GROUP_ID"; "RESPONSIBLE_ID"; "TIME_ESTIMATE";
   "TIME_SPENT_IN_LOGS"; "CREATED_DATE"].

Section Queries.
Variables W R : Type.
Variable callMethod : string -> params -> Async W R.
(** [result && result.tasks] *)
Variable result_tasks : R -> option (list task).
(** The elements of a result for which [Array.isArray] holds. *)
Variable result_array : R -> option (list task).
Variable result_users : R -> option (list user).
Variable localeCompare : string -> string -> Z.
Variable tz : host.
Variable Date_parse : string -> option Z.
Variable Date_now : W -> Z.

(** [getTasks(params)]: one call, no paging. *)
Definition getTasks (p : params) : Async W (list task) :=
  result <- callMethod "tasks.task.list" (query_params p selectFields) ;;
  ret (match result_tasks result with
       | Some tasks => tasks
       | None =>
           match result_array result with
           | Some tasks => tasks
           | None => []
           end
       end).

Definition taskFilter (fs : filters) (from to : string) : list (string * jsval) :=
  [("STATUS"%string, JStr "2")]
    ++ (if truthy (f_projectId fs) then [("GROUP_ID"%string, f_projectId fs)] else [])
    ++ [(">CREATED_DATE", JStr (from ++ " 00:00:00"));
        ("<CREATED_DATE", JStr (to ++ " 23:59:59"))]%string.

Definition user_params (fs : filters) : params :=
  if truthy (f_departmentId fs)
  then [("filter"%string, PObject [("UF_DEPARTMENT"%string, f_departmentId fs)])]
  else [].

Definition processPlanFactData_of (tasks : list task) (users : R)
  (dateRange : string * string) : list row :=
  match result_users users with
  | Some us => Earlier.processPlanFactData localeCompare tasks us dateRange
  | None => []
  end.

(** [getPlanFactData(filters)] *)
Definition getPlanFactData (fs : filters) : Async W (list row) :=
  fun w =>
    match getDateRange tz Date_parse (Date_now w) (f_period fs)
            (f_dateFrom fs) (f_dateTo fs) with
    | inl e => (Throw e, w)
    | inr (from, to) =>
        (tasks <- getTasks
                    [("filter"%string, PObject (taskFilter fs from to));
                     ("select"%string, PArray (map JStr planFact_select))] ;;
         users <- getUsers W R callMethod (user_params fs) ;;
         ret (processPlanFactData_of tasks users (from, to))) w
    end.
End Queries.

End EarlierQueries.

(* ================================================================== *)
(** * ApiAccessLayer: the cache and the rate limiter                    *)
(* ================================================================== *)

Section CacheFacts.
Variable R : Type.
Variable JSON_stringify : params -> string.

Let run := callMethod_run (R := R) JSON_stringify.

Lemma clock_await_rate_limit (w : world R) :
  clock w <= clock (await_rate_limit w)
  /\ rl_lastCall (svc w) + rl_delay (svc w) <= clock (await_rate_limit w).
Proof.
  unfold await_rate_limit.
  destruct (Z.ltb_spec (clock w - rl_lastCall (svc w)) (rl_delay (svc w))); simpl; lia.
Qed.

(** An entry that is missing or too old stays so while the clock does not
    go back and the instance is not written to. *)
Lemma cache_lookup_later (key : string) (w w' : world R) :
  svc w' = svc w -> clock w <= clock w' ->
  cache_lookup key w = None -> cache_lookup key w' = None.
Proof.
  unfold cache_lookup. intros -> Hle.
  destruct (map_get string_dec key (cache (svc w))) as [c|]; [|reflexivity].
  destruct (Z.ltb_spec (clock w - ce_timestamp c) 300000); [discriminate|].
  intros _. destruct (Z.ltb_spec (clock w' - ce_timestamp c) 300000); [lia | reflexivity].
Qed.

Lemma callMethod_run_hit (net : list (netStep R)) (method : string) (p : params)
  (w : world R) (data : R) :
  cache_lookup (cache_key JSON_stringify method p) w = Some data ->
  run net method p w = (Return data, (net, w)).
Proof. subst run. intros H. destruct net; cbn [callMethod_run]; now rewrite H. Qed.

(** What a call that goes to the network and returns leaves behind. *)
Lemma callMethod_run_miss (net : list (netStep R)) :
  forall (method : string) (p : params) (w : world R)
         (r : R) (net' : list (netStep R)) (w' : world R),
    Forall (fun step => 0 <= ns_elapsed step) net ->
    cache_lookup (cache_key JSON_stringify method p) w = None ->
    run net method p w = (Return r, (net', w')) ->
    rl_lastCall (svc w') = clock w'
    /\ rl_delay (svc w') = rl_delay (svc w)
    /\ clock w <= clock w'
    /\ rl_lastCall (svc w) + rl_delay (svc w) <= clock w'
    /\ (length net' < length net)%nat
    /\ exists now,
         clock w <= now <= clock w'
         /\ cache (svc w')
            = map_set string_dec (cache_key JSON_stringify method p)
                {| ce_data := r; ce_timestamp := now |} (cache (svc w)).
Proof.
  subst run.
  induction net as [|step net IH]; intros method p w r net' w' Hpos Hc;
    cbn [callMethod_run]; rewrite Hc.
  - destruct (encode_params p); discriminate.
  - destruct (encode_params p) as [e|query]; [discriminate|].
    inversion Hpos as [|? ? Hstep Hrest]; subst.
    pose proof (clock_await_rate_limit w) as [Hclk Hgap].
    pose proof (svc_await_rate_limit w) as Hsvc.
    destruct (check_response (ns_outcome step)) as [e|data].
    + destruct (includes (message e) quota_marker); [|discriminate].
      intros H. apply IH in H; [|exact Hrest|].
      * cbn [delay elapse log_fetch svc clock] in H. rewrite Hsvc in H.
        destruct H as (H1 & H2 & H3 & H4 & H5 & now & H6 & H7).
        repeat split; try assumption; try lia.
        -- cbn [length]. lia.
        -- exists now. split; [lia | exact H7].
      * apply cache_lookup_later with (w := w); [| |exact Hc].
        -- cbn [delay elapse log_fetch svc]. exact Hsvc.
        -- cbn [delay elapse log_fetch clock]. lia.
    + intros H. inversion H; subst.
      cbn [record_success elapse log_fetch svc clock rl_lastCall rl_delay cache].
      rewrite Hsvc.
      repeat split; try lia.
      * cbn [length]. lia.
      * exists (clock w). split; [lia | reflexivity].
Qed.
(** Round trips that all fail on the quota, met by a call that finds no
    fresh entry in the cache: each is followed by a wait of two seconds and
    a new attempt, which finds no fresh entry either. *)
Lemma callMethod_run_retries_stale (method : string) (p : params)
  (query : list (string * string)) (fails : list (netStep R)) :
  forall (net : list (netStep R)) (w : world R),
    cache_lookup (cache_key JSON_stringify method p) w = None ->
    encode_params p = inr query ->
    Forall (fun s => exists e, check_response (ns_outcome s) = inl e
                               /\ includes (message e) quota_marker = true) fails ->
    Forall (fun s => 0 <= ns_elapsed s) fails ->
    let w' := fold_left (fun w0 s => delay 2000 (failed_attempt method query s w0))
                fails w in
    run (fails ++ net) method p w = run net method p w'
    /\ cache_lookup (cache_key JSON_stringify method p) w' = None
    /\ clock w + 2000 * Z.of_nat (length fails) <= clock w'.
Proof.
  subst run.
  induction fails as [|s fails IH]; intros net w Hc Hq Hf Hpos;
    [cbn [fold_left app length]; repeat split; [exact Hc | lia]|].
  inversion Hf as [|? ? (e & He & Hm) Hf']; subst.
  inversion Hpos as [|? ? Hs Hpos']; subst.
  pose proof (clock_await_rate_limit w) as [Hclk _].
  assert (Hc' : cache_lookup (cache_key JSON_stringify method p)
                  (delay 2000 (failed_attempt method query s w)) = None).
  { apply cache_lookup_later with (w := w); [| |exact Hc].
    - unfold failed_attempt. cbn [delay elapse log_fetch svc].
      apply svc_await_rate_limit.
    - unfold failed_attempt. cbn [delay elapse log_fetch clock]. lia. }
  destruct (IH net (delay 2000 (failed_attempt method query s w)) Hc' Hq Hf' Hpos')
    as (I1 & I2 & I3).
  cbn [app fold_left callMethod_run]. rewrite Hc, Hq, He, Hm.
  split; [exact I1|]. split; [exact I2|].
  assert (Hstep : clock w + 2000 <= clock (delay 2000 (failed_attempt method query s w)))
    by (unfold failed_attempt; cbn [delay elapse log_fetch clock]; lia).
  cbn [length]. lia.
Qed.
End CacheFacts.

(** X1.  A call that is answered by the network stores the payload under
    the key of its method and parameters, stamped with the time at which
    the attempt that was answered began: the time at which the call began
    when its first round trip is answered, and a later time, by at least
    2000 ms for each of them, when quota failures came before the answer.
    From then on, and until 300000 ms after that time, the same call is
    answered with the stored payload at once: no wait, no request, no round
    trip used, nothing written.  Once 300000 ms have passed since that time
    the stored payload is no longer served. *)
Theorem callMethod_serves_repeat_from_cache :
  forall (R : Type) (JSON_stringify : params -> string)
         (fails net : list (netStep R)) (step : netStep R) (method : string) (p : params)
         (query : list (string * string)) (data : apiData R) (w : world R),
    cache_lookup (cache_key JSON_stringify method p) w = None ->
    encode_params p = inr query ->
    Forall (fun s => exists e, check_response (ns_outcome s) = inl e
                               /\ includes (message e) quota_marker = true) fails ->
    Forall (fun s => 0 <= ns_elapsed s) fails ->
    check_response (ns_outcome step) = inr data ->
    let began :=
      clock (fold_left (fun w0 s => delay 2000 (failed_attempt method query s w0))
               fails w) in
    exists w1 : world R,
      callMethod_run JSON_stringify (fails ++ step :: net) method p w
      = (Return (d_result data), (net, w1))
      /\ map_get string_dec (cache_key JSON_stringify method p) (cache (svc w1))
         = Some {| ce_data := d_result data; ce_timestamp := began |}
      /\ clock w + 2000 * Z.of_nat (length fails) <= began
      /\ (fails = [] -> began = clock w)
      /\ forall (net2 : list (netStep R)) (w2 : world R),
           svc w2 = svc w1 ->
           (clock w2 - began < 300000 ->
            callMethod_run JSON_stringify net2 method p w2
            = (Return (d_result data), (net2, w2)))
           /\ (300000 <= clock w2 - began ->
               cache_lookup (cache_key JSON_stringify method p) w2 = None).
Proof.
  intros R js fails net step method p query data w Hc Hq Hf Hpos Hd began.
  destruct (callMethod_run_retries_stale R js method p query fails (step :: net) w
              Hc Hq Hf Hpos) as (Hrun & Hc1 & Hclock).
  fold began in Hclock.
  eexists. split; [rewrite Hrun; cbn [callMethod_run]; rewrite Hc1, Hq, Hd; reflexivity|].
  cbn [record_success svc cache]. split; [apply map_get_set_eq|].
  split; [exact Hclock|]. split; [intros ->; reflexivity|].
  intros net2 w2 Hsvc.
  assert (Hget : map_get string_dec (cache_key js method p) (cache (svc w2))
                 = Some {| ce_data := d_result data; ce_timestamp := began |}).
  { rewrite Hsvc. cbn [record_success svc cache]. apply map_get_set_eq. }
  split; intros Hage.
  - apply callMethod_run_hit. unfold cache_lookup. rewrite Hget. cbn [ce_timestamp ce_data].
    destruct (Z.ltb_spec (clock w2 - began) 300000); [reflexivity | lia].
  - unfold cache_lookup. rewrite Hget. cbn [ce_timestamp].
    destruct (Z.ltb_spec (clock w2 - began) 300000); [lia | reflexivity].
Qed.

(** A successful round trip of 120 ms. *)
Definition ok_step (result : Z) : netStep Z :=
  {| ns_elapsed := 120;
     ns_outcome :=
       FetchResponse true 200
         (BodyData {| d_error := JUndefined; d_error_description := JUndefined;
                      d_result := result |}) |}.

(** A round trip of 120 ms that fails on the quota. *)
Definition quota_failure : netStep Z :=
  {| ns_elapsed := 120;
     ns_outcome :=
       FetchResponse true 200
         (BodyData {| d_error := JStr "QUERY_LIMIT_EXCEEDED";
                      d_error_description := JUndefined; d_result := 0 |}) |}.

Definition start_world : world Z :=
  {| svc := new_service Z; clock := 1700000000000; trace := [] |}.

Lemma callMethod_serves_repeat_from_cache_witness :
  exists w1 : world Z,
    callMethod_run (fun _ => "{}"%string) ([quota_failure] ++ [ok_step 7]) "user.get" []
      start_world
    = (Return 7, ([], w1))
    /\ map_get string_dec (cache_key (fun _ => "{}"%string) "user.get" []) (cache (svc w1))
       = Some {| ce_data := 7; ce_timestamp := 1700000002120 |}
    /\ forall (net2 : list (netStep Z)) (w2 : world Z),
         svc w2 = svc w1 ->
         (clock w2 - 1700000002120 < 300000 ->
          callMethod_run (fun _ => "{}"%string) net2 "user.get" [] w2 = (Return 7, (net2, w2)))
         /\ (300000 <= clock w2 - 1700000002120 ->
             cache_lookup (cache_key (fun _ => "{}"%string) "user.get" []) w2 = None).
Proof.
  assert (Hf : Forall (fun s : netStep Z =>
                         exists e, check_response (ns_outcome s) = inl e
                                   /\ includes (message e) quota_marker = true)
                 [quota_failure])
    by (repeat constructor; exists {| message := "QUERY_LIMIT_EXCEEDED" |};
        split; reflexivity).
  assert (Hpos : Forall (fun s : netStep Z => 0 <= ns_elapsed s) [quota_failure])
    by (repeat constructor; cbn; lia).
  destruct (callMethod_serves_repeat_from_cache Z (fun _ => "{}"%string)
              [quota_failure] [] (ok_step 7) "user.get" [] []
              {| d_error := JUndefined; d_error_description := JUndefined; d_result := 7 |}
              start_world eq_refl eq_refl Hf Hpos eq_refl)
    as (w1 & Hrun & Hget & _ & _ & Hlater).
  exists w1. split; [exact Hrun|]. split; [exact Hget|]. exact Hlater.
Defined.

(** X2.  A call returns in one of two ways.  From the cache: then the
    instance, the clock, the events and the network are as before.  Or from
    the network: then at least one round trip was used, the payload is
    cached, the completion time is recorded as the last-call time, and that
    time lies at least the minimum interval after the last-call time
    recorded before, the interval itself being unchanged. *)
Theorem callMethod_keeps_minimum_interval :
  forall (R : Type) (JSON_stringify : params -> string)
         (net : list (netStep R)) (method : string) (p : params) (w : world R)
         (r : R) (net' : list (netStep R)) (w' : world R),
    Forall (fun step => 0 <= ns_elapsed step) net ->
    callMethod_run JSON_stringify net method p w = (Return r, (net', w')) ->
    (cache_lookup (cache_key JSON_stringify method p) w = Some r /\ net' = net /\ w' = w)
    \/ (cache_lookup (cache_key JSON_stringify method p) w = None
        /\ (length net' < length net)%nat
        /\ rl_lastCall (svc w') = clock w'
        /\ rl_lastCall (svc w) + rl_delay (svc w) <= rl_lastCall (svc w')
        /\ rl_delay (svc w') = rl_delay (svc w)
        /\ exists now : Z,
             clock w <= now <= clock w'
             /\ map_get string_dec (cache_key JSON_stringify method p) (cache (svc w'))
                = Some {| ce_data := r; ce_timestamp := now |}).
Proof.
  intros R js net method p w r net' w' Hpos Hrun.
  destruct (cache_lookup (cache_key js method p) w) as [data|] eqn:Hc.
  - left. rewrite (callMethod_run_hit R js net method p w data Hc) in Hrun.
    inversion Hrun; subst. now repeat split.
  - right. split; [reflexivity|].
    destruct (callMethod_run_miss R js net method p w r net' w' Hpos Hc Hrun)
      as (H1 & H2 & H3 & H4 & H5 & now & H6 & H7).
    repeat split; try assumption; try lia.
    exists now. split; [exact H6|]. rewrite H7. apply map_get_set_eq.
Qed.

Lemma callMethod_keeps_minimum_interval_witness :
  let js := fun _ : params => "{}"%string in
  let w' := record_success "user.get-{}" 1700000000000 7
              (elapse 120 (log_fetch (request_of "user.get" []) start_world)) in
  (cache_lookup (cache_key js "user.get" []) start_world = Some 7
   /\ @nil (netStep Z) = [ok_step 7] /\ w' = start_world)
  \/ (cache_lookup (cache_key js "user.get" []) start_world = None
      /\ (length (@nil (netStep Z)) < length [ok_step 7])%nat
      /\ rl_lastCall (svc w') = clock w'
      /\ rl_lastCall (svc start_world) + rl_delay (svc start_world) <= rl_lastCall (svc w')
      /\ rl_delay (svc w') = rl_delay (svc start_world)
      /\ exists now : Z,
           clock start_world <= now <= clock w'
           /\ map_get string_dec (cache_key js "user.get" []) (cache (svc w'))
              = Some {| ce_data := 7; ce_timestamp := now |}).
Proof.
  intros js w'.
  apply (callMethod_keeps_minimum_interval Z js [ok_step 7] "user.get" [] start_world 7 [] w').
  - repeat constructor. simpl. lia.
  - reflexivity.
Defined.

(** What a call leaves of the instance, whatever its outcome. *)
Lemma callMethod_run_cache :
  forall (R : Type) (JSON_stringify : params -> string)
         (net : list (netStep R)) (method : string) (p : params) (w : world R),
    let w' := snd (snd (callMethod_run JSON_stringify net method p w)) in
    rl_delay (svc w') = rl_delay (svc w)
    /\ forall k : string,
         (k <> cache_key JSON_stringify method p ->
          map_get string_dec k (cache (svc w')) = map_get string_dec k (cache (svc w)))
         /\ (map_has string_dec k (cache (svc w)) = true ->
             map_has string_dec k (cache (svc w')) = true).
Proof.
  intros R JSON_stringify net.
  induction net as [|step net IH]; intros method p w; cbn [callMethod_run].
  - destruct (cache_lookup _ w); [now split|].
    destruct (encode_params p); cbn [snd log_fetch svc];
      rewrite svc_await_rate_limit; now split.
  - destruct (cache_lookup _ w); [now split|].
    destruct (encode_params p) as [e|query];
      [cbn [snd]; rewrite svc_await_rate_limit; now split|].
    destruct (check_response (ns_outcome step)) as [e|data].
    + destruct (includes (message e) quota_marker).
      * specialize (IH method p
                      (delay 2000 (elapse (ns_elapsed step)
                         (log_fetch (request_of method query) (await_rate_limit w))))).
        cbn [delay elapse log_fetch svc] in IH. rewrite svc_await_rate_limit in IH.
        exact IH.
      * cbn [snd elapse log_fetch svc]. rewrite svc_await_rate_limit. now split.
    + cbn [snd record_success elapse log_fetch svc rl_delay cache].
      rewrite svc_await_rate_limit. split; [reflexivity|]. intros k. split.
      * intros Hk. now apply map_get_set_neq.
      * unfold map_has. intros Hk.
        destruct (string_dec k (cache_key JSON_stringify method p)) as [->|Hne].
        -- now rewrite map_get_set_eq.
        -- now rewrite map_get_set_neq.
Qed.

(** X3.  Whatever its outcome, a call leaves the minimum interval as it
    was and the cache entries under every other key untouched, and a key
    that was cached before the call is cached after it: the cache never
    loses an entry. *)
Theorem callMethod_never_evicts :
  forall (R : Type) (JSON_stringify : params -> string)
         (net : list (netStep R)) (method : string) (p : params) (w : world R),
    let w' := snd (snd (callMethod_run JSON_stringify net method p w)) in
    rl_delay (svc w') = rl_delay (svc w)
    /\ forall k : string,
         (k <> cache_key JSON_stringify method p ->
          map_get string_dec k (cache (svc w')) = map_get string_dec k (cache (svc w)))
         /\ (map_has string_dec k (cache (svc w)) = true ->
             map_has string_dec k (cache (svc w')) = true).
Proof. exact callMethod_run_cache. Qed.

(* ================================================================== *)
(** * ApiAccessLayer: which failures are tried again                    *)
(* ================================================================== *)

Fixpoint has_Q (s : string) : bool :=
  match s with
  | EmptyString => false
  | String c r => (c =? "Q")%char || has_Q r
  end.

Lemma has_Q_append (a b : string) : has_Q (a ++ b) = has_Q a || has_Q b.
Proof.
  induction a as [|c a IH]; cbn [append has_Q]; [reflexivity|].
  now rewrite IH, orb_assoc.
Qed.

Lemma has_Q_uint (d : Decimal.uint) : has_Q (NilEmpty.string_of_uint d) = false.
Proof. induction d; cbn [NilEmpty.string_of_uint has_Q]; [reflexivity|..]; exact IHd. Qed.

Lemma has_Q_Z_to_string (z : Z) : has_Q (Z_to_string z) = false.
Proof.
  assert (H : forall d, has_Q (NilZero.string_of_uint d) = false).
  { intros d. unfold NilZero.string_of_uint. destruct d; try reflexivity; apply has_Q_uint. }
  unfold Z_to_string, NilZero.string_of_int.
  destruct (Z.to_int z) as [d|d]; [apply H|]. cbn [has_Q]. apply H.
Qed.

(** A message without the letter Q does not carry the quota marker. *)
Lemma no_Q_no_marker (s : string) : has_Q s = false -> includes s quota_marker = false.
Proof.
  induction s as [|c s IH]; [reflexivity|].
  cbn [has_Q]. intros H. apply orb_false_iff in H as [Hc Hs].
  cbn [includes]. rewrite (IH Hs), orb_false_r.
  unfold quota_marker. cbn [prefix].
  destruct (ascii_dec "Q" c) as [E|E]; [|reflexivity].
  subst c. discriminate.
Qed.

Definition count_fetches (R : Type) (w : world R) : nat :=
  length (filter (fun ev => match ev with EvFetch _ => true | EvDelay _ => false end)
            (trace w)).

Section Retries.
Variable R : Type.
Variable JSON_stringify : params -> string.

Let retry (method : string) (query : list (string * string)) :=
  fun (w : world R) (step : netStep R) => delay 2000 (failed_attempt method query step w).

Lemma count_fetches_await (w : world R) :
  count_fetches R (await_rate_limit w) = count_fetches R w.
Proof.
  unfold await_rate_limit, count_fetches. destruct (_ <? _); [|reflexivity].
  cbn [delay trace]. rewrite filter_app. cbn [filter]. now rewrite app_nil_r.
Qed.

(** What a row of quota failures leaves: as many requests, as many waits
    of two seconds, the instance untouched. *)
Lemma retries_world (method : string) (query : list (string * string))
  (fails : list (netStep R)) :
  forall w : world R,
    Forall (fun step => 0 <= ns_elapsed step) fails ->
    let w' := fold_left (retry method query) fails w in
    svc w' = svc w
    /\ count_fetches R w' = (count_fetches R w + length fails)%nat
    /\ clock w + 2000 * Z.of_nat (length fails) <= clock w'.
Proof.
  induction fails as [|step fails IH]; intros w Hpos; cbn [fold_left length].
  - repeat split; lia.
  - inversion Hpos as [|? ? Hstep Hrest]; subst.
    specialize (IH (retry method query w step) Hrest). cbv zeta in IH.
    destruct IH as (I1 & I2 & I3).
    assert (Hw : svc (retry method query w step) = svc w
                 /\ count_fetches R (retry method query w step) = S (count_fetches R w)
                 /\ clock w + 2000 <= clock (retry method query w step)).
    { subst retry. unfold failed_attempt. cbn [delay elapse log_fetch svc clock].
      pose proof (clock_await_rate_limit R w) as [Hclk _].
      split; [apply svc_await_rate_limit|]. split; [|lia].
      unfold count_fetches. cbn [delay elapse log_fetch trace].
      rewrite !filter_app. cbn [filter]. rewrite app_nil_r, length_app.
      fold (count_fetches R (await_rate_limit w)). rewrite count_fetches_await.
      cbn [length]. fold (count_fetches R w). lia. }
    destruct Hw as (W1 & W2 & W3).
    split; [congruence|]. split; lia.
Qed.
End Retries.

(** X4.  Which failures are tried again.  A response that is not ok, with
    whatever status, 429 and 503 among them, is thrown at once as an HTTP
    error and never tried again: its message cannot carry the quota marker.
    After a row of quota failures, the first answer that carries data is
    returned: with n failures before it, n + 1 requests have been made and,
    round trips taking no negative time, at least 2000 n ms have passed. *)
Theorem callMethod_returns_first_answer_after_quota_failures :
  forall (R : Type) (JSON_stringify : params -> string)
         (fails rest : list (netStep R)) (step : netStep R) (method : string)
         (p : params) (query : list (string * string)) (w : world R),
    map_get string_dec (cache_key JSON_stringify method p) (cache (svc w)) = None ->
    encode_params p = inr query ->
    Forall (fun s => exists e, check_response (ns_outcome s) = inl e
                               /\ includes (message e) quota_marker = true) fails ->
    Forall (fun s => 0 <= ns_elapsed s) fails ->
    (forall (status : Z) (body : bodyOutcome R),
        ns_outcome step = FetchResponse false status body ->
        exists w' : world R,
          callMethod_run JSON_stringify (fails ++ step :: rest) method p w
          = (Throw {| message := "HTTP error! status: " ++ Z_to_string status |},
             (rest, w'))
          /\ svc w' = svc w
          /\ count_fetches R w' = (count_fetches R w + length fails + 1)%nat)
    /\ (forall data : apiData R,
          check_response (ns_outcome step) = inr data ->
          exists w' : world R,
            callMethod_run JSON_stringify (fails ++ step :: rest) method p w
            = (Return (d_result data), (rest, w'))
            /\ count_fetches R w' = (count_fetches R w + length fails + 1)%nat
            /\ (0 <= ns_elapsed step ->
                clock w + 2000 * Z.of_nat (length fails) <= clock w')).
Proof.
  intros R js fails rest step method p query w Hc Hq Hf Hpos.
  pose proof (@callMethod_run_retries R js fails (step :: rest) method p query w Hc Hq Hf)
    as Hrun.
  destruct (retries_world R method query fails w Hpos) as (S1 & S2 & S3).
  set (w1 := fold_left (fun w0 s => delay 2000 (failed_attempt method query s w0)) fails w)
    in *.
  assert (Hc1 : cache_lookup (cache_key js method p) w1 = None)
    by (unfold cache_lookup; now rewrite S1, Hc).
  assert (Hcount : forall w2 : world R,
             count_fetches R w2
             = count_fetches R (log_fetch (request_of method query) (await_rate_limit w1)) ->
             count_fetches R w2 = (count_fetches R w + length fails + 1)%nat).
  { intros w2 ->. unfold count_fetches at 1. cbn [log_fetch trace].
    rewrite filter_app, length_app. fold (count_fetches R (await_rate_limit w1)).
    rewrite count_fetches_await, S2. cbn [filter length]. lia. }
  split.
  - intros status body Hstep. eexists. split; [|split].
    + rewrite Hrun. cbn [callMethod_run]. rewrite Hc1, Hq, Hstep.
      cbn [check_response negb].
      rewrite no_Q_no_marker; [reflexivity|].
      cbn [message]. rewrite has_Q_append, has_Q_Z_to_string. reflexivity.
    + cbn [elapse log_fetch svc]. now rewrite svc_await_rate_limit.
    + apply Hcount. reflexivity.
  - intros data Hd. eexists. split; [|split].
    + rewrite Hrun. cbn [callMethod_run]. rewrite Hc1, Hq, Hd. reflexivity.
    + apply Hcount. reflexivity.
    + intros Hstep. cbn [record_success elapse log_fetch clock].
      pose proof (clock_await_rate_limit R w1) as [Hclk _]. lia.
Qed.

(** A gateway error, after 50 ms. *)
Definition bad_gateway : netStep unit :=
  {| ns_elapsed := 50;
     ns_outcome := FetchResponse false 503 (BodyInvalid unit "Bad Gateway") |}.

Lemma callMethod_returns_first_answer_after_quota_failures_witness :
  exists w' : world unit,
    callMethod_run (fun _ => "{}"%string) ([quota_step; quota_step] ++ [bad_gateway])
      "user.get" [] fresh_world
    = (Throw {| message := "HTTP error! status: " ++ Z_to_string 503 |}, ([], w'))
    /\ svc w' = svc fresh_world
    /\ count_fetches unit w' = (count_fetches unit fresh_world + 2 + 1)%nat.
Proof.
  refine (proj1 (callMethod_returns_first_answer_after_quota_failures unit
                   (fun _ => "{}"%string) [quota_step; quota_step] [] bad_gateway
                   "user.get" [] [] fresh_world eq_refl eq_refl _ _)
            503 (BodyInvalid unit "Bad Gateway") eq_refl).
  - repeat constructor; exists {| message := "QUERY_LIMIT_EXCEEDED" |}; split; reflexivity.
  - repeat constructor; cbn; lia.
Defined.

(* ================================================================== *)
(** * ApiAccessLayer: the query string                                  *)
(* ================================================================== *)

Lemma Z_to_string_nonempty (z : Z) : Z_to_string z <> ""%string.
Proof.
  intros H. pose proof (Z_to_string_read z) as Hr. rewrite H in Hr. discriminate.
Qed.

Lemma ToString_present (v : jsval) : present v = true -> ToString v <> ""%string.
Proof.
  destruct v as [| |[|]|z|s]; simpl; try discriminate.
  - intros _. apply Z_to_string_nonempty.
  - intros H E. subst s. discriminate.
Qed.

(** The keys [encode_param] can emit for a parameter. *)
Inductive query_key (p : params) : string -> Prop :=
| qk_scalar key v : In (key, PScalar v) p -> query_key p key
| qk_filter v inner : In ("filter"%string, v) p ->
                      query_key p ("filter[" ++ inner ++ "]")%string
| qk_select v i : In ("select"%string, v) p ->
                  query_key p ("select[" ++ Z_to_string i ++ "]")%string.

Lemma encode_param_entries (key : string) (v : pval) (q : list (string * string))
  (k s : string) :
  encode_param key v = inr q -> In (k, s) q ->
  (exists x, v = PScalar x /\ k = key /\ s <> ""%string)
  \/ (key = "filter"%string /\ (exists inner, k = ("filter[" ++ inner ++ "]")%string)
      /\ s <> ""%string)
  \/ (key = "select"%string /\ exists i, k = ("select[" ++ Z_to_string i ++ "]")%string).
Proof.
  unfold encode_param. intros Hq Hin.
  destruct v as [x|fields|items].
  - left. exists x. split; [reflexivity|].
    assert (Hx : q = if present x then [(key, ToString x)] else [])
      by (destruct x; cbn [present] in Hq |- *; try destruct (negb _);
          inversion Hq; reflexivity).
    subst q. destruct (present x) eqn:Hp; [|contradiction].
    destruct Hin as [E|[]]. inversion E; subst. split; [reflexivity|].
    now apply ToString_present.
  - destruct (String.eqb_spec key "filter"%string) as [->|Hnf].
    + right. left. split; [reflexivity|]. inversion Hq; subst q.
      apply in_flat_map in Hin as ([fk fv] & _ & Hin).
      destruct (present fv) eqn:Hp; [|contradiction].
      destruct Hin as [E|[]]. inversion E; subst.
      split; [now exists fk | now apply ToString_present].
    + destruct (key =? "select")%string; [discriminate|].
      inversion Hq; subst. contradiction.
  - destruct (String.eqb_spec key "filter"%string) as [->|Hnf].
    + right. left. split; [reflexivity|]. inversion Hq; subst q.
      apply in_flat_map in Hin as ([i fv] & _ & Hin).
      destruct (present fv) eqn:Hp; [|contradiction].
      destruct Hin as [E|[]]. inversion E; subst.
      split; [now exists (Z_to_string i) | now apply ToString_present].
    + destruct (String.eqb_spec key "select"%string) as [->|Hns].
      * right. right. split; [reflexivity|]. inversion Hq; subst q.
        apply in_map_iff in Hin as ([i f] & E & _). inversion E; subst. now exists i.
      * inversion Hq; subst. contradiction.
Qed.

Lemma encode_params_entries (p : params) :
  forall (q : list (string * string)) (k s : string),
    encode_params p = inr q -> In (k, s) q ->
    exists key v,
      In (key, v) p
      /\ ((exists x, v = PScalar x /\ k = key /\ s <> ""%string)
          \/ (key = "filter"%string
              /\ (exists inner, k = ("filter[" ++ inner ++ "]")%string)
              /\ s <> ""%string)
          \/ (key = "select"%string
              /\ exists i, k = ("select[" ++ Z_to_string i ++ "]")%string)).
Proof.
  induction p as [|[key v] r IH]; intros q k s; cbn [encode_params].
  - intros H. inversion H; subst. contradiction.
  - destruct (encode_param key v) as [e|here] eqn:E; [discriminate|].
    destruct (encode_params r) as [e|rest]; [discriminate|].
    intros H Hin. inversion H; subst q. apply in_app_or in Hin as [Hin|Hin].
    + exists key, v. split; [now left|]. eapply encode_param_entries; eauto.
    + destruct (IH rest k s eq_refl Hin) as (key' & v' & Hp & Hk).
      exists key', v'. split; [now right | exact Hk].
Qed.

Lemma encode_param_fails (key : string) (v : pval) :
  (exists e, encode_param key v = inl e)
  <-> key = "select"%string /\ exists fields, v = PObject fields.
Proof.
  unfold encode_param. split.
  - intros [e H]. destruct v as [x|fields|items].
    + destruct x; try discriminate; destruct (present _); discriminate.
    + destruct (key =? "filter")%string; [discriminate|].
      destruct (String.eqb_spec key "select"%string); [|discriminate].
      split; [assumption | now exists fields].
    + destruct (key =? "filter")%string; [discriminate|].
      destruct (key =? "select")%string; discriminate.
  - intros [-> [fields ->]]. eexists. reflexivity.
Qed.

(** X5.  Building the query fails in one case only: a [select] parameter
    that is an object and not an array; the error is then the type error of
    the missing [forEach].  When it does not fail, every entry of the query
    comes from a scalar parameter, under the key of the parameter, from a
    field of [filter], under [filter[...]], or from an item of [select],
    under [select[...]]; and no entry outside [select] has an empty
    value. *)
Theorem encode_params_total_but_for_select_object :
  forall p : params,
    ((exists e : error, encode_params p = inl e)
     <-> exists fields, In ("select"%string, PObject fields) p)
    /\ (forall e : error,
          encode_params p = inl e ->
          message e = "params[key].forEach is not a function"%string)
    /\ (forall (q : list (string * string)) (k s : string),
          encode_params p = inr q -> In (k, s) q ->
          query_key p k
          /\ (s = ""%string -> exists i, k = ("select[" ++ Z_to_string i ++ "]")%string)).
Proof.
  intros p. split; [|split].
  - induction p as [|[key v] r IH]; cbn [encode_params].
    + split; [intros [e H]; discriminate | intros [fields []]].
    + destruct (encode_param key v) as [e|here] eqn:E.
      * split; [|intros _; now exists e].
        intros _. destruct (proj1 (encode_param_fails key v)) as [-> [fields ->]];
          [now exists e|]. exists fields. now left.
      * destruct (encode_params r) as [e|rest].
        -- split; [|intros _; now exists e].
           intros _. destruct (proj1 IH) as [fields H]; [now exists e|].
           exists fields. now right.
        -- split; [intros [e H]; discriminate|].
           intros [fields [H|H]].
           ++ inversion H; subst.
              destruct (proj2 (encode_param_fails "select" (PObject fields))) as [e He];
                [split; [reflexivity | now exists fields]|]. congruence.
           ++ destruct (proj2 IH) as [e He]; [now exists fields | discriminate].
  - induction p as [|[key v] r IH]; cbn [encode_params]; [discriminate|].
    intros e. destruct (encode_param key v) as [e'|here] eqn:E.
    + intros H. inversion H; subst e'.
      destruct (proj1 (encode_param_fails key v)) as [-> [fields ->]]; [now exists e|].
      cbn in E. inversion E. reflexivity.
    + destruct (encode_params r) as [e'|rest]; [|discriminate].
      intros H. inversion H; subst. now apply IH.
  - intros q k s Hq Hin.
    destruct (encode_params_entries p q k s Hq Hin)
      as (key & v & Hp & [(x & -> & -> & Hs)|[(-> & (inner & ->) & Hs)|(-> & i & ->)]]).
    + split; [now apply qk_scalar with (v := x) | intros E; now destruct Hs].
    + split; [now apply qk_filter with (v := v) | intros E; now destruct Hs].
    + split; [now apply qk_select with (v := v) | intros _; now exists i].
Qed.

(** A scalar parameter that is present reaches the query. *)
Lemma encode_params_scalar (p : params) :
  forall (q : list (string * string)) (key : string) (x : jsval),
    encode_params p = inr q -> In (key, PScalar x) p -> present x = true ->
    In (key, ToString x) q.
Proof.
  induction p as [|[key' v] r IH]; intros q key x; cbn [encode_params]; [contradiction|].
  destruct (encode_param key' v) as [e|here] eqn:E; [discriminate|].
  destruct (encode_params r) as [e|rest]; [discriminate|].
  intros H [Hin|Hin] Hp; inversion H; subst q; apply in_or_app.
  - left. inversion Hin; subst. unfold encode_param in E.
    destruct x; try discriminate Hp; rewrite Hp in E; inversion E; now left.
  - right. now apply (IH rest key x).
Qed.

Lemma page_params_NoDup (p : params) (start : Z) :
  NoDup (map_keys p) -> NoDup (map_keys (page_params p start)).
Proof. intros H. unfold page_params. now repeat apply map_set_NoDup. Qed.

(** X6.  The request for a page of tasks carries the offset, [start], and
    never an ordering: the [order] object handed over by [getTasks] is
    dropped while the query is built, so that the order of the pages is left
    to the service. *)
Theorem page_request_carries_start_but_no_order :
  forall (p : params) (start : Z) (q : list (string * string)),
    NoDup (map_keys p) ->
    encode_params (page_params p start) = inr q ->
    In ("start"%string, Z_to_string start) q
    /\ (forall k s : string, In (k, s) q -> k <> "order"%string)
    /\ map_get string_dec "order" (page_params p start)
       = Some (PObject [("ID"%string, JStr "ASC")]).
Proof.
  intros p start q Hnd Hq. split; [|split].
  - apply (encode_params_scalar (page_params p start) q "start" (JInt start) Hq);
      [|reflexivity].
    apply (map_get_Some_In string_dec). apply page_params_start.
  - intros k s Hin Hk. subst k.
    destruct (encode_params_entries _ _ _ _ Hq Hin)
      as (key & v & Hp & [(x & -> & <- & _)|[(_ & (inner & E) & _)|(_ & i & E)]]).
    + apply (map_get_In string_dec) in Hp; [|now apply page_params_NoDup].
      rewrite page_params_order in Hp. discriminate.
    + discriminate.
    + discriminate.
  - apply page_params_order.
Qed.

Lemma page_request_carries_start_but_no_order_witness :
  Forall (fun entry : string * string => fst entry <> "order"%string)
    [("filter[GROUP_ID]", "10"); ("select[0]", "ID"); ("start", "50")]%string.
Proof.
  apply Forall_forall. intros [k s] Hin.
  exact (proj1 (proj2 (page_request_carries_start_but_no_order
                         [("filter"%string, PObject [("GROUP_ID"%string, JStr "10")]);
                          ("select"%string, PArray [JStr "ID"])] 50
                         [("filter[GROUP_ID]", "10"); ("select[0]", "ID");
                          ("start", "50")]%string
                         ltac:(repeat constructor; simpl; intuition discriminate)
                         eq_refl)) k s Hin).
Defined.

(* ================================================================== *)
(** * DomainQueries: bounds of [getTasks]                               *)
(* ================================================================== *)

(** [callMethod] with a count of the calls made. *)
Definition counted (W R : Type) (callMethod : string -> params -> Async W R)
  : string -> params -> Async (nat * W) R :=
  fun method p '(n, w) =>
    let '(o, w') := callMethod method p w in (o, (S n, w')).

Section GetTasksBounds.
Variables W R : Type.
Variable callMethod : string -> params -> Async W R.
Variable result_tasks : R -> option (list task).

Lemma getTasks_loop_counted (p : params) (fuel : nat) :
  forall (acc : list task) (start : Z) (n : nat) (w : W),
    let '(o, (n', w')) :=
      getTasks_loop (counted W R callMethod) result_tasks fuel p acc start (n, w) in
    getTasks_loop callMethod result_tasks fuel p acc start w = (o, w')
    /\ (n <= n' <= n + fuel)%nat
    /\ (fuel <> O -> n < n')%nat.
Proof.
  induction fuel as [|fuel IH]; intros acc start n w; cbn [getTasks_loop].
  - repeat split; lia.
  - unfold bind, counted at 1.
    destruct (callMethod "tasks.task.list" (page_params p start) w) as [[r|e|] w1];
      [|repeat split; lia..].
    destruct (result_tasks r) as [page|]; [|unfold ret; repeat split; lia].
    destruct (Z.of_nat (length page) <? limit); [unfold ret; repeat split; lia|].
    destruct (start + limit >=? 1000); [unfold ret; repeat split; lia|].
    specialize (IH (acc ++ page) (start + limit) (S n) w1).
    destruct (getTasks_loop (counted W R callMethod) result_tasks fuel p (acc ++ page)
                (start + limit) (S n, w1)) as [o [n' w']].
    destruct IH as (H1 & H2 & H3). repeat split; [exact H1 | lia..].
Qed.

(** The records gathered stay within 50 for each turn allowed when no page
    is longer than that. *)
Lemma getTasks_loop_length (p : params) (fuel : nat) :
  (forall method q w r w' page,
      callMethod method q w = (Return r, w') -> result_tasks r = Some page ->
      (length page <= 50)%nat) ->
  forall (acc : list task) (start : Z) (w : W) (tasks : list task) (w' : W),
    getTasks_loop callMethod result_tasks fuel p acc start w = (Return tasks, w') ->
    (length tasks <= length acc + 50 * fuel)%nat.
Proof.
  intros Hpage.
  induction fuel as [|fuel IH]; intros acc start w tasks w'; cbn [getTasks_loop];
    [discriminate|].
  unfold bind.
  destruct (callMethod "tasks.task.list" (page_params p start) w) as [[r|e|] w1] eqn:Ec;
    [|discriminate..].
  destruct (result_tasks r) as [page|] eqn:Er.
  - pose proof (Hpage _ _ _ _ _ _ Ec Er) as Hlen.
    destruct (Z.of_nat (length page) <? limit);
      [unfold ret; intros H; inversion H; subst; rewrite length_app; lia|].
    destruct (start + limit >=? 1000);
      [unfold ret; intros H; inversion H; subst; rewrite length_app; lia|].
    intros H. apply IH in H. rewrite length_app in H. lia.
  - unfold ret. intros H. inversion H; subst. lia.
Qed.
End GetTasksBounds.

(** X7.  One query for tasks makes at least one and at most twenty calls of
    the API method, whatever the service answers; counting the calls does
    not change the outcome. *)
Theorem getTasks_makes_at_most_twenty_calls :
  forall (W R : Type) (callMethod : string -> params -> Async W R)
         (result_tasks : R -> option (list task)) (p : params) (n : nat) (w : W),
    let '(o, (n', w')) := getTasks (counted W R callMethod) result_tasks p (n, w) in
    getTasks callMethod result_tasks p w = (o, w')
    /\ (n + 1 <= n' <= n + 20)%nat.
Proof.
  intros W R callMethod result_tasks p n w. unfold getTasks.
  pose proof (getTasks_loop_counted W R callMethod result_tasks p 20 [] 0 n w) as H.
  destruct (getTasks_loop (counted W R callMethod) result_tasks 20 p [] 0 (n, w))
    as [o [n' w']].
  destruct H as (H1 & H2 & H3). split; [exact H1|].
  specialize (H3 ltac:(discriminate)). lia.
Qed.

(** X8.  When the service never answers with more than 50 records in a
    page, a query for tasks returns at most 1000 records. *)
Theorem getTasks_returns_at_most_1000_records :
  forall (W R : Type) (callMethod : string -> params -> Async W R)
         (result_tasks : R -> option (list task)) (p : params) (w : W)
         (tasks : list task) (w' : W),
    (forall method q w0 r w1 page,
        callMethod method q w0 = (Return r, w1) -> result_tasks r = Some page ->
        (length page <= 50)%nat) ->
    getTasks callMethod result_tasks p w = (Return tasks, w') ->
    (length tasks <= 1000)%nat.
Proof.
  intros W R callMethod result_tasks p w tasks w' Hpage H.
  apply (getTasks_loop_length W R callMethod result_tasks p 20 Hpage) in H.
  simpl in H. lia.
Qed.

Lemma paged_service_page (W : Type) (db : list task) (method : string) (q : params)
  (w w' : W) (r page : list task) :
  paged_service db method q w = (Return r, w') -> Some r = Some page ->
  (length page <= 50)%nat.
Proof.
  unfold paged_service. intros H Hr.
  assert (E : page = firstn 50 (skipn (Z.to_nat (start_of q)) db)) by congruence.
  rewrite E. apply firstn_le_length.
Qed.

Lemma getTasks_returns_at_most_1000_records_witness :
  (length (firstn 1000 (map numbered_task (seq 1 60))) <= 1000)%nat.
Proof.
  apply (getTasks_returns_at_most_1000_records unit (list task)
           (paged_service (map numbered_task (seq 1 60))) (fun r => Some r) [] tt
           (firstn 1000 (map numbered_task (seq 1 60))) tt).
  - intros method q w0 r w1 page. apply paged_service_page.
  - apply getTasks_paged_service.
Defined.

(* ================================================================== *)
(** * DomainQueries over the access layer: a query asked again          *)
(* ================================================================== *)

Lemma append_inj_l (a b c : string) : (a ++ b = a ++ c)%string -> b = c.
Proof. induction a as [|x a IH]; cbn [append]; intros H; [exact H|]. inversion H. auto. Qed.

Section Replay.
Variable R : Type.
Variable JSON_stringify : params -> string.
Variable result_tasks : R -> option (list task).
Variable p : params.
(** The parameters of two pages are printed differently. *)
Hypothesis stringify_pages :
  forall s1 s2 : Z,
    JSON_stringify (page_params p s1) = JSON_stringify (page_params p s2) -> s1 = s2.

Definition page_key (start : Z) : string :=
  cache_key JSON_stringify "tasks.task.list" (page_params p start).

Lemma page_key_inj (s1 s2 : Z) : page_key s1 = page_key s2 -> s1 = s2.
Proof.
  unfold page_key, cache_key. intros H.
  apply append_inj_l in H. apply (append_inj_l "-") in H. now apply stringify_pages.
Qed.

(** The round trips a call leaves are the last of those it was given. *)
Lemma callMethod_run_rest (net : list (netStep R)) :
  forall (method : string) (q : params) (w : world R),
    exists used : list (netStep R),
      net = used ++ fst (snd (callMethod_run JSON_stringify net method q w)).
Proof.
  induction net as [|step net IH]; intros method q w; cbn [callMethod_run].
  - exists []. destruct (cache_lookup _ w); [reflexivity|].
    now destruct (encode_params q).
  - destruct (cache_lookup _ w); [now exists []|].
    destruct (encode_params q) as [e|query]; [now exists []|].
    destruct (check_response (ns_outcome step)) as [e|data]; [|now exists [step]].
    destruct (includes (message e) quota_marker); [|now exists [step]].
    destruct (IH method q
                (delay 2000 (elapse (ns_elapsed step)
                   (log_fetch (request_of method query) (await_rate_limit w)))))
      as [used Hused].
    exists (step :: used). cbn [app]. now rewrite <- Hused.
Qed.

(** The loop from an offset on leaves the cache entries of the pages
    before it. *)
Lemma getTasks_loop_keeps_pages (fuel : nat) :
  forall (acc : list task) (start : Z) (net : list (netStep R)) (w : world R)
         (before : Z),
    before < start ->
    map_get string_dec (page_key before)
      (cache (svc (snd (snd (getTasks_loop (callMethod JSON_stringify) result_tasks fuel p acc start
                       (net, w))))))
    = map_get string_dec (page_key before) (cache (svc w)).
Proof.
  induction fuel as [|fuel IH]; intros acc start net w before Hlt;
    cbn [getTasks_loop]; [reflexivity|].
  unfold bind, callMethod at 1.
  pose proof (callMethod_run_cache R JSON_stringify net "tasks.task.list"
                (page_params p start) w) as [_ Hother].
  assert (Hkey : map_get string_dec (page_key before)
                   (cache (svc (snd (snd (callMethod_run JSON_stringify net
                                            "tasks.task.list" (page_params p start) w)))))
                 = map_get string_dec (page_key before) (cache (svc w))).
  { apply Hother. intros E. apply page_key_inj in E. lia. }
  destruct (callMethod_run JSON_stringify net "tasks.task.list" (page_params p start) w)
    as [[r|e|] [net1 w1]]; cbn [snd] in Hkey |- *; try exact Hkey.
  destruct (result_tasks r) as [page|]; [|exact Hkey].
  destruct (Z.of_nat (length page) <? limit); [exact Hkey|].
  destruct (start + limit >=? 1000); [exact Hkey|].
  rewrite IH by (unfold limit; lia). exact Hkey.
Qed.

Lemma getTasks_loop_replay (fuel : nat) :
  forall (acc : list task) (start : Z) (net : list (netStep R)) (w : world R)
         (tasks : list task) (net' : list (netStep R)) (w' : world R),
    (forall s, start <= s -> map_get string_dec (page_key s) (cache (svc w)) = None) ->
    Forall (fun step => 0 <= ns_elapsed step) net ->
    getTasks_loop (callMethod JSON_stringify) result_tasks fuel p acc start (net, w)
    = (Return tasks, (net', w')) ->
    forall (net2 : list (netStep R)) (w2 : world R),
      (forall s, start <= s ->
                 map_get string_dec (page_key s) (cache (svc w2))
                 = map_get string_dec (page_key s) (cache (svc w'))) ->
      clock w2 - clock w < 300000 ->
      getTasks_loop (callMethod JSON_stringify) result_tasks fuel p acc start (net2, w2)
      = (Return tasks, (net2, w2)).
Proof.
  induction fuel as [|fuel IH]; intros acc start net w tasks net' w' Hfresh Hpos;
    cbn [getTasks_loop]; [discriminate|].
  unfold bind, callMethod at 1.
  assert (Hc : cache_lookup (page_key start) w = None)
    by (unfold cache_lookup; now rewrite Hfresh by lia).
  destruct (callMethod_run_rest net "tasks.task.list" (page_params p start) w)
    as [used Hused].
  destruct (callMethod_run JSON_stringify net "tasks.task.list" (page_params p start) w)
    as [[r|e|] [net1 w1]] eqn:Erun; try discriminate.
  cbn [fst snd] in Hused.
  destruct (callMethod_run_miss R JSON_stringify net "tasks.task.list"
              (page_params p start) w r net1 w1 Hpos Hc Erun)
    as (_ & _ & Hclk & _ & _ & now & Hnow & Hcache).
  assert (Hpos1 : Forall (fun step => 0 <= ns_elapsed step) net1)
    by (rewrite Hused in Hpos; now apply Forall_app in Hpos).
  intros Hloop net2 w2 Hagree Hage.
  assert (Hhit : map_get string_dec (page_key start) (cache (svc w'))
                 = Some {| ce_data := r; ce_timestamp := now |} ->
                 callMethod JSON_stringify "tasks.task.list" (page_params p start)
                   (net2, w2) = (Return r, (net2, w2))).
  { intros Hentry. unfold callMethod. apply callMethod_run_hit.
    unfold cache_lookup. fold (page_key start).
    rewrite (Hagree start) by lia. rewrite Hentry. cbn [ce_timestamp ce_data].
    destruct (Z.ltb_spec (clock w2 - now) 300000); [reflexivity | lia]. }
  assert (Hset : map_get string_dec (page_key start) (cache (svc w1))
                 = Some {| ce_data := r; ce_timestamp := now |})
    by (rewrite Hcache; apply map_get_set_eq).
  destruct (result_tasks r) as [page|] eqn:Er.
  - destruct (Z.of_nat (length page) <? limit) eqn:Eshort.
    + unfold ret in Hloop. inversion Hloop; subst.
      rewrite (Hhit Hset), Er, Eshort. reflexivity.
    + destruct (start + limit >=? 1000) eqn:Eceil.
      * unfold ret in Hloop. inversion Hloop; subst.
        rewrite (Hhit Hset), Er, Eshort. reflexivity.
      * assert (Hentry : map_get string_dec (page_key start) (cache (svc w'))
                         = Some {| ce_data := r; ce_timestamp := now |}).
        { pose proof (getTasks_loop_keeps_pages fuel (acc ++ page) (start + limit)
                        net1 w1 start ltac:(unfold limit; lia)) as Hk.
          rewrite Hloop in Hk. cbn [snd] in Hk. now rewrite Hk. }
        rewrite (Hhit Hentry), Er, Eshort.
        apply (IH (acc ++ page) (start + limit) net1 w1 tasks net' w');
          [ | exact Hpos1 | exact Hloop | | lia].
        -- intros s Hs. rewrite Hcache.
           rewrite map_get_set_neq; [apply Hfresh; unfold limit in Hs; lia|].
           intros E. apply page_key_inj in E. unfold limit in Hs. lia.
        -- intros s Hs. apply Hagree. unfold limit in Hs. lia.
  - unfold ret in Hloop. inversion Hloop; subst.
    rewrite (Hhit Hset), Er. reflexivity.
Qed.
End Replay.

(** X9.  A query for tasks that is asked again is answered from the cache.
    When the parameters of different pages are printed differently, no
    page of the query is cached at the start and round trips take no
    negative time, a query for tasks that has returned returns the same
    tasks when it is asked again, with the same parameters, less than
    300000 ms after the first one began: no request is made, no round trip
    is used, and nothing changes. *)
Theorem getTasks_asked_again_is_served_from_cache :
  forall (R : Type) (JSON_stringify : params -> string)
         (result_tasks : R -> option (list task)) (p : params)
         (net net' : list (netStep R)) (w w' : world R) (tasks : list task),
    (forall s1 s2 : Z,
        JSON_stringify (page_params p s1) = JSON_stringify (page_params p s2) ->
        s1 = s2) ->
    (forall s : Z,
        map_get string_dec
          (cache_key JSON_stringify "tasks.task.list" (page_params p s))
          (cache (svc w)) = None) ->
    Forall (fun step => 0 <= ns_elapsed step) net ->
    getTasks (callMethod JSON_stringify) result_tasks p (net, w)
    = (Return tasks, (net', w')) ->
    forall (net2 : list (netStep R)) (w2 : world R),
      svc w2 = svc w' -> clock w2 - clock w < 300000 ->
      getTasks (callMethod JSON_stringify) result_tasks p (net2, w2)
      = (Return tasks, (net2, w2)).
Proof.
  intros R js rt p net net' w w' tasks Hinj Hfresh Hpos Hrun net2 w2 Hsvc Hage.
  unfold getTasks in *.
  apply (getTasks_loop_replay R js rt p Hinj 20 [] 0 net w tasks net' w');
    [ | exact Hpos | exact Hrun | | exact Hage].
  - intros s _. apply Hfresh.
  - intros s _. now rewrite Hsvc.
Qed.

(** The example of two pages, asked again 200 seconds later. *)
Definition two_pages : list (netStep (list task)) :=
  [page_step 80 (map numbered_task (seq 1 50)); page_step 90 [numbered_task 51]].

Definition print_start (q : params) : string := Z_to_string (start_of q).

Definition first_run : outcome (list task) * (list (netStep (list task)) * world (list task)) :=
  Eval vm_compute in
    getTasks (callMethod print_start) (fun r => Some r) []
      (two_pages, {| svc := new_service (list task); clock := 1700000000000; trace := [] |}).

Definition later_world : world (list task) :=
  {| svc := svc (snd (snd first_run)); clock := 1700000200000; trace := [] |}.

Lemma getTasks_asked_again_is_served_from_cache_witness :
  getTasks (callMethod print_start) (fun r => Some r) [] ([], later_world)
  = (Return (map numbered_task (seq 1 51)), ([], later_world)).
Proof.
  apply (getTasks_asked_again_is_served_from_cache (list task) print_start
           (fun r => Some r) [] two_pages (fst (snd first_run))
           {| svc := new_service (list task); clock := 1700000000000; trace := [] |}
           (snd (snd first_run))).
  - intros s1 s2 H. unfold print_start, start_of in H.
    rewrite !page_params_start in H.
    apply (int_to_string_inj (Some s1) (Some s2)) in H. now inversion H.
  - reflexivity.
  - repeat constructor; cbn; lia.
  - vm_compute. reflexivity.
  - reflexivity.
  - cbn. lia.
Defined.

(* ================================================================== *)
(** * DomainQueries: the resource report of a project                   *)
(* ================================================================== *)

Lemma param_or_present (p : params) (key : string) (v d : pval) :
  map_get string_dec key p = Some v -> pval_truthy v = true -> param_or p key d = v.
Proof. unfold param_or. now intros -> ->. Qed.

Lemma param_or_absent (p : params) (key : string) (d : pval) :
  map_get string_dec key p = None -> param_or p key d = d.
Proof. unfold param_or. now intros ->. Qed.

(** The filter handed to a query is the filter of each page request. *)
Lemma page_params_filter (p : params) (start : Z) (fields : list (string * jsval)) :
  map_get string_dec "filter" p = Some (PObject fields) ->
  map_get string_dec "filter" (page_params p start) = Some (PObject fields).
Proof.
  intros H. unfold page_params.
  rewrite !map_get_set_neq by discriminate. rewrite map_get_set_eq.
  f_equal. apply param_or_present; [exact H | reflexivity].
Qed.

Section QueriesFacts.
Variables W R : Type.
Variable callMethod : string -> params -> Async W R.
Variable result_tasks : R -> option (list task).
Variable result_projects : R -> list project.
Variable result_users : R -> option (list user).

Let report := getProjectResources W R callMethod result_tasks result_projects result_users.

(** The three queries of the resource report, in their order; a query is
    made only when the one before has returned. *)
Lemma getProjectResources_steps (projectId : jsval) (detailLevel : Z) (w : W) :
  report projectId detailLevel w
  = match getTasks callMethod result_tasks
            [("filter"%string, PObject [("GROUP_ID"%string, projectId)])] w with
    | (Return tasks, w1) =>
        match callMethod "sonet_group.get"
                (query_params [("filter"%string, PObject [("ID"%string, projectId)])]
                   projectFields) w1 with
        | (Return projects, w2) =>
            match callMethod "user.get" (query_params [] userFields) w2 with
            | (Return users, w3) =>
                (Return
                   (processProjectResources_of R result_users tasks users
                      match result_projects projects with
                      | p :: _ => p
                      | [] => {| project_ID := projectId;
                                 project_NAME := synth_project_name projectId |}
                      end detailLevel), w3)
            | (Throw e, w3) => (Throw e, w3)
            | (Pending, w3) => (Pending, w3)
            end
        | (Throw e, w2) => (Throw e, w2)
        | (Pending, w2) => (Pending, w2)
        end
    | (Throw e, w1) => (Throw e, w1)
    | (Pending, w1) => (Pending, w1)
    end.
Proof.
  subst report. unfold getProjectResources, getProjects, getUsers, bind.
  destruct (getTasks _ _ _ w) as [[tasks|e|] w1]; reflexivity.
Qed.
End QueriesFacts.

(** X10.  When the resource report of a project is returned, the three
    queries have returned, in this order: the tasks of the project
    ([GROUP_ID] is the project id on every page asked), the project, the
    users.  The report is then that of [processProjectResources] on what
    they returned: it ends with the total row, which sums the hours of all
    tasks fetched and is named after the first project the service returned
    or, when it returned none, [Проект] followed by the id.  When the users
    returned are not a list the report is empty, without any error. *)
Theorem getProjectResources_report :
  forall (W R : Type) (callMethod : string -> params -> Async W R)
         (result_tasks : R -> option (list task))
         (result_projects : R -> list project)
         (result_users : R -> option (list user))
         (projectId : jsval) (detailLevel : Z) (w w' : W) (rows : list resourceRow),
    getProjectResources W R callMethod result_tasks result_projects result_users
      projectId detailLevel w = (Return rows, w') ->
    exists (tasks : list task) (projects users : R) (w1 w2 : W),
      getTasks callMethod result_tasks
        [("filter"%string, PObject [("GROUP_ID"%string, projectId)])] w
      = (Return tasks, w1)
      /\ (forall start : Z,
            map_get string_dec "filter"
              (page_params [("filter"%string, PObject [("GROUP_ID"%string, projectId)])]
                 start)
            = Some (PObject [("GROUP_ID"%string, projectId)]))
      /\ getProjects W R callMethod [("filter"%string, PObject [("ID"%string, projectId)])] w1
         = (Return projects, w2)
      /\ getUsers W R callMethod [] w2 = (Return users, w')
      /\ match result_users users with
         | Some us =>
             exists (body : list resourceRow) (total : resourceRow),
               rows = body ++ [total]
               /\ rows
                  = processProjectResources tasks us
                      match result_projects projects with
                      | p :: _ => p
                      | [] => {| project_ID := projectId;
                                 project_NAME := ("Проект " ++ ToString projectId)%string |}
                      end detailLevel
               /\ Forall (fun r => rr_isProjectTotal r = false) body
               /\ rr_isProjectTotal total = true
               /\ rr_projectName total
                  = match result_projects projects with
                    | p :: _ => project_NAME p
                    | [] => ("Проект " ++ ToString projectId)%string
                    end
               /\ rr_actualHours total
                  = fold_left num_add
                      (map (fun t => resource_hours (task_timeSpentInLogs t)) tasks) 0%float
               /\ rr_plannedHours total
                  = fold_left num_add
                      (map (fun t => resource_hours (task_timeEstimate t)) tasks) 0%float
         | None => rows = []
         end.
Proof.
  intros W R cm rt rp ru projectId d w w' rows H.
  rewrite getProjectResources_steps in H.
  destruct (getTasks cm rt _ w) as [[tasks|e|] w1] eqn:Et; try discriminate.
  destruct (cm "sonet_group.get" _ w1) as [[projects|e|] w2] eqn:Ep; try discriminate.
  destruct (cm "user.get" _ w2) as [[users|e|] w3] eqn:Eu; try discriminate.
  inversion H; subst w3. clear H.
  exists tasks, projects, users, w1, w2.
  split; [reflexivity|]. split; [intros start; now apply page_params_filter|].
  split; [exact Ep|]. split; [exact Eu|].
  unfold processProjectResources_of. destruct (ru users) as [us|]; [|reflexivity].
  eexists (resource_task_rows tasks us d), _.
  split; [apply processProjectResources_shape|].
  split; [reflexivity|].
  split; [apply resource_task_rows_not_total|].
  split; [reflexivity|]. split; [now destruct (rp projects)|].
  split; reflexivity.
Qed.

(** A service for closed examples: it answers each method with a fixed
    payload. *)
Inductive payload : Type :=
| TaskPage (tasks : list task)
| ProjectList (projects : list project)
| UserList (users : list user)
| Other.

Definition payload_tasks (r : payload) : option (list task) :=
  match r with TaskPage tasks => Some tasks | _ => None end.

Definition payload_projects (r : payload) : list project :=
  match r with ProjectList projects => projects | _ => [] end.

Definition payload_users (r : payload) : option (list user) :=
  match r with UserList users => Some users | _ => None end.

Definition demo_task (id title parent user estimate spent : string) : task :=
  {| task_id := JStr id; task_title := Some title; task_groupId := JStr "10";
     task_group_name := None;
     task_parentId := if (parent =? "")%string then JNull else JStr parent;
     task_responsibleId := JStr user; task_timeEstimate := JStr estimate;
     task_timeSpentInLogs := JStr spent |}.

Definition demo_tasks : list task :=
  [demo_task "1" "Design" "" "5" "7200" "3600";
   demo_task "2" "Review" "1" "6" "3600" "3600";
   demo_task "1" "Design" "" "5" "7200" "3600"].

Definition demo_users : list user :=
  [{| user_ID := JStr "5"; user_NAME := Some "Ann"; user_LAST_NAME := Some "Lee" |};
   {| user_ID := JStr "6"; user_NAME := Some "Bob"; user_LAST_NAME := None |}].

Definition demo_service (projects : list project)
  : string -> params -> Async unit payload :=
  fun method _ w =>
    (Return (if (method =? "tasks.task.list")%string then TaskPage demo_tasks
             else if (method =? "sonet_group.get")%string then ProjectList projects
             else if (method =? "user.get")%string then UserList demo_users
             else Other), w).

Definition demo_resource_rows : list resourceRow :=
  Eval vm_compute in
    match getProjectResources unit payload (demo_service []) payload_tasks
            payload_projects payload_users (JStr "10") 1 tt with
    | (Return rows, _) => rows
    | _ => []
    end.

Lemma getProjectResources_report_witness :
  exists (body : list resourceRow) (total : resourceRow),
    demo_resource_rows = body ++ [total]
    /\ Forall (fun r => rr_isProjectTotal r = false) body
    /\ rr_isProjectTotal total = true
    /\ rr_projectName total = "Проект 10"%string
    /\ rr_actualHours total = 3%float
    /\ rr_plannedHours total = 5%float.
Proof.
  destruct (getProjectResources_report unit payload (demo_service []) payload_tasks
              payload_projects payload_users (JStr "10") 1 tt tt demo_resource_rows
              eq_refl)
    as (tasks & projects & users & w1 & w2 & Ht & _ & Hp & Hu & H).
  vm_compute in Ht, Hp, Hu.
  injection Ht as <-. injection Hp as <-. injection Hu as <-.
  cbn [payload_users payload_projects] in H.
  destruct H as (body & total & E & _ & Hbody & Htotal & Hname & Ha & Hp).
  exists body, total.
  split; [exact E|]. split; [exact Hbody|]. split; [exact Htotal|].
  split; [exact Hname|]. split; [rewrite Ha | rewrite Hp]; vm_compute; reflexivity.
Defined.

(* ================================================================== *)
(** * DateRangeResolver: the week, the year and the custom range        *)
(* ================================================================== *)

(** The day number of the date of a day is that day. *)
Lemma days_from_civil_from_days (z y m d : Z) :
  civil_from_days z = (y, m, d) -> days_from_civil y m d = z.
Proof.
  unfold civil_from_days. cbv zeta.
  set (era := (z + 719468) / 146097).
  set (doe := z + 719468 - era * 146097).
  assert (Hdoe : 0 <= doe < 146097) by (subst doe era; Z.div_mod_to_equations; lia).
  assert (Hz : z = era * 146097 + doe - 719468) by (subst doe; lia).
  clearbody doe era.
  set (yoe := (doe - doe / 1460 + doe / 36524 - doe / 146096) / 365).
  assert (Hyoe : 0 <= yoe <= 399) by (subst yoe; Z.div_mod_to_equations; lia).
  set (doy := doe - (365 * yoe + yoe / 4 - yoe / 100)).
  assert (Hdoy : 0 <= doy <= 365) by (subst doy yoe; Z.div_mod_to_equations; lia).
  assert (Hdoe' : doe = yoe * 365 + yoe / 4 - yoe / 100 + doy) by (subst doy; lia).
  clearbody doy yoe.
  set (mp := (5 * doy + 2) / 153).
  assert (Hmp : 0 <= mp <= 11) by (subst mp; Z.div_mod_to_equations; lia).
  clearbody mp.
  set (m' := if mp <? 10 then mp + 3 else mp - 9).
  intros H.
  pose proof (f_equal (fun p => fst (fst p)) H) as Hy.
  pose proof (f_equal (fun p => snd (fst p)) H) as Hm.
  pose proof (f_equal snd H) as Hd. cbn [fst snd] in Hy, Hm, Hd. clear H.
  subst y m d.
  unfold days_from_civil. cbv zeta.
  assert (Hmp' : (if 2 <? m' then m' - 3 else m' + 9) = mp)
    by (subst m'; destruct (Z.ltb_spec mp 10); [destruct (Z.ltb_spec 2 (mp + 3))
                                              | destruct (Z.ltb_spec 2 (mp - 9))]; lia).
  assert (Hy' : (if m' <=? 2 then yoe + era * 400 + (if m' <=? 2 then 1 else 0) - 1
                 else yoe + era * 400 + (if m' <=? 2 then 1 else 0)) = yoe + era * 400)
    by (destruct (m' <=? 2); lia).
  rewrite Hmp', Hy'.
  replace ((yoe + era * 400) / 400) with era
    by (apply (Z.div_unique _ _ _ yoe); lia).
  replace (yoe + era * 400 - era * 400) with yoe by lia.
  lia.
Qed.

Lemma days_from_civil_day (y m d : Z) :
  days_from_civil y m d = days_from_civil y m 1 + d - 1.
Proof. unfold days_from_civil. cbv zeta. lia. Qed.

(** Moving the day of the month by [k] moves the time on the local clock by
    [k] days of 24 hours; the new instant is the one the host gives to that
    time on its clock. *)
Lemma setDate_back (h : host) (t k : Z) :
  setDate h t (getDate h t - k) = UTC h (LocalTime h t - k * msPerDay).
Proof.
  unfold setDate, getFullYear, getMonth, getDate.
  pose proof (civil_month_range (LocalTime h t / msPerDay)) as Hm.
  destruct (civil_from_days (LocalTime h t / msPerDay)) as [[y m] d] eqn:E.
  cbn [fst snd] in Hm |- *.
  apply days_from_civil_from_days in E.
  unfold MakeDay. rewrite Z.div_small, Z.mod_small by lia.
  replace (y + 0) with y by lia. replace (m - 1 + 1) with m by lia.
  rewrite (days_from_civil_day y m d) in E.
  replace (days_from_civil y m 1 + (d - k) - 1) with (LocalTime h t / msPerDay - k) by lia.
  pose proof (Z.div_mod (LocalTime h t) msPerDay ltac:(unfold msPerDay; lia)) as Hdm.
  f_equal. lia.
Qed.

(** The printed form of a UTC day number. *)
Definition utc_date (day : Z) : string :=
  let '(y, m, d) := civil_from_days day in iso_date y m d.

Lemma formatDate_utc_date (t : Z) : formatDate t = utc_date (t / msPerDay).
Proof. unfold formatDate, utc_date. reflexivity. Qed.

Lemma days_back (t k : Z) : (t - k * msPerDay) / msPerDay = t / msPerDay - k.
Proof.
  replace (t - k * msPerDay) with (t + (- k) * msPerDay) by lia.
  rewrite Z.div_add by (unfold msPerDay; lia). lia.
Qed.

Definition known_period (period : string) : bool :=
  (period =? "week")%string || (period =? "month")%string
  || (period =? "quarter")%string || (period =? "year")%string
  || (period =? "custom")%string.

Lemma getDateRange_week (h : host) (Date_parse : string -> option Z) (now : Z)
  (customFrom customTo : option string) :
  getDateRange h Date_parse now (Some "week") customFrom customTo
  = inr (formatDate (setDate h now (getDate h now - 7)), formatDate now).
Proof.
  cbv beta iota zeta delta [getDateRange String.eqb Ascii.eqb Bool.eqb]. reflexivity.
Qed.

(** The instant of a date and a time of day, in UTC. *)
Definition utc_instant (y m d hours minutes : Z) : Z :=
  days_from_civil y m d * msPerDay + hours * 3600000 + minutes * msPerMinute.

(** A host on Central European Time in 2024: one hour east of UTC, two
    hours from 31 March, 01:00 UTC, to 27 October, 01:00 UTC.  A time on
    the local clock that the change to summer time skips is read with the
    offset before the change, and so is one that the change back
    repeats. *)
Definition berlin_2024 : host :=
  let spring := utc_instant 2024 3 31 1 0 in
  let fall := utc_instant 2024 10 27 1 0 in
  {| offset_at := fun t => if (spring <=? t) && (t <? fall) then 7200000 else 3600000;
     offset_of_local :=
       fun t => if (spring + 7200000 <=? t) && (t <? fall + 7200000)
                then 7200000 else 3600000 |}.

(** A host on British time in 2024: at UTC, one hour east of it from
    31 March, 01:00 UTC, to 27 October, 01:00 UTC. *)
Definition london_2024 : host :=
  let spring := utc_instant 2024 3 31 1 0 in
  let fall := utc_instant 2024 10 27 1 0 in
  {| offset_at := fun t => if (spring <=? t) && (t <? fall) then 3600000 else 0;
     offset_of_local :=
       fun t => if (spring + 3600000 <=? t) && (t <? fall + 3600000)
                then 3600000 else 0 |}.

(** X11.  The ranges that look back from now end at the current UTC date
    and begin at the UTC date of the instant that shows the same time on
    the local clock seven days (thirty days for a period that is none of
    week, month, quarter, year and custom) before.  Where the host has the
    same offset from UTC at both instants, as a host that keeps one offset
    always has, that is seven (thirty) days before the current UTC date,
    whatever the offset; across a change of daylight saving time it can be
    a day more or less: on Central European Time the week that ends on
    1 April 2024, 23:30 UTC, begins on 26 March, and the week that ends on
    28 October 2024, 00:30 UTC, on 20 October. *)
Theorem getDateRange_looks_back_on_the_local_clock :
  forall (h : host) (Date_parse : string -> option Z) (now : Z)
         (customFrom customTo : option string),
    let back (k : Z) : Z := LocalTime h now - k * msPerDay in
    let from (k : Z) : string :=
      utc_date ((back k - offset_of_local h (back k)) / msPerDay) in
    getDateRange h Date_parse now (Some "week") customFrom customTo
    = inr (from 7, utc_date (now / msPerDay))
    /\ (forall period : string,
          known_period period = false ->
          getDateRange h Date_parse now (Some period) customFrom customTo
          = inr (from 30, utc_date (now / msPerDay)))
    /\ (forall k : Z,
          offset_of_local h (back k) = offset_at h now ->
          from k = utc_date (now / msPerDay - k))
    /\ (forall tz : Z,
          getDateRange tz Date_parse now (Some "week") customFrom customTo
          = inr (utc_date (now / msPerDay - 7), utc_date (now / msPerDay)))
    /\ getDateRange berlin_2024 (fun _ => None) (utc_instant 2024 4 1 23 30)
         (Some "week") None None
       = inr ("2024-03-26", "2024-04-01")%string
    /\ getDateRange berlin_2024 (fun _ => None) (utc_instant 2024 4 20 23 30)
         (Some "week") None None
       = inr ("2024-04-13", "2024-04-20")%string
    /\ getDateRange berlin_2024 (fun _ => None) (utc_instant 2024 10 28 0 30)
         (Some "week") None None
       = inr ("2024-10-20", "2024-10-28")%string.
Proof.
  intros h parse now cf ct back from.
  assert (Hweek : forall (h' : host),
             getDateRange h' parse now (Some "week"%string) cf ct
             = inr (utc_date ((LocalTime h' now - 7 * msPerDay
                               - offset_of_local h' (LocalTime h' now - 7 * msPerDay))
                              / msPerDay),
                    utc_date (now / msPerDay))).
  { intros h'. rewrite getDateRange_week, setDate_back, !formatDate_utc_date.
    reflexivity. }
  split; [apply Hweek|]. split; [|split; [|split; [|split; [|split]]]].
  - intros period Hp. unfold known_period in Hp.
    rewrite !orb_false_iff in Hp. destruct Hp as [[[[H1 H2] H3] H4] H5].
    unfold getDateRange. rewrite H1, H2, H3, H4, H5.
    rewrite setDate_back, !formatDate_utc_date. reflexivity.
  - intros k Hk. subst from back. cbv beta. rewrite Hk. unfold LocalTime. f_equal.
    replace (now + offset_at h now - k * msPerDay - offset_at h now)
      with (now - k * msPerDay) by lia.
    apply days_back.
  - intros tz. rewrite Hweek. f_equal. f_equal. f_equal.
    unfold LocalTime. cbn [fixed_offset offset_at offset_of_local].
    replace (now + tz * msPerMinute - 7 * msPerDay - tz * msPerMinute)
      with (now - 7 * msPerDay) by lia.
    apply days_back.
  - vm_compute. reflexivity.
  - vm_compute. reflexivity.
  - vm_compute. reflexivity.
Qed.

Lemma year_end (y : Z) : MakeDay y 11 31 = next_month_start y 12 - 1.
Proof.
  unfold MakeDay, next_month_start.
  replace (11 / 12) with 0 by reflexivity. replace (11 mod 12 + 1) with 12 by reflexivity.
  replace (12 / 12) with 1 by reflexivity. replace (12 mod 12 + 1) with 1 by reflexivity.
  replace (y + 0) with y by lia.
  unfold days_from_civil. cbv zeta.
  replace (12 <=? 2) with false by reflexivity. replace (1 <=? 2) with true by reflexivity.
  replace (2 <? 12) with true by reflexivity. replace (2 <? 1) with false by reflexivity.
  replace (y + 1 - 1) with y by lia.
  replace ((153 * (12 - 3) + 2) / 5) with 275 by reflexivity.
  replace ((153 * (1 + 9) + 2) / 5) with 306 by reflexivity.
  lia.
Qed.

Lemma getDateRange_year (h : host) (Date_parse : string -> option Z) (now : Z)
  (customFrom customTo : option string) :
  getDateRange h Date_parse now (Some "year") customFrom customTo
  = inr (formatDate (new_Date h (getFullYear h now) 0 1),
         formatDate (new_Date h (getFullYear h now) 11 31)).
Proof.
  cbv beta iota zeta delta [getDateRange String.eqb Ascii.eqb Bool.eqb]. reflexivity.
Qed.

(** A bound built at local midnight is printed as its own day when the
    host is at UTC or west of it at that midnight, and as the day before
    when it is east of UTC then. *)
Lemma formatDate_new_Date_host (h : host) (year month date : Z) :
  ~ (0 <= year <= 99) ->
  - msPerDay < offset_of_local h (MakeDay year month date * msPerDay) <= msPerDay ->
  formatDate (new_Date h year month date)
  = utc_date (MakeDay year month date
              + (if 0 <? offset_of_local h (MakeDay year month date * msPerDay)
                 then -1 else 0)).
Proof.
  intros Hy Hoff. rewrite formatDate_utc_date. f_equal.
  unfold new_Date, UTC.
  replace ((0 <=? year) && (year <=? 99)) with false
    by (symmetry; destruct (Z.leb_spec 0 year), (Z.leb_spec year 99); cbn [andb];
        try reflexivity; lia).
  set (day := MakeDay year month date) in *. clearbody day.
  set (off := offset_of_local h (day * msPerDay)) in *. clearbody off.
  unfold msPerDay in *.
  destruct (Z.ltb_spec 0 off).
  - symmetry. apply (Z.div_unique _ _ _ (86400000 - off)); lia.
  - symmetry. apply (Z.div_unique _ _ _ (- off)); lia.
Qed.

(** X12.  The year range is built at local midnight and printed in UTC.
    Each bound is decided by the offset the host has at the local midnight
    of that bound, not by the offset it has now: 1 January, or 31 December
    of the year before where the host is east of UTC at the first midnight
    of the year; 31 December, or 30 December where it is east of UTC at the
    midnight that begins 31 December.  So a host that keeps an offset east
    of UTC gets both bounds one day early, and a host on British time gets
    1 January to 31 December also when it asks in summer. *)
Theorem getDateRange_year_by_host :
  forall (h : host) (Date_parse : string -> option Z) (now : Z)
         (customFrom customTo : option string),
    let y := getFullYear h now in
    let first := offset_of_local h (days_from_civil y 1 1 * msPerDay) in
    let last := offset_of_local h ((days_from_civil (y + 1) 1 1 - 1) * msPerDay) in
    ~ (0 <= y <= 99) ->
    - msPerDay < first <= msPerDay ->
    - msPerDay < last <= msPerDay ->
    getDateRange h Date_parse now (Some "year") customFrom customTo
    = inr (if 0 <? first then iso_date (y - 1) 12 31 else iso_date y 1 1,
           if 0 <? last then iso_date y 12 30 else iso_date y 12 31).
Proof.
  intros h parse now cf ct y first last Hy Hfirst Hlast.
  rewrite getDateRange_year. fold y.
  assert (E1 : MakeDay y 0 1 = days_from_civil y 1 1)
    by exact (MakeDay_first y 1 ltac:(lia)).
  assert (E2 : MakeDay y 11 31 = days_from_civil (y + 1) 1 1 - 1).
  { rewrite year_end. unfold next_month_start.
    replace (12 / 12) with 1 by reflexivity.
    now replace (12 mod 12 + 1) with 1 by reflexivity. }
  rewrite !formatDate_new_Date_host; try exact Hy;
    rewrite ?E1, ?E2; try assumption.
  fold first last.
  destruct (month_bounds y 12 ltac:(lia)) as (_ & L1 & L2).
  destruct (month_bounds y 1 ltac:(lia)) as (F1 & _ & _).
  destruct (month_bounds (y - 1) 12 ltac:(lia)) as (_ & P1 & _).
  pose proof (next_of_previous y 1 ltac:(lia)) as Hp.
  unfold previous_month in Hp. cbn [Z.eqb Pos.eqb fst snd] in Hp.
  rewrite Hp in P1.
  assert (N : next_month_start y 12 = days_from_civil (y + 1) 1 1).
  { unfold next_month_start. replace (12 / 12) with 1 by reflexivity.
    now replace (12 mod 12 + 1) with 1 by reflexivity. }
  rewrite N in L1, L2.
  unfold utc_date. f_equal. f_equal.
  - destruct (0 <? first).
    + replace (days_from_civil y 1 1 + -1) with (days_from_civil y 1 1 - 1) by lia.
      now rewrite P1.
    + replace (days_from_civil y 1 1 + 0) with (days_from_civil y 1 1) by lia.
      now rewrite F1.
  - destruct (0 <? last).
    + replace (days_from_civil (y + 1) 1 1 - 1 + -1)
        with (days_from_civil (y + 1) 1 1 - 2) by lia.
      now rewrite L2.
    + replace (days_from_civil (y + 1) 1 1 - 1 + 0)
        with (days_from_civil (y + 1) 1 1 - 1) by lia.
      now rewrite L1.
Qed.

Lemma getDateRange_year_by_host_witness :
  getDateRange london_2024 (fun _ => None) (utc_instant 2024 7 15 12 0) (Some "year")
    None None
  = inr ("2024-01-01", "2024-12-31")%string
  /\ getDateRange 180 (fun _ => None) (local_noon 180 2024 3 15) (Some "year") None None
     = inr ("2023-12-31", "2024-12-30")%string.
Proof.
  split.
  - refine (eq_trans
              (getDateRange_year_by_host london_2024 (fun _ => None)
                 (utc_instant 2024 7 15 12 0) None None _ _ _) _).
    + vm_compute. intros [_ H]. apply H. reflexivity.
    + vm_compute. split; [reflexivity | discriminate].
    + vm_compute. split; [reflexivity | discriminate].
    + vm_compute. reflexivity.
  - refine (eq_trans
              (getDateRange_year_by_host 180 (fun _ => None) (local_noon 180 2024 3 15)
                 None None _ _ _) _).
    + vm_compute. intros [_ H]. apply H. reflexivity.
    + vm_compute. split; [reflexivity | discriminate].
    + vm_compute. split; [reflexivity | discriminate].
    + vm_compute. reflexivity.
Defined.

(** A bound of the custom range that was given and is not a date. *)
Definition invalid_bound (Date_parse : string -> option Z) (bound : option string) : Prop :=
  exists s : string, bound = Some s /\ s <> ""%string /\ Date_parse s = None.

Lemma custom_bound_None (Date_parse : string -> option Z) (now : Z) (bound : option string) :
  custom_bound Date_parse now bound = None <-> invalid_bound Date_parse bound.
Proof.
  unfold custom_bound, invalid_bound. destruct bound as [s|].
  - destruct (String.eqb_spec s ""%string) as [->|Hne].
    + split; [discriminate|]. intros (s & E & Hs & _). inversion E; subst. now destruct Hs.
    + split.
      * intros H. exists s. now repeat split.
      * intros (s' & E & _ & H). now inversion E; subst.
  - split; [discriminate|]. now intros (s & E & _).
Qed.

Lemma getDateRange_custom (tz : host) (Date_parse : string -> option Z) (now : Z)
  (customFrom customTo : option string) :
  getDateRange tz Date_parse now (Some "custom") customFrom customTo
  = match custom_bound Date_parse now customFrom, custom_bound Date_parse now customTo with
    | Some from, Some to => inr (formatDate from, formatDate to)
    | _, _ => inl {| message := "Invalid time value" |}
    end.
Proof.
  cbv beta iota zeta delta [getDateRange String.eqb Ascii.eqb Bool.eqb].
  destruct (custom_bound Date_parse now customFrom), (custom_bound Date_parse now customTo);
    reflexivity.
Qed.

Lemma getDateRange_not_custom (tz : host) (Date_parse : string -> option Z) (now : Z)
  (period : string) (customFrom customTo : option string) :
  (period =? "custom")%string = false ->
  exists from to : Z,
    getDateRange tz Date_parse now (Some period) customFrom customTo
    = inr (formatDate from, formatDate to).
Proof.
  intros Hp. unfold getDateRange. rewrite Hp.
  destruct (period =? "week")%string; [eexists; eexists; reflexivity|].
  destruct (period =? "month")%string; [eexists; eexists; reflexivity|].
  destruct (period =? "quarter")%string; [eexists; eexists; reflexivity|].
  destruct (period =? "year")%string; eexists; eexists; reflexivity.
Qed.

(** When [getDateRange] throws. *)
Lemma getDateRange_error (tz : host) (Date_parse : string -> option Z) (now : Z)
  (period customFrom customTo : option string) :
  ((exists e : error,
       getDateRange tz Date_parse now period customFrom customTo = inl e)
   <-> period = Some "custom"%string
       /\ (invalid_bound Date_parse customFrom \/ invalid_bound Date_parse customTo))
  /\ (forall e : error,
        getDateRange tz Date_parse now period customFrom customTo = inl e ->
        e = {| message := "Invalid time value" |}).
Proof.
  assert (Hcases : period = Some "custom"%string
                   \/ exists from to : Z,
                        getDateRange tz Date_parse now period customFrom customTo
                        = inr (formatDate from, formatDate to)).
  { destruct period as [s|].
    - destruct (String.eqb_spec s "custom"%string) as [->|Hne]; [now left|].
      right. apply getDateRange_not_custom. now apply String.eqb_neq.
    - right. eexists. eexists.
      cbv beta iota zeta delta [getDateRange String.eqb Ascii.eqb Bool.eqb]. reflexivity. }
  split.
  - split.
    + intros [e He]. destruct Hcases as [->|(from & to & E)]; [|congruence].
      split; [reflexivity|]. rewrite getDateRange_custom in He.
      destruct (custom_bound Date_parse now customFrom) eqn:Ef.
      * destruct (custom_bound Date_parse now customTo) eqn:Et; [discriminate|].
        right. now apply custom_bound_None in Et.
      * left. now apply custom_bound_None in Ef.
    + intros [-> H]. rewrite getDateRange_custom.
      destruct H as [H|H]; apply (custom_bound_None Date_parse now) in H; rewrite H.
      * eexists. reflexivity.
      * destruct (custom_bound Date_parse now customFrom); eexists; reflexivity.
  - intros e He. destruct Hcases as [->|(from & to & E)]; [|congruence].
    rewrite getDateRange_custom in He.
    destruct (custom_bound Date_parse now customFrom);
      [destruct (custom_bound Date_parse now customTo)|];
      inversion He; reflexivity.
Qed.

(** X13.  [getDateRange] throws in one case only: the period is custom and a
    bound that was given, and is not the empty string, is not a date; the
    error is then the one of printing an invalid date.  A custom bound that
    is missing or empty stands for the current instant, and the bounds are
    printed as they are, in UTC, whatever their order. *)
Theorem getDateRange_throws_only_on_invalid_custom_bound :
  forall (tz : host) (Date_parse : string -> option Z) (now : Z)
         (period customFrom customTo : option string),
    ((exists e : error,
        getDateRange tz Date_parse now period customFrom customTo = inl e)
     <-> period = Some "custom"%string
         /\ (invalid_bound Date_parse customFrom \/ invalid_bound Date_parse customTo))
    /\ (forall e : error,
          getDateRange tz Date_parse now period customFrom customTo = inl e ->
          message e = "Invalid time value"%string)
    /\ (forall from to : Z,
          custom_bound Date_parse now customFrom = Some from ->
          custom_bound Date_parse now customTo = Some to ->
          getDateRange tz Date_parse now (Some "custom"%string) customFrom customTo
          = inr (utc_date (from / msPerDay), utc_date (to / msPerDay)))
    /\ custom_bound Date_parse now None = Some now
    /\ custom_bound Date_parse now (Some ""%string) = Some now.
Proof.
  intros tz parse now period cf ct.
  destruct (getDateRange_error tz parse now period cf ct) as [Hiff Hmsg].
  split; [exact Hiff|]. split; [|split; [|split]].
  - intros e He. now rewrite (Hmsg e He).
  - intros from to Hf Ht. rewrite getDateRange_custom, Hf, Ht.
    now rewrite !formatDate_utc_date.
  - reflexivity.
  - reflexivity.
Qed.

(* ================================================================== *)
(** * The plan-vs-fact query: proofs                                    *)
(* ================================================================== *)

Section PlanFactQueryFacts.
Variables W R : Type.
Variable callMethod : string -> params -> Async W R.
Variable result_tasks : R -> option (list task).
Variable result_projects : R -> list project.
Variable result_users : R -> option (list user).
Variable localeCompare : string -> string -> Z.
Variable tz : host.
Variable Date_parse : string -> option Z.
Variable Date_now : W -> Z.
Variable Promise_all : list (Async W R) -> Async W (list R).

Lemma closed_date_filter_error (fs : filters) (now : Z) :
  ((exists e, closed_date_filter tz Date_parse fs now = inl e)
   <-> f_period fs = Some "custom"%string
       /\ (invalid_bound Date_parse (f_dateFrom fs)
           \/ invalid_bound Date_parse (f_dateTo fs)))
  /\ (forall e, closed_date_filter tz Date_parse fs now = inl e ->
                e = {| message := "Invalid time value" |}).
Proof.
  unfold closed_date_filter. destruct (f_period fs) as [period|].
  - destruct ((period =? "")%string || (period =? "all")%string) eqn:Ep.
    + split; [split|]; [intros [e H]; discriminate | | discriminate].
      intros [H _]. inversion H; subst period. discriminate.
    + destruct (getDateRange_error tz Date_parse now (Some period)
                  (f_dateFrom fs) (f_dateTo fs)) as [Hiff Hmsg].
      destruct (getDateRange tz Date_parse now (Some period) (f_dateFrom fs)
                  (f_dateTo fs)) as [e|[from to]].
      * split; [split|].
        -- intros _. apply Hiff. now exists e.
        -- intros _. now exists e.
        -- intros e' H. inversion H; subst e'. now apply Hmsg.
      * split; [split|]; [intros [e H]; discriminate | | discriminate].
        intros H. apply Hiff in H as [e H]. discriminate.
  - split; [split|]; [intros [e H]; discriminate | | discriminate].
    intros [H _]. discriminate.
Qed.

Lemma projectIds_spec (tasks : list task) :
  NoDup (projectIds tasks)
  /\ (forall id, In id (projectIds tasks)
                 <-> truthy id = true /\ exists t, In t tasks /\ task_groupId t = id).
Proof.
  unfold projectIds. split; [apply distinct_NoDup|].
  intros id. rewrite distinct_In, filter_In, in_map_iff. split.
  - intros [(t & E & Hin) Ht]. split; [exact Ht | now exists t].
  - intros [Ht (t & Hin & E)]. split; [now exists t | exact Ht].
Qed.
End PlanFactQueryFacts.

(** X14.  The plan-vs-fact query asks nothing of the service when its date
    range cannot be built: with the custom period and a bound that is given
    but is not a date it throws the error of printing an invalid date at
    once, the state of the service untouched; this is the only way in which
    the building of the filter fails, in this and in the earlier snapshot of
    the source.  Without a period, or with the period [all], the current
    source sets no date bound at all. *)
Theorem getPlanFactData_asks_nothing_when_range_invalid :
  forall (W R : Type) (callMethod : string -> params -> Async W R)
         (result_tasks result_array : R -> option (list task))
         (result_projects : R -> list project)
         (result_users : R -> option (list user))
         (localeCompare : string -> string -> Z) (tz : host)
         (Date_parse : string -> option Z) (Date_now : W -> Z)
         (Promise_all : list (Async W R) -> Async W (list R))
         (fs : filters) (w : W),
    let bad := f_period fs = Some "custom"%string
               /\ (invalid_bound Date_parse (f_dateFrom fs)
                   \/ invalid_bound Date_parse (f_dateTo fs)) in
    (bad ->
     getPlanFactData W R callMethod result_tasks result_projects result_users
       localeCompare tz Date_parse Date_now Promise_all fs w
     = (Throw {| message := "Invalid time value" |}, w)
     /\ EarlierQueries.getPlanFactData W R callMethod result_tasks result_array
          result_users localeCompare tz Date_parse Date_now fs w
        = (Throw {| message := "Invalid time value" |}, w))
    /\ ((exists e, closed_date_filter tz Date_parse fs (Date_now w) = inl e) <-> bad)
    /\ ((exists e, getDateRange tz Date_parse (Date_now w) (f_period fs)
                     (f_dateFrom fs) (f_dateTo fs) = inl e) <-> bad)
    /\ (f_period fs = None \/ f_period fs = Some ""%string
        \/ f_period fs = Some "all"%string ->
        closed_date_filter tz Date_parse fs (Date_now w) = inr []).
Proof.
  intros W R cm rt ra rp ru lc tz parse now_of pall fs w bad.
  destruct (closed_date_filter_error tz parse fs (now_of w)) as [Hiff Hmsg].
  destruct (getDateRange_error tz parse (now_of w) (f_period fs) (f_dateFrom fs)
              (f_dateTo fs)) as [Giff Gmsg].
  split; [|split; [exact Hiff | split; [exact Giff|]]].
  - intros Hbad. split.
    + unfold getPlanFactData. destruct (proj2 Hiff Hbad) as [e He].
      rewrite He. now rewrite (Hmsg e He).
    + unfold EarlierQueries.getPlanFactData. destruct (proj2 Giff Hbad) as [e He].
      rewrite He. now rewrite (Gmsg e He).
  - unfold closed_date_filter. intros [H|[H|H]]; rewrite H; reflexivity.
Qed.

Lemma getPlanFactData_asks_nothing_when_range_invalid_witness :
  getPlanFactData unit unit (fun _ _ w => (Pending, w)) (fun _ => None) (fun _ => [])
    (fun _ => None) (fun _ _ => 0) 0 (fun _ => None) (fun _ => 1700000000000)
    (fun _ w => (Pending, w))
    {| f_projectId := JUndefined; f_period := Some "custom"%string;
       f_dateFrom := Some "soon"%string; f_dateTo := None;
       f_departmentId := JUndefined |} tt
  = (Throw {| message := "Invalid time value" |}, tt).
Proof.
  refine (proj1 (proj1 (getPlanFactData_asks_nothing_when_range_invalid
                          unit unit (fun _ _ w => (Pending, w)) (fun _ => None)
                          (fun _ => None) (fun _ => []) (fun _ => None) (fun _ _ => 0) 0
                          (fun _ => None) (fun _ => 1700000000000)
                          (fun _ w => (Pending, w))
                          {| f_projectId := JUndefined; f_period := Some "custom"%string;
                             f_dateFrom := Some "soon"%string; f_dateTo := None;
                             f_departmentId := JUndefined |} tt) _)).
  split; [reflexivity|]. left. exists "soon"%string.
  split; [reflexivity|]. split; [discriminate | reflexivity].
Defined.

(** X15.  When the plan-vs-fact query returns, it has asked, in this order,
    for the completed tasks (status 5 is the first entry of the filter, the
    project and the dates follow when they are set), for the project of
    each distinct project id found on the tasks, and for the users; the
    report is then that of [processPlanFactData] on what came back, the
    projects keyed by their parsed id, and it is empty, without any error,
    when the users are not a list.  Every task that passes the guard of the
    report has its project id among those asked for. *)
Theorem getPlanFactData_report :
  forall (W R : Type) (callMethod : string -> params -> Async W R)
         (result_tasks : R -> option (list task))
         (result_projects : R -> list project)
         (result_users : R -> option (list user))
         (localeCompare : string -> string -> Z) (tz : host)
         (Date_parse : string -> option Z) (Date_now : W -> Z)
         (Promise_all : list (Async W R) -> Async W (list R))
         (fs : filters) (w w' : W) (rows : list row),
    getPlanFactData W R callMethod result_tasks result_projects result_users
      localeCompare tz Date_parse Date_now Promise_all fs w = (Return rows, w') ->
    exists (dates : list (string * jsval)) (tasks : list task) (projects : list R)
           (users : R) (w1 w2 : W),
      closed_date_filter tz Date_parse fs (Date_now w) = inr dates
      /\ hd_error (taskFilter fs dates) = Some ("STATUS"%string, JInt 5)
      /\ getTasks callMethod result_tasks
           [("filter"%string, PObject (taskFilter fs dates));
            ("select"%string, PArray (map JStr planFact_select))] w
         = (Return tasks, w1)
      /\ Promise_all
           (map (fun id => getProjects W R callMethod
                             [("filter"%string, PObject [("ID"%string, id)])])
              (projectIds tasks)) w1
         = (Return projects, w2)
      /\ getUsers W R callMethod
           [("filter"%string, PObject (userFilter fs));
            ("select"%string, PArray (map JStr planFact_user_select))] w2
         = (Return users, w')
      /\ rows = match result_users users with
                | Some us =>
                    processPlanFactData localeCompare tasks us
                      (build_projectMap (flat_map result_projects projects))
                | None => []
                end
      /\ NoDup (projectIds tasks)
      /\ (forall t, In t tasks -> kept t = true -> In (task_groupId t) (projectIds tasks)).
Proof.
  intros W R cm rt rp ru lc tz parse now_of pall fs w w' rows H.
  unfold getPlanFactData in H.
  destruct (closed_date_filter tz parse fs (now_of w)) as [e|dates]; [discriminate|].
  unfold bind in H.
  destruct (getTasks cm rt _ w) as [[tasks|e|] w1] eqn:Et; try discriminate.
  destruct (pall _ w1) as [[projects|e|] w2] eqn:Ep; try discriminate.
  destruct (getUsers W R cm _ w2) as [[users|e|] w3] eqn:Eu; try discriminate.
  unfold ret in H. inversion H; subst. clear H.
  exists dates, tasks, projects, users, w1, w2.
  destruct (projectIds_spec tasks) as [Hnd Hin].
  repeat split; try assumption; try reflexivity.
  intros t Ht Hk. apply Hin. split; [|now exists t].
  unfold kept in Hk. now destruct (truthy (task_groupId t)).
Qed.

(** The calls of a list made one after the other: one way for
    [Promise.all] to go. *)
Fixpoint in_turn (W R : Type) (calls : list (Async W R)) : Async W (list R) :=
  match calls with
  | [] => ret []
  | call :: rest => x <- call ;; xs <- in_turn W R rest ;; ret (x :: xs)
  end.

Definition demo_filters : filters :=
  {| f_projectId := JStr "10"; f_period := Some "all"%string;
     f_dateFrom := None; f_dateTo := None; f_departmentId := JUndefined |}.

Definition demo_projects : list project :=
  [{| project_ID := JStr "10"; project_NAME := "Portal" |}].

Definition demo_planFact_rows : list row :=
  Eval vm_compute in
    match getPlanFactData unit payload (demo_service demo_projects) payload_tasks
            payload_projects payload_users code_unit_compare 0 (fun _ => None)
            (fun _ => 1700000000000) (in_turn unit payload) demo_filters tt with
    | (Return rows, _) => rows
    | _ => []
    end.

Lemma getPlanFactData_report_witness :
  demo_planFact_rows
  = processPlanFactData code_unit_compare demo_tasks demo_users
      (build_projectMap demo_projects)
  /\ projectIds demo_tasks = [JStr "10"].
Proof.
  destruct (getPlanFactData_report unit payload (demo_service demo_projects)
              payload_tasks payload_projects payload_users code_unit_compare 0
              (fun _ => None) (fun _ => 1700000000000) (in_turn unit payload)
              demo_filters tt tt demo_planFact_rows eq_refl)
    as (dates & tasks & projects & users & w1 & w2 & Hd & _ & Ht & Hp & Hu & H & _).
  vm_compute in Hd. injection Hd as <-.
  vm_compute in Ht. injection Ht as <-.
  vm_compute in Hp. injection Hp as <-.
  vm_compute in Hu. injection Hu as <-.
  split; [exact H | reflexivity].
Defined.

(** X16.  In the earlier snapshot of the source a query for tasks is one
    call: it returns the tasks of the first answer and never asks for a
    second page, so that of a service that holds more than 50 tasks and
    serves them in pages it returns the first 50, where the paging query of
    the current source returns up to 1000.  An answer that carries no task
    list and is no array gives an empty list, not an error. *)
Theorem earlier_getTasks_is_one_call :
  forall (W R : Type) (callMethod : string -> params -> Async W R)
         (result_tasks result_array : R -> option (list task)) (p : params)
         (n : nat) (w : W),
    (let '(o, (n', w')) :=
       EarlierQueries.getTasks (nat * W) R (counted W R callMethod)
         result_tasks result_array p (n, w) in
     n' = S n
     /\ EarlierQueries.getTasks W R callMethod result_tasks result_array p w = (o, w'))
    /\ (forall r w1,
          callMethod "tasks.task.list" (query_params p selectFields) w = (Return r, w1) ->
          result_tasks r = None -> result_array r = None ->
          EarlierQueries.getTasks W R callMethod result_tasks result_array p w
          = (Return [], w1))
    /\ (forall db : list task,
          map_get string_dec "start" p = None ->
          EarlierQueries.getTasks W (list task) (paged_service db)
            (fun r => Some r) (fun r => Some r) p w
          = (Return (firstn 50 db), w)
          /\ getTasks (paged_service db) (fun r => Some r) p w
             = (Return (firstn 1000 db), w)).
Proof.
  intros W R cm rt ra p n w. split; [|split].
  - unfold EarlierQueries.getTasks, bind, counted.
    destruct (cm "tasks.task.list" (query_params p selectFields) w) as [[r|e|] w1];
      now split.
  - intros r w1 Hc Ht Ha. unfold EarlierQueries.getTasks, bind.
    now rewrite Hc, Ht, Ha.
  - intros db Hstart. split; [|apply getTasks_paged_service].
    unfold EarlierQueries.getTasks, bind, paged_service, ret.
    unfold start_of, query_params. rewrite !map_get_set_neq by discriminate.
    now rewrite Hstart.
Qed.

(* ================================================================== *)
(** * ProjectResourceTree: the hierarchy                                *)
(* ================================================================== *)

(** [task.parentId] of the node under a key. *)
Definition parent_of (taskMap : omap jsval node) (k : jsval) : jsval :=
  match map_get jsval_eq_dec k taskMap with
  | Some nd => task_parentId (n_task nd)
  | None => JUndefined
  end.

(** The test that sends a node to [hierarchy]: no parent id, or a parent id
    that is not a key of [taskMap]. *)
Definition is_root (taskMap : omap jsval node) (k : jsval) : bool :=
  negb (truthy (parent_of taskMap k))
  || negb (map_has jsval_eq_dec (parent_of taskMap k) taskMap).

(** The keys whose node is linked under [p], in the order of [taskMap]. *)
Definition children_of (taskMap : omap jsval node) (p : jsval) : list jsval :=
  filter (fun k => negb (is_root taskMap k) && jsval_eqb (parent_of taskMap k) p)
    (map_keys taskMap).

(** Two stores with the same keys and the same task under each key. *)
Definition same_tasks (m m' : omap jsval node) : Prop :=
  map_keys m' = map_keys m
  /\ forall k nd, map_get jsval_eq_dec k m = Some nd ->
       exists nd', map_get jsval_eq_dec k m' = Some nd'
                   /\ n_task nd' = n_task nd
                   /\ n_actualHours nd' = n_actualHours nd
                   /\ n_plannedHours nd' = n_plannedHours nd.

Lemma map_has_same_keys (m m' : omap jsval node) (k : jsval) :
  map_keys m' = map_keys m ->
  map_has jsval_eq_dec k m' = map_has jsval_eq_dec k m.
Proof.
  intros H.
  destruct (map_has jsval_eq_dec k m) eqn:E.
  - apply (map_has_keys jsval_eq_dec). rewrite H. now apply (map_has_keys jsval_eq_dec).
  - destruct (map_has jsval_eq_dec k m') eqn:E'; [|reflexivity].
    apply (map_has_keys jsval_eq_dec) in E'. rewrite H in E'.
    apply (map_has_keys jsval_eq_dec) in E'. congruence.
Qed.

Lemma map_get_key (k : jsval) (m : omap jsval node) :
  In k (map_keys m) -> exists nd, map_get jsval_eq_dec k m = Some nd.
Proof. apply map_get_key_of. Qed.

Lemma same_tasks_parent (m m' : omap jsval node) (k : jsval) :
  same_tasks m m' -> parent_of m' k = parent_of m k.
Proof.
  intros [Hk Hn]. unfold parent_of.
  destruct (map_get jsval_eq_dec k m) as [nd|] eqn:E.
  - destruct (Hn _ _ E) as (nd' & -> & Ht & _). now rewrite Ht.
  - apply map_get_None_keys in E. rewrite <- Hk in E.
    apply (map_get_None_keys jsval_eq_dec) in E. now rewrite E.
Qed.

Lemma same_tasks_root (m m' : omap jsval node) (k : jsval) :
  same_tasks m m' -> is_root m' k = is_root m k.
Proof.
  intros H. unfold is_root. rewrite (same_tasks_parent m m' k H).
  now rewrite (map_has_same_keys m m' _ (proj1 H)).
Qed.

(** One turn of the linking loop, on a key of the store: the node goes to
    [hierarchy] when it is a root, and to the end of the children of its
    parent otherwise; nothing else changes but levels. *)
Lemma link_step_spec (m : omap jsval node) (h : list jsval) (k : jsval) :
  In k (map_keys m) ->
  map_keys (fst (link_step (m, h) k)) = map_keys m
  /\ snd (link_step (m, h) k) = h ++ (if is_root m k then [k] else [])
  /\ forall x nd, map_get jsval_eq_dec x m = Some nd ->
       exists nd', map_get jsval_eq_dec x (fst (link_step (m, h) k)) = Some nd'
                   /\ n_task nd' = n_task nd
                   /\ n_actualHours nd' = n_actualHours nd
                   /\ n_plannedHours nd' = n_plannedHours nd
                   /\ n_children nd'
                      = n_children nd
                          ++ (if negb (is_root m k) && jsval_eqb (parent_of m k) x
                              then [k] else []).
Proof.
  intros Hk. destruct (map_get_key k m Hk) as [task0 Ek].
  unfold link_step, is_root, parent_of. rewrite Ek.
  set (pid := task_parentId (n_task task0)).
  destruct (negb (truthy pid) || negb (map_has jsval_eq_dec pid m)) eqn:Eroot.
  - cbn [fst snd negb andb]. split; [reflexivity|]. split; [reflexivity|].
    intros x nd Hx. exists nd. rewrite app_nil_r. now repeat split.
  - apply orb_false_iff in Eroot as [_ Ehas]. apply negb_false_iff in Ehas.
    unfold map_has in Ehas.
    destruct (map_get jsval_eq_dec pid m) as [parent|] eqn:Ep; [|discriminate].
    set (parent' := {| n_task := n_task parent |}).
    set (m1 := map_set jsval_eq_dec pid parent' m).
    assert (Ek1 : exists task1, map_get jsval_eq_dec k m1 = Some task1
                                /\ task1 = if jsval_eq_dec pid k then parent' else task0).
    { subst m1. destruct (jsval_eq_dec pid k) as [E|E].
      - rewrite <- E, map_get_set_eq. exists parent'. split; reflexivity.
      - rewrite map_get_set_neq by exact E. exists task0. split; [exact Ek | reflexivity]. }
    destruct Ek1 as (task1 & Ek1 & Htask1). rewrite Ek1.
    cbn [fst snd negb andb]. split; [|split].
    + rewrite map_keys_set_old by (rewrite Ek1; discriminate).
      subst m1. rewrite map_keys_set_old by (rewrite Ep; discriminate). reflexivity.
    + now rewrite app_nil_r.
    + intros x nd Hx. unfold jsval_eqb.
      destruct (jsval_eq_dec k x) as [Ekx|Ekx].
      * subst x. rewrite map_get_set_eq. eexists. split; [reflexivity|].
        cbn [n_task n_children n_actualHours n_plannedHours].
        rewrite Hx in Ek. inversion Ek; subst nd.
        destruct (jsval_eq_dec pid k) as [E|E]; subst task1.
        -- rewrite E in Ep. rewrite Hx in Ep. inversion Ep; subst parent.
           subst parent'. cbn [n_task n_children n_actualHours n_plannedHours].
           now repeat split.
        -- repeat split. now rewrite app_nil_r.
      * rewrite map_get_set_neq by exact Ekx. subst m1.
        destruct (jsval_eq_dec pid x) as [E|E].
        -- subst x. rewrite map_get_set_eq. eexists. split; [reflexivity|].
           rewrite Hx in Ep. inversion Ep; subst parent. subst parent'.
           cbn [n_task n_children n_actualHours n_plannedHours]. now repeat split.
        -- rewrite map_get_set_neq by exact E. exists nd. rewrite app_nil_r.
           now repeat split.
Qed.

(** The state of the linking loop once the keys [done] have been turned:
    the roots among them are in [hierarchy], the others under their
    parents, each in the order of the turns. *)
Definition linked (m0 : omap jsval node) (done : list jsval)
  (st : omap jsval node * list jsval) : Prop :=
  map_keys (fst st) = map_keys m0
  /\ snd st = filter (is_root m0) done
  /\ forall x nd0, map_get jsval_eq_dec x m0 = Some nd0 ->
       exists nd, map_get jsval_eq_dec x (fst st) = Some nd
                  /\ n_task nd = n_task nd0
                  /\ n_actualHours nd = n_actualHours nd0
                  /\ n_plannedHours nd = n_plannedHours nd0
                  /\ n_children nd
                     = n_children nd0
                         ++ filter (fun k => negb (is_root m0 k)
                                             && jsval_eqb (parent_of m0 k) x) done.

Lemma linked_same_tasks (m0 : omap jsval node) (done : list jsval)
  (st : omap jsval node * list jsval) :
  linked m0 done st -> same_tasks m0 (fst st).
Proof.
  intros (Hk & _ & Hn). split; [exact Hk|].
  intros k nd0 H. destruct (Hn _ _ H) as (nd & H1 & H2 & H3 & H4 & _).
  exists nd. now repeat split.
Qed.

Lemma linked_start (m0 : omap jsval node) : linked m0 [] (m0, []).
Proof.
  split; [reflexivity|]. split; [reflexivity|].
  intros x nd0 H. exists nd0. cbn [fst filter]. rewrite app_nil_r. now repeat split.
Qed.

Lemma linked_step (m0 : omap jsval node) (done : list jsval)
  (st : omap jsval node * list jsval) (k : jsval) :
  In k (map_keys m0) -> linked m0 done st -> linked m0 (done ++ [k]) (link_step st k).
Proof.
  intros Hk Hl. pose proof (linked_same_tasks m0 done st Hl) as Hs.
  destruct Hl as (Hkeys & Hh & Hn). destruct st as [m h]. cbn [fst snd] in *.
  assert (Hk' : In k (map_keys m)) by now rewrite Hkeys.
  destruct (link_step_spec m h k Hk') as (L1 & L2 & L3).
  rewrite (same_tasks_root m0 m k Hs) in L2.
  split; [now rewrite L1|]. split.
  - rewrite L2, filter_app, Hh. cbn [filter]. now destruct (is_root m0 k).
  - intros x nd0 H0. destruct (Hn _ _ H0) as (nd & H1 & H2 & H3 & H4 & H5).
    destruct (L3 _ _ H1) as (nd' & G1 & G2 & G3 & G4 & G5).
    rewrite (same_tasks_root m0 m k Hs), (same_tasks_parent m0 m k Hs) in G5.
    exists nd'. split; [exact G1|]. split; [congruence|]. split; [congruence|].
    split; [congruence|].
    rewrite G5, H5, filter_app, <- app_assoc. cbn [filter].
    now destruct (negb (is_root m0 k) && jsval_eqb (parent_of m0 k) x).
Qed.

Lemma linked_fold (m0 : omap jsval node) (todo : list jsval) :
  forall (done : list jsval) (st : omap jsval node * list jsval),
    incl todo (map_keys m0) -> linked m0 done st ->
    linked m0 (done ++ todo) (fold_left link_step todo st).
Proof.
  induction todo as [|k todo IH]; intros done st Hin Hl; cbn [fold_left].
  - now rewrite app_nil_r.
  - replace (done ++ k :: todo) with ((done ++ [k]) ++ todo)
      by (rewrite <- app_assoc; reflexivity).
    apply IH; [intros x Hx; apply Hin; now right|].
    apply linked_step; [apply Hin; now left | exact Hl].
Qed.

(** [hierarchy] and the [children] arrays after the linking loop. *)
Lemma build_hierarchy_linked (m0 : omap jsval node) :
  linked m0 (map_keys m0) (build_hierarchy m0).
Proof.
  unfold build_hierarchy.
  apply (linked_fold m0 (map_keys m0) [] (m0, [])); [apply incl_refl | apply linked_start].
Qed.

(** [taskMap] after the first loop: a node under each task id, made from
    the last task with that id, without children. *)
Lemma register_task_map (tasks : list task) :
  forall (m : omap jsval node) (a p : number),
    NoDup (map_keys m) ->
    (forall k nd, map_get jsval_eq_dec k m = Some nd ->
                  task_id (n_task nd) = k /\ n_children nd = []
                  /\ n_actualHours nd = resource_hours (task_timeSpentInLogs (n_task nd))
                  /\ n_plannedHours nd = resource_hours (task_timeEstimate (n_task nd))) ->
    let m' := fst (fst (fold_left register_task tasks (m, a, p))) in
    NoDup (map_keys m')
    /\ (forall k nd, map_get jsval_eq_dec k m' = Some nd ->
                     task_id (n_task nd) = k /\ n_children nd = []
                     /\ n_actualHours nd = resource_hours (task_timeSpentInLogs (n_task nd))
                     /\ n_plannedHours nd = resource_hours (task_timeEstimate (n_task nd)))
    /\ (forall k, In k (map_keys m') <->
                  In k (map_keys m) \/ In k (map task_id tasks))
    /\ (forall k nd, map_get jsval_eq_dec k m' = Some nd ->
                     map_get jsval_eq_dec k m = Some nd \/ In (n_task nd) tasks).
Proof.
  induction tasks as [|t tasks IH]; intros m a p Hnd Hm; cbn [fold_left].
  - cbn [fst]. split; [exact Hnd|]. split; [exact Hm|]. split; [|now left].
    intros k. cbn [map In]. tauto.
  - cbn [register_task].
    set (nd_t := {| n_task := t |}).
    specialize (IH (map_set jsval_eq_dec (task_id t) nd_t m)
                  (num_add a (resource_hours (task_timeSpentInLogs t)))
                  (num_add p (resource_hours (task_timeEstimate t)))).
    destruct IH as (I1 & I2 & I3 & I4).
    + now apply map_set_NoDup.
    + intros k nd. destruct (jsval_eq_dec (task_id t) k) as [E|E].
      * subst k. rewrite map_get_set_eq. intros H. inversion H; subst nd.
        now repeat split.
      * rewrite map_get_set_neq by exact E. apply Hm.
    + split; [exact I1|]. split; [exact I2|]. split.
      * intros k. rewrite I3. cbn [map].
        assert (Hset : In k (map_keys (map_set jsval_eq_dec (task_id t) nd_t m))
                       <-> In k (map_keys m) \/ task_id t = k).
        { rewrite <- !(map_has_keys jsval_eq_dec). unfold map_has.
          destruct (jsval_eq_dec (task_id t) k) as [E|E].
          - subst k. rewrite map_get_set_eq. split; [now right | reflexivity].
          - rewrite map_get_set_neq by exact E.
            split; [now left | intros [H|H]; [exact H | contradiction]]. }
        rewrite Hset. cbn [In]. tauto.
      * intros k nd H. destruct (I4 _ _ H) as [H'|H']; [|right; now right].
        destruct (jsval_eq_dec (task_id t) k) as [E|E].
        -- subst k. rewrite map_get_set_eq in H'. inversion H'; subst nd.
           right. now left.
        -- rewrite map_get_set_neq in H' by exact E. now left.
Qed.

Lemma build_taskMap_map (tasks : list task) :
  let m0 := fst (fst (build_taskMap tasks)) in
  NoDup (map_keys m0)
  /\ (forall k nd, map_get jsval_eq_dec k m0 = Some nd ->
                   task_id (n_task nd) = k /\ n_children nd = []
                   /\ n_actualHours nd = resource_hours (task_timeSpentInLogs (n_task nd))
                   /\ n_plannedHours nd = resource_hours (task_timeEstimate (n_task nd))
                   /\ In (n_task nd) tasks)
  /\ (forall k, In k (map_keys m0) <-> In k (map task_id tasks)).
Proof.
  intros m0. subst m0. unfold build_taskMap.
  destruct (register_task_map tasks [] num_zero num_zero) as (H1 & H2 & H3 & H4).
  - constructor.
  - intros k nd H. discriminate.
  - split; [exact H1|]. split.
    + intros k nd H. destruct (H2 _ _ H) as (A & B & C & D).
      destruct (H4 _ _ H) as [H'|H']; [discriminate|]. now repeat split.
    + intros k. rewrite H3. cbn [map_keys map In]. tauto.
Qed.

(** How far below a root a node hangs: a root is at depth 0, and a node
    linked under a parent one deeper than the parent. *)
Inductive depth (taskMap : omap jsval node) : jsval -> nat -> Prop :=
| depth_root k :
    In k (map_keys taskMap) -> is_root taskMap k = true -> depth taskMap k O
| depth_child k n :
    In k (map_keys taskMap) -> is_root taskMap k = false ->
    depth taskMap (parent_of taskMap k) n -> depth taskMap k (S n).

Lemma depth_key (m : omap jsval node) (k : jsval) (n : nat) :
  depth m k n -> In k (map_keys m).
Proof. now destruct 1. Qed.

Lemma depth_functional (m : omap jsval node) (k : jsval) (n : nat) :
  depth m k n -> forall n', depth m k n' -> n = n'.
Proof.
  induction 1 as [k Hk Hr|k n Hk Hr _ IH]; intros n' H'; inversion H'; subst;
    try congruence.
  f_equal. now apply IH.
Qed.

(** The chain of parents of a node at depth [n] ends at a root after [n]
    steps. *)
Lemma depth_ancestor (m : omap jsval node) (k : jsval) (n : nat) :
  depth m k n -> forall j, (j <= n)%nat ->
  is_root m (Nat.iter j (parent_of m) k) = if (j =? n)%nat then true else false.
Proof.
  induction 1 as [k Hk Hr|k n Hk Hr _ IH]; intros j Hj.
  - replace j with O by lia. exact Hr.
  - destruct j as [|j]; [exact Hr|].
    rewrite Nat.iter_succ_r. cbn [Nat.eqb]. apply IH. lia.
Qed.

Lemma children_of_spec (m : omap jsval node) (p c : jsval) :
  In c (children_of m p)
  <-> In c (map_keys m) /\ is_root m c = false /\ parent_of m c = p.
Proof.
  unfold children_of. rewrite filter_In, andb_true_iff, negb_true_iff.
  unfold jsval_eqb. destruct (jsval_eq_dec (parent_of m c) p); intuition congruence.
Qed.

Lemma resource_row_same (userMap : omap (option Z) user) (nd nd' : node) (level : Z) :
  n_task nd' = n_task nd -> n_actualHours nd' = n_actualHours nd ->
  n_plannedHours nd' = n_plannedHours nd ->
  resource_row userMap nd' level = resource_row userMap nd level.
Proof. unfold resource_row. now intros -> -> ->. Qed.

Section Traversal.
Variable userMap : omap (option Z) user.
Variable detailLevel : Z.
(** The store before and after the linking loop. *)
Variables m0 m : omap jsval node.
Variable hierarchy : list jsval.
Hypothesis Hlinked : linked m0 (map_keys m0) (m, hierarchy).
Hypothesis Hleaf : forall k nd, map_get jsval_eq_dec k m0 = Some nd -> n_children nd = [].

(** The traversal from a level on, with the fuel that covers it. *)
Definition flatten_from (level : Z) (ks : list jsval) : list resourceRow :=
  flattenHierarchy userMap m detailLevel (flatten_fuel detailLevel level) ks level.

Lemma flatten_from_unfold (level : Z) (ks : list jsval) :
  flatten_from level ks
  = flat_map (fun k => match map_get jsval_eq_dec k m with
                       | Some nd =>
                           (if level <=? detailLevel
                            then [resource_row userMap nd level] else [])
                           ++ (if level <? detailLevel
                               then flatten_from (level + 1) (n_children nd) else [])
                       | None => []
                       end) ks.
Proof.
  unfold flatten_from, flatten_fuel.
  destruct (Z.ltb_spec level detailLevel) as [Hlt|Hge].
  - rewrite flatten_below_bound by exact Hlt.
    apply flat_map_ext. intros k.
    destruct (map_get jsval_eq_dec k m) as [nd|]; [|reflexivity].
    destruct (Z.leb_spec level detailLevel); [|lia]. cbn [app]. f_equal.
    apply flatten_fuel_irrelevant; lia.
  - destruct (Z.leb_spec level detailLevel) as [Hle|Hgt].
    + replace level with detailLevel by lia. rewrite flatten_at_bound.
      apply flat_map_ext. intros k.
      destruct (map_get jsval_eq_dec k m); [|reflexivity]. now rewrite app_nil_r.
    + rewrite flatten_beyond by lia. symmetry.
      induction ks as [|k ks IH]; [reflexivity|]. cbn [flat_map]. rewrite IH.
      now destruct (map_get jsval_eq_dec k m).
Qed.

Lemma linked_node (k : jsval) (nd0 : node) :
  map_get jsval_eq_dec k m0 = Some nd0 ->
  exists nd, map_get jsval_eq_dec k m = Some nd
             /\ (forall level, resource_row userMap nd level = resource_row userMap nd0 level)
             /\ n_children nd = children_of m0 k.
Proof.
  intros H. destruct Hlinked as (_ & _ & Hn). cbn [fst] in Hn.
  destruct (Hn _ _ H) as (nd & H1 & H2 & H3 & H4 & H5).
  exists nd. split; [exact H1|]. split.
  - intros level. now apply resource_row_same.
  - rewrite H5, (Hleaf _ _ H). reflexivity.
Qed.

Lemma linked_hierarchy : hierarchy = filter (is_root m0) (map_keys m0).
Proof. destruct Hlinked as (_ & H & _). exact H. Qed.

(** Every row of the traversal is the row of a node at its depth. *)
Lemma flatten_from_sound (j : nat) :
  forall (n : nat) (ks : list jsval) (r : resourceRow),
    (Z.to_nat (detailLevel + 1 - Z.of_nat n) <= j)%nat ->
    (forall k, In k ks -> depth m0 k n) ->
    In r (flatten_from (Z.of_nat n) ks) ->
    exists k nd0 n',
      map_get jsval_eq_dec k m0 = Some nd0 /\ depth m0 k n'
      /\ Z.of_nat n' <= detailLevel
      /\ r = resource_row userMap nd0 (Z.of_nat n').
Proof.
  induction j as [|j IH]; intros n ks r Hj Hks; rewrite flatten_from_unfold;
    intros Hr; apply in_flat_map in Hr as (k & Hk & Hr);
    destruct (map_get jsval_eq_dec k m) as [nd|] eqn:Ek; try contradiction;
    apply in_app_or in Hr as [Hr|Hr].
  - destruct (Z.leb_spec (Z.of_nat n) detailLevel); [lia | contradiction].
  - destruct (Z.ltb_spec (Z.of_nat n) detailLevel); [lia | contradiction].
  - destruct (Z.leb_spec (Z.of_nat n) detailLevel) as [Hle|]; [|contradiction].
    destruct Hr as [<-|[]].
    destruct (map_get_key k m0 (depth_key _ _ _ (Hks k Hk))) as [nd0 E0].
    destruct (linked_node k nd0 E0) as (nd' & E' & Hrow & _).
    rewrite Ek in E'. inversion E'; subst nd'.
    exists k, nd0, n. repeat split; [exact E0 | now apply Hks | exact Hle | apply Hrow].
  - destruct (Z.ltb_spec (Z.of_nat n) detailLevel) as [Hlt|]; [|contradiction].
    destruct (map_get_key k m0 (depth_key _ _ _ (Hks k Hk))) as [nd0 E0].
    destruct (linked_node k nd0 E0) as (nd' & E' & _ & Hch).
    rewrite Ek in E'. inversion E'; subst nd'.
    replace (Z.of_nat n + 1) with (Z.of_nat (S n)) in Hr by lia.
    apply (IH (S n) (n_children nd) r); [lia | | exact Hr].
    intros c Hc. rewrite Hch in Hc. apply children_of_spec in Hc as (Hc1 & Hc2 & Hc3).
    apply depth_child; [exact Hc1 | exact Hc2 |]. rewrite Hc3. now apply Hks.
Qed.

(** A node at a depth within the detail level is emitted at that depth,
    and what the traversal makes of its children is emitted too. *)
Lemma flatten_from_complete (k : jsval) (n : nat) :
  depth m0 k n -> Z.of_nat n <= detailLevel ->
  forall nd, map_get jsval_eq_dec k m = Some nd ->
    In (resource_row userMap nd (Z.of_nat n)) (flatten_from 0 hierarchy)
    /\ (Z.of_nat n < detailLevel ->
        incl (flatten_from (Z.of_nat n + 1) (n_children nd)) (flatten_from 0 hierarchy)).
Proof.
  induction 1 as [k Hk Hr|k n Hk Hr Hp IH]; intros Hle nd Ek.
  - assert (Hin : In k hierarchy)
      by (rewrite linked_hierarchy; apply filter_In; now split).
    split; [|intros Hlt r Hr'];
      rewrite (flatten_from_unfold 0 hierarchy); apply in_flat_map; exists k;
      (split; [exact Hin|]); rewrite Ek; apply in_or_app.
    + left. destruct (Z.leb_spec 0 detailLevel); [now left | lia].
    + right. cbn [Z.of_nat] in Hlt, Hr'. destruct (Z.ltb_spec 0 detailLevel); [|lia].
      exact Hr'.
  - destruct (map_get_key _ m0 (depth_key _ _ _ Hp)) as [ndp0 Ep0].
    destruct (linked_node _ ndp0 Ep0) as (ndp & Ep & _ & Hch).
    destruct (IH ltac:(lia) ndp Ep) as [_ Hsub]. specialize (Hsub ltac:(lia)).
    assert (Hin : In k (n_children ndp))
      by (rewrite Hch; apply children_of_spec; now repeat split).
    replace (Z.of_nat (S n)) with (Z.of_nat n + 1) in * by lia.
    split; [|intros Hlt r Hr'];
      apply Hsub; rewrite flatten_from_unfold; apply in_flat_map; exists k;
      (split; [exact Hin|]); rewrite Ek; apply in_or_app.
    + left. destruct (Z.leb_spec (Z.of_nat n + 1) detailLevel); [now left | lia].
    + right. destruct (Z.ltb_spec (Z.of_nat n + 1) detailLevel); [exact Hr' | lia].
Qed.

Lemma flatten_from_rows (r : resourceRow) :
  In r (flatten_from 0 hierarchy)
  <-> exists k nd0 n,
        map_get jsval_eq_dec k m0 = Some nd0 /\ depth m0 k n
        /\ Z.of_nat n <= detailLevel
        /\ r = resource_row userMap nd0 (Z.of_nat n).
Proof.
  split.
  - apply (flatten_from_sound (Z.to_nat (detailLevel + 1)) O hierarchy r); [cbn; lia|].
    intros k Hk. rewrite linked_hierarchy in Hk. apply filter_In in Hk as [Hk Hr].
    now apply depth_root.
  - intros (k & nd0 & n & E0 & Hd & Hle & ->).
    destruct (linked_node k nd0 E0) as (nd & E & Hrow & _).
    rewrite <- Hrow. exact (proj1 (flatten_from_complete k n Hd Hle nd E)).
Qed.

(** At detail level 0 the traversal lists the roots, in the order of the
    store. *)
Lemma flatten_from_roots :
  detailLevel = 0 ->
  flatten_from 0 hierarchy
  = flat_map (fun k => match map_get jsval_eq_dec k m0 with
                       | Some nd0 => [resource_row userMap nd0 0]
                       | None => []
                       end) (filter (is_root m0) (map_keys m0)).
Proof.
  intros Hd. rewrite flatten_from_unfold, linked_hierarchy.
  apply flat_map_ext. intros k.
  destruct (map_get jsval_eq_dec k m0) as [nd0|] eqn:E0.
  - destruct (linked_node k nd0 E0) as (nd & E & Hrow & _). rewrite E, Hrow.
    destruct (Z.leb_spec 0 detailLevel); [|lia].
    destruct (Z.ltb_spec 0 detailLevel); [lia|]. now rewrite app_nil_r.
  - destruct Hlinked as (Hkeys & _ & _). cbn [fst] in Hkeys.
    apply map_get_None_keys in E0. rewrite <- Hkeys in E0.
    apply (map_get_None_keys jsval_eq_dec) in E0. now rewrite E0.
Qed.

Hypothesis Hid : forall k nd, map_get jsval_eq_dec k m0 = Some nd -> task_id (n_task nd) = k.
Hypothesis Hnodup : NoDup (map_keys m0).

Lemma flatten_from_cons (level : Z) (k : jsval) (ks : list jsval) :
  flatten_from level (k :: ks) = flatten_from level [k] ++ flatten_from level ks.
Proof.
  rewrite !(flatten_from_unfold level). cbn [flat_map]. now rewrite app_nil_r.
Qed.

(** Every row of the traversal of a list of nodes belongs to a node that
    hangs under one of them. *)
Lemma flatten_from_below (j : nat) :
  forall (n : nat) (ks : list jsval) (r : resourceRow),
    (Z.to_nat (detailLevel + 1 - Z.of_nat n) <= j)%nat ->
    (forall k, In k ks -> depth m0 k n) ->
    In r (flatten_from (Z.of_nat n) ks) ->
    exists n' : nat,
      depth m0 (rr_taskId r) n' /\ (n <= n')%nat
      /\ In (Nat.iter (n' - n) (parent_of m0) (rr_taskId r)) ks.
Proof.
  induction j as [|j IH]; intros n ks r Hj Hks; rewrite flatten_from_unfold;
    intros Hr; apply in_flat_map in Hr as (k & Hk & Hr);
    destruct (map_get jsval_eq_dec k m) as [nd|] eqn:Ek; try contradiction;
    apply in_app_or in Hr as [Hr|Hr].
  - destruct (Z.leb_spec (Z.of_nat n) detailLevel); [lia | contradiction].
  - destruct (Z.ltb_spec (Z.of_nat n) detailLevel); [lia | contradiction].
  - destruct (Z.leb_spec (Z.of_nat n) detailLevel) as [Hle|]; [|contradiction].
    destruct Hr as [<-|[]].
    destruct (map_get_key k m0 (depth_key _ _ _ (Hks k Hk))) as [nd0 E0].
    destruct (linked_node k nd0 E0) as (nd' & E' & Hrow & _).
    rewrite Ek in E'. inversion E'; subst nd'.
    rewrite Hrow. cbn [resource_row rr_taskId]. rewrite (Hid _ _ E0).
    exists n. split; [now apply Hks|]. split; [lia|].
    now rewrite Nat.sub_diag.
  - destruct (Z.ltb_spec (Z.of_nat n) detailLevel) as [Hlt|]; [|contradiction].
    destruct (map_get_key k m0 (depth_key _ _ _ (Hks k Hk))) as [nd0 E0].
    destruct (linked_node k nd0 E0) as (nd' & E' & _ & Hch).
    rewrite Ek in E'. inversion E'; subst nd'.
    replace (Z.of_nat n + 1) with (Z.of_nat (S n)) in Hr by lia.
    destruct (IH (S n) (n_children nd) r) as (n' & Hd & Hn & Hin); [lia | | exact Hr |].
    + intros c Hc. rewrite Hch in Hc. apply children_of_spec in Hc as (Hc1 & Hc2 & Hc3).
      apply depth_child; [exact Hc1 | exact Hc2 |]. rewrite Hc3. now apply Hks.
    + exists n'. split; [exact Hd|]. split; [lia|].
      rewrite Hch in Hin. apply children_of_spec in Hin as (_ & _ & Hp).
      replace (n' - n)%nat with (S (n' - S n)) by lia.
      rewrite Nat.iter_succ, Hp. exact Hk.
Qed.

(** No node is listed twice. *)
Lemma flatten_from_NoDup (j : nat) :
  forall (n : nat) (ks : list jsval),
    (Z.to_nat (detailLevel + 1 - Z.of_nat n) <= j)%nat ->
    NoDup ks -> (forall k, In k ks -> depth m0 k n) ->
    NoDup (map rr_taskId (flatten_from (Z.of_nat n) ks)).
Proof.
  induction j as [|j IH]; intros n ks Hj Hnd Hks.
  - replace (flatten_from (Z.of_nat n) ks) with (@nil resourceRow); [constructor|].
    symmetry. unfold flatten_from. apply flatten_beyond. lia.
  - induction Hnd as [|k ks Hk Hnd IHks]; [rewrite flatten_from_unfold; constructor|].
    rewrite flatten_from_cons, map_app.
    assert (Hk1 : forall x, In x [k] -> depth m0 x n)
      by (intros x [<-|[]]; apply Hks; now left).
    assert (Hks1 : forall x, In x ks -> depth m0 x n)
      by (intros x Hx; apply Hks; now right).
    apply NoDup_app; [|now apply IHks|].
    + rewrite flatten_from_unfold. cbn [flat_map]. rewrite app_nil_r.
      destruct (map_get jsval_eq_dec k m) as [nd|] eqn:Ek; [|constructor].
      destruct (map_get_key k m0 (depth_key _ _ _ (Hk1 k ltac:(now left)))) as [nd0 E0].
      destruct (linked_node k nd0 E0) as (nd' & E' & Hrow & Hch).
      rewrite Ek in E'. inversion E'; subst nd'.
      assert (Hsub : Z.of_nat n < detailLevel ->
                     NoDup (map rr_taskId
                              (flatten_from (Z.of_nat n + 1) (n_children nd)))
                     /\ ~ In k (map rr_taskId
                                  (flatten_from (Z.of_nat n + 1) (n_children nd)))).
      { intros Hlt. replace (Z.of_nat n + 1) with (Z.of_nat (S n)) by lia.
        assert (Hc : forall c, In c (n_children nd) -> depth m0 c (S n)).
        { intros c Hc. rewrite Hch in Hc.
          apply children_of_spec in Hc as (Hc1 & Hc2 & Hc3).
          apply depth_child; [exact Hc1 | exact Hc2 |]. rewrite Hc3.
          apply Hk1. now left. }
        split.
        - apply IH; [lia | | exact Hc].
          rewrite Hch. unfold children_of. now apply NoDup_filter'.
        - intros Hin. apply in_map_iff in Hin as (r & Hr & Hin).
          destruct (flatten_from_below (S j) (S n) (n_children nd) r)
            as (n' & Hd & Hn & _); [lia | exact Hc | exact Hin |].
          rewrite Hr in Hd.
          pose proof (depth_functional m0 k n (Hk1 k ltac:(now left)) n' Hd). lia. }
      destruct (Z.leb_spec (Z.of_nat n) detailLevel);
        destruct (Z.ltb_spec (Z.of_nat n) detailLevel); try lia;
        cbn [app map]; try constructor.
      * rewrite Hrow. cbn [resource_row rr_taskId]. rewrite (Hid _ _ E0).
        now apply Hsub.
      * now apply Hsub.
      * intros [].
      * constructor.
    + intros x Hx1 Hx2.
      apply in_map_iff in Hx1 as (r1 & E1 & Hr1).
      apply in_map_iff in Hx2 as (r2 & E2 & Hr2).
      destruct (flatten_from_below (S j) n [k] r1 Hj Hk1 Hr1) as (n1 & D1 & _ & A1).
      destruct (flatten_from_below (S j) n ks r2 Hj Hks1 Hr2) as (n2 & D2 & _ & A2).
      rewrite E1 in D1, A1. rewrite E2 in D2, A2.
      pose proof (depth_functional m0 x n1 D1 n2 D2) as <-.
      destruct A1 as [A1|[]]. apply Hk. now rewrite A1.
Qed.
End Traversal.

Lemma resource_task_rows_flatten_from (tasks : list task) (users : list user) (d : Z) :
  resource_task_rows tasks users d
  = flatten_from (build_userMap users) d
      (fst (build_hierarchy (fst (fst (build_taskMap tasks))))) 0
      (snd (build_hierarchy (fst (fst (build_taskMap tasks))))).
Proof. reflexivity. Qed.

Lemma build_hierarchy_pair (m0 : omap jsval node) :
  linked m0 (map_keys m0) (fst (build_hierarchy m0), snd (build_hierarchy m0)).
Proof. rewrite <- surjective_pairing. apply build_hierarchy_linked. Qed.

Lemma build_taskMap_leaf (tasks : list task) (k : jsval) (nd : node) :
  map_get jsval_eq_dec k (fst (fst (build_taskMap tasks))) = Some nd -> n_children nd = [].
Proof.
  intros H. destruct (build_taskMap_map tasks) as (_ & Hn & _).
  now destruct (Hn _ _ H) as (_ & Hc & _).
Qed.

Lemma resource_task_rows_spec (tasks : list task) (users : list user) (d : Z)
  (r : resourceRow) :
  In r (resource_task_rows tasks users d)
  <-> exists k nd n,
        map_get jsval_eq_dec k (fst (fst (build_taskMap tasks))) = Some nd
        /\ depth (fst (fst (build_taskMap tasks))) k n
        /\ Z.of_nat n <= d
        /\ r = resource_row (build_userMap users) nd (Z.of_nat n).
Proof.
  rewrite resource_task_rows_flatten_from.
  apply flatten_from_rows; [apply build_hierarchy_pair | apply build_taskMap_leaf].
Qed.

(** X17.  Which rows the resource report has.  The nodes are the tasks under
    their ids, a later task with the same id replacing an earlier one.  A
    node is a root when its task has no parent id or a parent id that is
    the id of no task; any other node hangs under the node of its parent id.
    The rows other than the total row are the rows of the nodes that hang at
    a depth of at most [detailLevel] below a root, each at the level of its
    depth; a node has one depth at most. *)
Theorem resource_rows_are_nodes_within_detail_level :
  forall (tasks : list task) (users : list user) (p : project) (detailLevel : Z),
    let taskMap := fst (fst (build_taskMap tasks)) in
    (forall r : resourceRow,
        In r (processProjectResources tasks users p detailLevel)
        /\ rr_isProjectTotal r = false
        <-> exists (k : jsval) (nd : node) (n : nat),
              map_get jsval_eq_dec k taskMap = Some nd
              /\ depth taskMap k n
              /\ Z.of_nat n <= detailLevel
              /\ r = resource_row (build_userMap users) nd (Z.of_nat n))
    /\ (forall k : jsval, In k (map_keys taskMap) <-> In k (map task_id tasks))
    /\ (forall (k : jsval) (nd : node),
          map_get jsval_eq_dec k taskMap = Some nd ->
          task_id (n_task nd) = k
          /\ In (n_task nd) tasks
          /\ n_actualHours nd = resource_hours (task_timeSpentInLogs (n_task nd))
          /\ n_plannedHours nd = resource_hours (task_timeEstimate (n_task nd)))
    /\ (forall (k : jsval) (n n' : nat),
          depth taskMap k n -> depth taskMap k n' -> n = n').
Proof.
  intros tasks users p d taskMap. subst taskMap.
  destruct (build_taskMap_map tasks) as (_ & Hn & Hk).
  split; [|split; [exact Hk | split]].
  - intros r. rewrite processProjectResources_shape, <- resource_task_rows_spec.
    split.
    + intros [Hin Hr]. apply in_app_or in Hin as [Hin|[<-|[]]]; [exact Hin | discriminate].
    + intros Hin. split; [apply in_or_app; now left|].
      pose proof (resource_task_rows_not_total tasks users d) as Hall.
      rewrite Forall_forall in Hall. now apply Hall.
  - intros k nd H. destruct (Hn _ _ H) as (A & _ & B & C & D). now repeat split.
  - intros k n n' H H'. exact (depth_functional _ k n H n' H').
Qed.

(** X18.  A task whose chain of parents never comes to a root, such as a
    task that is its own parent or two tasks that are each other's parent,
    has no row in the resource report, at any detail level, while the total
    row still counts the hours of every task. *)
Theorem tasks_on_a_parent_cycle_have_no_row :
  forall (tasks : list task) (users : list user) (p : project) (detailLevel : Z)
         (k : jsval),
    let taskMap := fst (fst (build_taskMap tasks)) in
    (forall j : nat, is_root taskMap (Nat.iter j (parent_of taskMap) k) = false) ->
    (forall r : resourceRow,
        In r (processProjectResources tasks users p detailLevel) ->
        rr_isProjectTotal r = false -> rr_taskId r <> k)
    /\ exists total : resourceRow,
         In total (processProjectResources tasks users p detailLevel)
         /\ rr_isProjectTotal total = true
         /\ rr_actualHours total
            = fold_left num_add
                (map (fun t => resource_hours (task_timeSpentInLogs t)) tasks) 0%float
         /\ rr_plannedHours total
            = fold_left num_add
                (map (fun t => resource_hours (task_timeEstimate t)) tasks) 0%float.
Proof.
  intros tasks users p d k taskMap Hcycle. subst taskMap. split.
  - intros r Hin Hr Hk.
    rewrite processProjectResources_shape in Hin.
    apply in_app_or in Hin as [Hin|[<-|[]]]; [|discriminate].
    apply resource_task_rows_spec in Hin as (k' & nd & n & E & Hd & _ & ->).
    destruct (build_taskMap_map tasks) as (_ & Hn & _).
    destruct (Hn _ _ E) as (Hid & _). cbn [resource_row rr_taskId] in Hk.
    rewrite Hid in Hk. subst k'.
    pose proof (depth_ancestor _ k n Hd n (le_n n)) as Hroot.
    rewrite Nat.eqb_refl, Hcycle in Hroot. discriminate.
  - exists (total_row p (total_actual tasks) (total_planned tasks)).
    split; [|repeat split].
    rewrite processProjectResources_shape. apply in_or_app. right. now left.
Qed.

(** Two tasks that name each other as parent, and a third one. *)
Definition cycle_tasks : list task :=
  [ {| task_id := JStr "1"; task_title := Some "A"; task_groupId := JStr "10";
       task_group_name := None; task_parentId := JStr "2";
       task_responsibleId := JStr "5"; task_timeEstimate := JStr "3600";
       task_timeSpentInLogs := JStr "7200" |};
    {| task_id := JStr "2"; task_title := Some "B"; task_groupId := JStr "10";
       task_group_name := None; task_parentId := JStr "1";
       task_responsibleId := JStr "5"; task_timeEstimate := JStr "3600";
       task_timeSpentInLogs := JStr "3600" |};
    {| task_id := JStr "3"; task_title := Some "C"; task_groupId := JStr "10";
       task_group_name := None; task_parentId := JNull;
       task_responsibleId := JStr "5"; task_timeEstimate := JStr "3600";
       task_timeSpentInLogs := JStr "3600" |} ].

Lemma tasks_on_a_parent_cycle_have_no_row_witness :
  let out := processProjectResources cycle_tasks []
               {| project_ID := JStr "10"; project_NAME := "P" |} 5 in
  Forall (fun r => rr_isProjectTotal r = false -> rr_taskId r <> JStr "1") out
  /\ map (fun r => (rr_taskId r, rr_isProjectTotal r, rr_actualHours r, rr_plannedHours r))
       out
     = [(JStr "3", false, 1%float, 1%float); (JUndefined, true, 4%float, 3%float)]
  /\ exists total : resourceRow,
       In total out /\ rr_isProjectTotal total = true
       /\ rr_actualHours total = 4%float /\ rr_plannedHours total = 3%float.
Proof.
  intros out.
  assert (Hcycle : forall j : nat,
             is_root (fst (fst (build_taskMap cycle_tasks)))
               (Nat.iter j (parent_of (fst (fst (build_taskMap cycle_tasks)))) (JStr "1"))
             = false);
    [|destruct (tasks_on_a_parent_cycle_have_no_row cycle_tasks []
                  {| project_ID := JStr "10"; project_NAME := "P" |} 5 (JStr "1") Hcycle)
        as (Hrows & total & Hin & Htotal & Ha & Hp);
      split; [apply Forall_forall; exact Hrows|];
      split; [vm_compute; reflexivity|];
      exists total; split; [exact Hin|]; split; [exact Htotal|];
      split; [rewrite Ha | rewrite Hp]; vm_compute; reflexivity].
  intros j.
  assert (H : Nat.iter j (parent_of (fst (fst (build_taskMap cycle_tasks)))) (JStr "1")
              = JStr "1"
              \/ Nat.iter j (parent_of (fst (fst (build_taskMap cycle_tasks)))) (JStr "1")
                 = JStr "2").
  { induction j as [|j IH]; [now left|].
    rewrite Nat.iter_succ. destruct IH as [IH|IH]; rewrite IH; [right | left];
      reflexivity. }
  destruct H as [H|H]; rewrite H; reflexivity.
Defined.

(** X19.  At detail level 0 the resource report lists the roots and nothing
    else, in the order in which their ids first occur among the tasks,
    followed by the total row; below 0 it is the total row alone. *)
Theorem resource_rows_at_detail_level_zero :
  forall (tasks : list task) (users : list user) (p : project),
    let taskMap := fst (fst (build_taskMap tasks)) in
    let total :=
      total_row p
        (sum_hours (map (fun t => resource_hours (task_timeSpentInLogs t)) tasks))
        (sum_hours (map (fun t => resource_hours (task_timeEstimate t)) tasks)) in
    processProjectResources tasks users p 0
    = flat_map (fun k => match map_get jsval_eq_dec k taskMap with
                         | Some nd => [resource_row (build_userMap users) nd 0]
                         | None => []
                         end) (filter (is_root taskMap) (map_keys taskMap))
      ++ [total]
    /\ (forall detailLevel : Z,
          detailLevel < 0 -> processProjectResources tasks users p detailLevel = [total]).
Proof.
  intros tasks users p taskMap total. subst taskMap total. split.
  - rewrite processProjectResources_shape. f_equal.
    rewrite resource_task_rows_flatten_from.
    apply flatten_from_roots;
      [apply build_hierarchy_pair | apply build_taskMap_leaf | reflexivity].
  - intros d Hd. rewrite processProjectResources_shape.
    unfold resource_task_rows. now rewrite flatten_beyond by exact Hd.
Qed.

(** X20.  The resource report never lists a task twice: the rows before the
    total row have different task ids, each the id of a task of the input,
    so that there are at most as many of them as there are tasks; this holds
    also when ids repeat in the input or parents form a cycle. *)
Theorem resource_report_lists_a_task_once :
  forall (tasks : list task) (users : list user) (p : project) (detailLevel : Z),
    exists body : list resourceRow,
      processProjectResources tasks users p detailLevel
      = body ++ [total_row p
                   (sum_hours (map (fun t => resource_hours (task_timeSpentInLogs t)) tasks))
                   (sum_hours (map (fun t => resource_hours (task_timeEstimate t)) tasks))]
      /\ NoDup (map rr_taskId body)
      /\ (forall r, In r body -> In (rr_taskId r) (map task_id tasks))
      /\ (length body <= length tasks)%nat.
Proof.
  intros tasks users p d.
  exists (resource_task_rows tasks users d).
  split; [apply processProjectResources_shape|].
  destruct (build_taskMap_map tasks) as (Hnd & Hn & Hk).
  assert (Hids : NoDup (map rr_taskId (resource_task_rows tasks users d))).
  { rewrite resource_task_rows_flatten_from.
    apply (flatten_from_NoDup (build_userMap users) d
             (fst (fst (build_taskMap tasks))) _ _
             (build_hierarchy_pair _) (build_taskMap_leaf tasks)
             (fun k nd H => proj1 (Hn k nd H)) Hnd
             (Z.to_nat (d + 1)) O); [cbn; lia | |].
    - destruct (build_hierarchy_pair (fst (fst (build_taskMap tasks)))) as (_ & E & _).
      cbn [snd] in E. rewrite E. now apply NoDup_filter'.
    - intros k Hin.
      destruct (build_hierarchy_pair (fst (fst (build_taskMap tasks)))) as (_ & E & _).
      cbn [snd] in E. rewrite E in Hin. apply filter_In in Hin as [Hin Hr].
      now apply depth_root. }
  assert (Hin : forall r, In r (resource_task_rows tasks users d) ->
                          In (rr_taskId r) (map task_id tasks)).
  { intros r Hr. apply resource_task_rows_spec in Hr as (k & nd & n & E & _ & _ & ->).
    destruct (Hn _ _ E) as (Hid & _ & _ & _ & Ht).
    cbn [resource_row rr_taskId]. now apply in_map. }
  split; [exact Hids|]. split; [exact Hin|].
  rewrite <- (length_map rr_taskId), <- (length_map task_id tasks).
  apply NoDup_incl_length; [exact Hids|].
  intros x Hx. apply in_map_iff in Hx as (r & <- & Hr). now apply Hin.
Qed.

(* ================================================================== *)
(** * PlanVsFact: when the report is empty                             *)
(* ================================================================== *)

(** X22.  The plan-vs-fact report is empty exactly when no task passes the
    guard, and so for an empty task list; a group of the report never comes
    without rows, and the report has at least twice as many rows as it has
    groups. *)
Theorem planFact_report_empty_iff_no_task_kept :
  forall (localeCompare : string -> string -> Z) (tasks : list task)
         (users : list user) (projectMap : omap (option Z) project),
    let out := processPlanFactData localeCompare tasks users projectMap in
    (out = [] <-> forall t, In t tasks -> kept t = false)
    /\ processPlanFactData localeCompare [] users projectMap = []
    /\ (2 * length (filter isSummary out) <= length out)%nat.
Proof.
  intros lc tasks users pm out.
  set (groups := build_userTaskMap (build_userMap users) pm tasks).
  destruct (build_userTaskMap_invariant (build_userMap users) pm tasks)
    as (Hok & Hnd & Hkeys & _).
  fold groups in Hok, Hnd, Hkeys.
  assert (Hperm : Permutation out (emit_rows groups)) by apply planFact_rows_perm.
  split; [|split; [reflexivity|]].
  - split.
    + intros Hout t Hin. destruct (kept t) eqn:Ek; [|reflexivity]. exfalso.
      assert (Hk : In (group_key t) (map_keys groups)) by (apply Hkeys; eauto).
      destruct (map_get string_dec (group_key t) groups) as [ud|] eqn:E;
        [|now apply map_get_None_keys in E].
      apply (map_get_Some_In string_dec) in E.
      rewrite Hout in Hperm. apply Permutation_nil in Hperm. revert Hperm.
      unfold emit_rows. apply (flat_map_nonempty emit_group _ ud).
      * apply in_map_iff. exists (group_key t, ud). now split.
      * unfold emit_group. intros H. apply app_eq_nil in H as [_ H]. discriminate.
    + intros Hnone. destruct groups as [|[k ud] rest] eqn:Eg.
      * apply Permutation_nil. apply Permutation_sym. exact Hperm.
      * exfalso. destruct (proj1 (Hkeys k)) as (t & Hin & Hk & _); [now left|].
        rewrite (Hnone t Hin) in Hk. discriminate.
  - rewrite (Permutation_length (Permutation_filter' isSummary Hperm)).
    rewrite (Permutation_length Hperm), emit_rows_summaries.
    unfold emit_rows, map_values. rewrite length_map.
    assert (Hall : Forall (fun ud => ud_tasks ud <> []) (map snd groups)).
    { apply Forall_forall. intros ud Hud.
      apply in_map_iff in Hud as ([k ud'] & Hk & Hin). cbn [snd] in Hk. subst ud'.
      apply (map_get_In string_dec) in Hin; [|exact Hnd]. exact (Hok _ _ Hin). }
    clear - Hall. induction Hall as [|ud l Hud _ IH]; [cbn; lia|].
    cbn [map flat_map length]. rewrite length_app. unfold emit_group at 1.
    rewrite length_app. unfold detail_rows, map_values. rewrite !length_map.
    destruct (ud_tasks ud); [congruence|]. cbn [length]. lia.
Qed.




(* ================================================================== *)
(** * Ids: printing and parsing                                         *)
(* ================================================================== *)






(* ================================================================== *)
(** * Users by parsed id                                                *)
(* ================================================================== *)







